(** * Browser automation dispatch service: task queue, rendezvous table,
      tab/window store.

    A shallow embedding of the Node.js side of the repository
    (managers/TaskQueue.js, managers/TabManager.js and index.js) and the
    properties of its natural-language specification.

    Conventions of the embedding.
    - JavaScript values that travel in request bodies are JSON primitives
      ([JS.value]); numbers are integers, so that [===] and the
      SameValueZero comparison of [Array.prototype.includes] and of [Map]
      keys are both plain equality.
    - Objects mutated in place ([this.openedTabs[i].url = ...],
      [window.tabs.push(...)]) are list updates at the index the source
      finds.
    - [Date.now()] is a clock field of the server state;
      [new Date().toISOString()] is that clock value.
    - A promise is a natural number; every call of one of its resolving
      functions is appended to a log. Timers and file writes that have been
      started and whose callback has not yet run are kept in the state, and
      the run of a callback is an event of its own. *)

From Stdlib Require Import ZArith Lia.
From stdpp Require Import base decidable countable strings list gmap pretty.

(** ** JavaScript values *)

Module JS.

Inductive value : Type :=
  | Undefined
  | Null
  | Bool (b : bool)
  | Num (n : Z)
  | Str (s : string).

#[global] Instance value_eq_dec : EqDecision value.
Proof. solve_decision. Defined.

Definition encode_value (v : value) : unit + (unit + (bool + (Z + string))) :=
  match v with
  | Undefined => inl ()
  | Null => inr (inl ())
  | Bool b => inr (inr (inl b))
  | Num n => inr (inr (inr (inl n)))
  | Str s => inr (inr (inr (inr s)))
  end.

Definition decode_value (x : unit + (unit + (bool + (Z + string)))) : value :=
  match x with
  | inl _ => Undefined
  | inr (inl _) => Null
  | inr (inr (inl b)) => Bool b
  | inr (inr (inr (inl n))) => Num n
  | inr (inr (inr (inr s))) => Str s
  end.

#[global] Instance value_countable : Countable value.
Proof. by apply (inj_countable' encode_value decode_value); intros []. Defined.

(** ToBoolean. *)
Definition truthy (v : value) : bool :=
  match v with
  | Undefined | Null => false
  | Bool b => b
  | Num n => negb (n =? 0)%Z
  | Str s => negb (String.eqb s "")
  end.

(** [a || b]. *)
Definition or (a b : value) : value := if truthy a then a else b.

(** ToString, as used by template literals. A number is an integer here
    and is printed with all its digits, which is what JavaScript prints
    for integers of magnitude below 10^21; from there on JavaScript prints
    the exponent form, so the text of an id or a message built from such a
    number is not the one given here. *)
Definition to_string (v : value) : string :=
  match v with
  | Undefined => "undefined"
  | Null => "null"
  | Bool true => "true"
  | Bool false => "false"
  | Num n => pretty n
  | Str s => s
  end.

(** [typeof v === 'number'] and [typeof v === 'string']. *)
Definition is_number (v : value) : bool :=
  match v with Num _ => true | _ => false end.

Definition is_string (v : value) : bool :=
  match v with Str _ => true | _ => false end.

(** [l.includes(v)]. *)
Definition includes (l : list value) (v : value) : bool := bool_decide (v ∈ l).

(** A parsed JSON document in the position of [data]: a primitive or an
    object with primitive fields. A property read on a primitive or of a
    missing field is [undefined]; [null.f] throws, which the callers guard
    against with [data && ...]. *)
Inductive json : Type :=
  | Prim (v : value)
  | Object (fields : gmap string value).

#[global] Instance json_eq_dec : EqDecision json.
Proof. solve_decision. Defined.

Definition json_truthy (d : json) : bool :=
  match d with
  | Prim v => truthy v
  | Object _ => true
  end.

Definition get (d : json) (f : string) : value :=
  match d with
  | Prim _ => Undefined
  | Object fields => default Undefined (fields !! f)
  end.

End JS.

(** ** managers/TaskQueue.js *)

Module TaskQueue.

Section Queue.
Context {T : Type}.

(** [this.queue], created empty by the constructor. *)
Definition new : list T := [].

Definition addTask (task : T) (queue : list T) : list T := queue ++ [task].

(** Returns [null] ([None]) on an empty queue, else shifts the head. *)
Definition getNextTask (queue : list T) : option T * list T :=
  match queue with
  | [] => (None, queue)
  | task :: rest => (Some task, rest)
  end.

Definition peekNextTask (queue : list T) : option T := head queue.

Definition hasTask (predicate : T → bool) (queue : list T) : bool :=
  existsb predicate queue.

(** A client of the queue: any interleaving of the two mutators. *)
Inductive op : Type :=
  | Add (task : T)
  | Pull.

(** Runs a sequence of operations; the output is the list of the values
    the pulls returned, in order. *)
Fixpoint run (ops : list op) (queue : list T) : list (option T) * list T :=
  match ops with
  | [] => ([], queue)
  | Add task :: ops' => run ops' (addTask task queue)
  | Pull :: ops' =>
      let '(r, queue') := getNextTask queue in
      let '(rs, queue'') := run ops' queue' in
      (r :: rs, queue'')
  end.

Definition added (ops : list op) : list T :=
  omap (λ o, match o with Add task => Some task | Pull => None end) ops.

(** The tasks handed out, dropping the [null] answers. *)
Definition delivered (rs : list (option T)) : list T := omap id rs.

End Queue.

Arguments op : clear implicits.

End TaskQueue.

(** ** managers/TabManager.js *)

Module Tab.
(** An element of [openedTabs]. *)
Record t : Type := mk {
  tabId : JS.value;
  windowId : JS.value;
  url : JS.value;
  openedAt : Z;
  lastUpdated : Z;
}.
#[global] Instance eq_dec : EqDecision t.
Proof. solve_decision. Defined.
End Tab.

Module Window.
(** An element of [openedWindows]. *)
Record t : Type := mk {
  windowId : JS.value;
  tabs : list JS.value;
  openedAt : Z;
}.
#[global] Instance eq_dec : EqDecision t.
Proof. solve_decision. Defined.
End Window.

Module SyncedTab.
(** An element of the array posted to /sync-tabs: [{ tabId, windowId, url }]. *)
Record t : Type := mk {
  tabId : JS.value;
  windowId : JS.value;
  url : JS.value;
}.
#[global] Instance eq_dec : EqDecision t.
Proof. solve_decision. Defined.
End SyncedTab.

Module TabManager.

(** The document written to openedTabs.json. [JSON.stringify] runs inside
    [saveData], so the document is the state at the time of that call. *)
Record document : Type := mkDocument {
  docTabs : list Tab.t;
  docWindows : list Window.t;
}.

#[global] Instance document_eq_dec : EqDecision document.
Proof. solve_decision. Defined.

Record t : Type := mk {
  openedTabs : list Tab.t;
  openedWindows : list Window.t;
  saveInProgress : bool;
  saveQueued : bool;
  (** [fs.writeFile] calls whose callback has not run yet, oldest first. *)
  inFlight : list document;
  (** Ghost: every document handed to [fs.writeFile], oldest first. *)
  written : list document;
  (** Ghost: the number of [scheduleSave] calls made by the mutators. *)
  requested : nat;
}.

Definition with_tabs (tabs : list Tab.t) (m : t) : t :=
  mk tabs (openedWindows m) (saveInProgress m) (saveQueued m)
     (inFlight m) (written m) (requested m).

Definition with_windows (windows : list Window.t) (m : t) : t :=
  mk (openedTabs m) windows (saveInProgress m) (saveQueued m)
     (inFlight m) (written m) (requested m).

Definition with_saveInProgress (b : bool) (m : t) : t :=
  mk (openedTabs m) (openedWindows m) b (saveQueued m)
     (inFlight m) (written m) (requested m).

Definition with_saveQueued (b : bool) (m : t) : t :=
  mk (openedTabs m) (openedWindows m) (saveInProgress m) b
     (inFlight m) (written m) (requested m).

Definition with_inFlight (ws : list document) (m : t) : t :=
  mk (openedTabs m) (openedWindows m) (saveInProgress m) (saveQueued m)
     ws (written m) (requested m).

(** [loadData]: the file content if the file exists and parses, else two
    empty arrays. The constructor clears both flags before loading. *)
Definition new (file : option document) : t :=
  match file with
  | Some data => mk (docTabs data) (docWindows data) false false [] [] 0
  | None => mk [] [] false false [] [] 0
  end.

Definition currentDocument (m : t) : document :=
  mkDocument (openedTabs m) (openedWindows m).

(** The synchronous part of [saveData]: build the document and start the
    write. *)
Definition saveData (m : t) : t :=
  mk (openedTabs m) (openedWindows m) (saveInProgress m) (saveQueued m)
     (inFlight m ++ [currentDocument m]) (written m ++ [currentDocument m])
     (requested m).

Definition scheduleSave_body (m : t) : t :=
  if saveInProgress m then with_saveQueued true m
  else saveData (with_saveInProgress true m).

(** [scheduleSave] as the mutators call it. *)
Definition scheduleSave (m : t) : t :=
  scheduleSave_body
    (mk (openedTabs m) (openedWindows m) (saveInProgress m) (saveQueued m)
        (inFlight m) (written m) (S (requested m))).

(** The callback [saveData] passes to [fs.writeFile], for the write at
    position [k] of [inFlight]. An error is logged only, so the callback
    does the same on success and on failure. [None]: no such write. *)
Definition writeCallback (k : nat) (m : t) : option t :=
  match inFlight m !! k with
  | None => None
  | Some _ =>
      let m1 := with_saveInProgress false (with_inFlight (delete k (inFlight m)) m) in
      Some (if saveQueued m1
            then scheduleSave_body (with_saveQueued false m1)
            else m1)
  end.

Definition associateTabWithWindow (tabId windowId : JS.value) (now : Z) (m : t) : t :=
  match list_find (λ w, Window.windowId w = windowId) (openedWindows m) with
  | Some (i, window) =>
      if JS.includes (Window.tabs window) tabId then m
      else with_windows
             (<[i := Window.mk (Window.windowId window)
                               (Window.tabs window ++ [tabId])
                               (Window.openedAt window)]> (openedWindows m)) m
  | None =>
      with_windows (openedWindows m ++ [Window.mk windowId [tabId] now]) m
  end.

Definition addOrUpdateTab (tabId windowId url : JS.value) (now : Z) (m : t) : t :=
  let m1 :=
    match list_find (λ t, Tab.tabId t = tabId) (openedTabs m) with
    | Some (tabIndex, tab) =>
        with_tabs
          (<[tabIndex := Tab.mk (Tab.tabId tab) windowId url (Tab.openedAt tab) now]>
             (openedTabs m)) m
    | None =>
        with_tabs (openedTabs m ++ [Tab.mk tabId windowId url now now]) m
    end in
  scheduleSave (associateTabWithWindow tabId windowId now m1).

Definition removeClosedTab (tabId : JS.value) (m : t) : t :=
  match list_find (λ t, Tab.tabId t = tabId) (openedTabs m) with
  | Some (tabIndex, removedTab) =>
      let m1 := with_tabs (delete tabIndex (openedTabs m)) m in
      let sameWindow := λ w, Window.windowId w = Tab.windowId removedTab in
      let m2 :=
        match list_find sameWindow (openedWindows m1) with
        | Some (i, window) =>
            let remaining := filter (λ id, id ≠ tabId) (Window.tabs window) in
            let windows :=
              <[i := Window.mk (Window.windowId window) remaining
                               (Window.openedAt window)]> (openedWindows m1) in
            if bool_decide (length remaining = 0) then
              match list_find sameWindow windows with
              | Some (windowIndex, _) => with_windows (delete windowIndex windows) m1
              | None => with_windows windows m1
              end
            else with_windows windows m1
        | None => m1
        end in
      scheduleSave m2
  | None => m
  end.

Definition bulkAddOrUpdateTabs (tabs : list SyncedTab.t) (now : Z) (m : t) : t :=
  foldl (λ m tab,
           addOrUpdateTab (SyncedTab.tabId tab) (SyncedTab.windowId tab)
                          (SyncedTab.url tab) now m) m tabs.

(** The body of the [forEach] in [replaceAllTabs]. *)
Definition replaceAllTabs_each (now : Z) (m : t) (tab : SyncedTab.t) : t :=
  let tabId := SyncedTab.tabId tab in
  let windowId := SyncedTab.windowId tab in
  let m1 :=
    with_tabs (openedTabs m ++ [Tab.mk tabId windowId (SyncedTab.url tab) now now]) m in
  match list_find (λ w, Window.windowId w = windowId) (openedWindows m1) with
  | Some (i, window) =>
      if JS.includes (Window.tabs window) tabId then m1
      else with_windows
             (<[i := Window.mk (Window.windowId window)
                               (Window.tabs window ++ [tabId])
                               (Window.openedAt window)]> (openedWindows m1)) m1
  | None =>
      with_windows (openedWindows m1 ++ [Window.mk windowId [tabId] now]) m1
  end.

(** [replaceAllTabs] on an array of objects, the input its documentation
    names ([Array of { tabId, windowId, url }]): the call returns. On an
    array with a [null] element it throws; [replaceAllTabs_unchecked]
    below covers every array. *)
Definition replaceAllTabs (tabs : list SyncedTab.t) (now : Z) (m : t) : t :=
  let cleared := with_windows [] (with_tabs [] m) in
  scheduleSave (foldl (replaceAllTabs_each now) cleared tabs).

(** The message of the TypeError thrown when the parameter pattern
    [{ tabId, windowId, url }] is matched against [null] (the wording is
    V8's; nothing below depends on it). *)
Definition nullElementMessage : string :=
  "Cannot destructure property 'tabId' of 'object null' as it is null.".

(** The [forEach] of [replaceAllTabs] over an array whose elements were not
    checked: an element is [null] ([None]) or a value whose properties can
    be read. On [null] the callback throws before it has done anything,
    which ends the loop and the call; the elements before it have been
    added. Returns the store and whether the loop came to its end. *)
Fixpoint replaceAllTabs_forEach (now : Z) (tabs : list (option SyncedTab.t)) (m : t)
  : t * bool :=
  match tabs with
  | [] => (m, true)
  | None :: _ => (m, false)
  | Some tab :: rest => replaceAllTabs_forEach now rest (replaceAllTabs_each now m tab)
  end.

(** [replaceAllTabs] as /sync-tabs calls it, on any array: both arrays are
    cleared, then the loop runs; [scheduleSave] is reached only if the loop
    did not throw. Returns the store and whether the call returned
    ([false]: the TypeError left the function). On an array without
    [null] this is [replaceAllTabs] (see [replaceAllTabs_unchecked_returns]). *)
Definition replaceAllTabs_unchecked (tabs : list (option SyncedTab.t)) (now : Z) (m : t)
  : t * bool :=
  let cleared := with_windows [] (with_tabs [] m) in
  let '(m1, finished) := replaceAllTabs_forEach now tabs cleared in
  if finished then (scheduleSave m1, true) else (m1, false).

Definition getAllOpenedTabs (m : t) : list Tab.t := openedTabs m.

(** [clearAll] calls [saveData] directly, not [scheduleSave]. index.js
    never calls it. *)
Definition clearAll (m : t) : t :=
  saveData (with_windows [] (with_tabs [] m)).

(** What [associateTabWithWindow] and the body of the loop in
    [replaceAllTabs] both do to the window array (see
    [associateTabWithWindow_attach] and [replaceAllTabs_each_attach]). *)
Definition attach (tabId windowId : JS.value) (now : Z) (windows : list Window.t)
  : list Window.t :=
  match list_find (λ w, Window.windowId w = windowId) windows with
  | Some (i, window) =>
      if JS.includes (Window.tabs window) tabId then windows
      else <[i := Window.mk (Window.windowId window)
                            (Window.tabs window ++ [tabId])
                            (Window.openedAt window)]> windows
  | None => windows ++ [Window.mk windowId [tabId] now]
  end.

(** The tab record [replaceAllTabs] builds from an element of its input. *)
Definition trackedTabOf (now : Z) (tab : SyncedTab.t) : Tab.t :=
  Tab.mk (SyncedTab.tabId tab) (SyncedTab.windowId tab) (SyncedTab.url tab) now now.

(** *** The membership invariant of the data model *)

(** Every tab id in a window's tab list belongs to a tracked tab of that
    window. *)
Definition windows_list_tracked_tabs (m : t) : Prop :=
  Forall (λ w,
    Forall (λ id,
      Exists (λ tab, Tab.tabId tab = id ∧ Tab.windowId tab = Window.windowId w)
             (openedTabs m))
      (Window.tabs w))
    (openedWindows m).

(** Every tracked tab is listed by a window record of its window id. *)
Definition tabs_listed_by_window (m : t) : Prop :=
  Forall (λ tab,
    Exists (λ w, Window.windowId w = Tab.windowId tab ∧ Tab.tabId tab ∈ Window.tabs w)
           (openedWindows m))
    (openedTabs m).

Definition no_empty_window (m : t) : Prop :=
  Forall (λ w, Window.tabs w ≠ []) (openedWindows m).

Definition membership_invariant (m : t) : Prop :=
  windows_list_tracked_tabs m ∧ tabs_listed_by_window m ∧ no_empty_window m.

#[global] Instance membership_invariant_dec m : Decision (membership_invariant m).
Proof.
  unfold membership_invariant, windows_list_tracked_tabs,
    tabs_listed_by_window, no_empty_window.
  apply _.
Defined.

(** The window array groups the pairs (tab id, window id) of [pairs] by
    window: one record per window id that occurs, listing exactly the tab
    ids paired with it, each once. *)
Definition grouped (pairs : list (JS.value * JS.value)) (windows : list Window.t) : Prop :=
  NoDup (Window.windowId <$> windows)
  ∧ (∀ wid, wid ∈ Window.windowId <$> windows ↔ wid ∈ pairs.*2)
  ∧ (∀ w, w ∈ windows →
       ∀ id, id ∈ Window.tabs w ↔ (id, Window.windowId w) ∈ pairs)
  ∧ Forall (λ w, NoDup (Window.tabs w)) windows.

Definition pairOfTab (tab : Tab.t) : JS.value * JS.value :=
  (Tab.tabId tab, Tab.windowId tab).

Definition pairOfSyncedTab (tab : SyncedTab.t) : JS.value * JS.value :=
  (SyncedTab.tabId tab, SyncedTab.windowId tab).

(** The store is consistent when tab ids are keys of the tab array and the
    window array groups the tracked tabs by window. This implies the
    membership invariant (see [consistent_membership_invariant]). *)
Definition consistent (m : t) : Prop :=
  NoDup (Tab.tabId <$> openedTabs m)
  ∧ grouped (pairOfTab <$> openedTabs m) (openedWindows m).

(** The operations of the store that the dispatch service reaches, and
    the completion of a write. A full replacement is of any array, as
    /sync-tabs passes it on. *)
Inductive event : Type :=
  | Upsert (tabId windowId url : JS.value) (now : Z)
  | Remove (tabId : JS.value)
  | ReplaceAll (tabs : list (option SyncedTab.t)) (now : Z)
  | WriteDone (k : nat).

Definition step (e : event) (m : t) : option t :=
  match e with
  | Upsert tabId windowId url now => Some (addOrUpdateTab tabId windowId url now m)
  | Remove tabId => Some (removeClosedTab tabId m)
  | ReplaceAll tabs now => Some (replaceAllTabs_unchecked tabs now m).1
  | WriteDone k => writeCallback k m
  end.

Fixpoint run (es : list event) (m : t) : option t :=
  match es with
  | [] => Some m
  | e :: es' =>
      match step e m with
      | Some m' => run es' m'
      | None => None
      end
  end.

Definition is_mutator (e : event) : bool :=
  match e with WriteDone _ => false | _ => true end.

(** The discipline of the two flags: while [saveInProgress] is set exactly
    one write is in flight; while it is clear none is, and none is queued. *)
Definition single_flight (m : t) : Prop :=
  if saveInProgress m then length (inFlight m) = 1
  else inFlight m = [] ∧ saveQueued m = false.

(** The part of the state that [scheduleSave] and the write callback work
    on. *)
Definition persistence (m : t) : bool * bool * list document * list document * nat :=
  (saveInProgress m, saveQueued m, inFlight m, written m, requested m).

(** The writes started so far account for the state: unless a save is
    queued, the document of the latest write is the current one, or
    nothing has been written and the arrays are those loaded from [file]. *)
Definition mirrored (file : option document) (m : t) : Prop :=
  saveQueued m = true
  ∨ (written m = [] ∧ currentDocument m = currentDocument (new file))
  ∨ last (written m) = Some (currentDocument m).

(** Ghost: whether, after the events [es], a full replacement that threw
    may have left the arrays changed with no save asked for since: [true]
    from such a call until the next upsert or the next full replacement
    that returns. [dirty] is the value before [es]. *)
Fixpoint unsaved (dirty : bool) (es : list event) : bool :=
  match es with
  | [] => dirty
  | e :: es' =>
      unsaved (match e with
               | ReplaceAll tabs _ => bool_decide (None ∈ tabs)
               | Upsert _ _ _ _ => false
               | Remove _ | WriteDone _ => dirty
               end) es'
  end.

(** Every write, and the queued save, answers a request of its own. *)
Definition accounted (m : t) : Prop :=
  length (written m) + (if saveQueued m then 1 else 0) ≤ requested m.

End TabManager.

(** ** index.js *)

Module Task.
(** A task object as the handlers build it. /switch-tab and /execute-js
    leave some properties out; reading them gives [undefined]. *)
Record t : Type := mk {
  taskId : JS.value;
  command : JS.value;
  tabId : JS.value;
  url : JS.value;
  jsFunction : JS.value;
}.
#[global] Instance eq_dec : EqDecision t.
Proof. solve_decision. Defined.
End Task.

Module Server.

(** How a promise of [waitForTaskCompletion] is settled: [resolve(data)] or
    [reject(new Error(message))]. *)
Inductive outcome : Type :=
  | Resolved (data : JS.json)
  | Rejected (message : string).

(** A value of the [pendingTasks] map: [{ resolve, reject, timeout }]. The
    two resolving functions belong to one promise. *)
Record pending : Type := mkPending {
  promise : nat;
  timeout : nat;
}.

(** An armed timer of [setTimeout]: when it is due, and the [taskId] its
    callback closes over. *)
Record timer : Type := mkTimer {
  due : Z;
  forTask : JS.value;
}.

Inductive body : Type :=
  | Failure (error : string)                       (* { success: false, error } *)
  | Completed (task : Task.t) (result : JS.json)   (* { success: true, task, result } *)
  | NextTask (task : Task.t)                       (* the task object *)
  | EmptyObject                                    (* {} *)
  | Success                                        (* { success: true } *)
  | Tabs (tabs : list Tab.t)                       (* { success: true, tabs } *)
  | Synced (syncedTabs : list (option SyncedTab.t)). (* { success: true, syncedTabs } *)

Record response : Type := mkResponse {
  status : Z;
  payload : body;
}.

#[global] Instance body_eq_dec : EqDecision body.
Proof. solve_decision. Defined.

#[global] Instance response_eq_dec : EqDecision response.
Proof. solve_decision. Defined.

Record t : Type := mk {
  taskQueue : list Task.t;
  tabManager : TabManager.t;
  pendingTasks : gmap JS.value pending;
  (** Timers set and neither fired nor cleared. *)
  timers : gmap nat timer;
  nextTimer : nat;
  nextPromise : nat;
  (** Every call of a promise's [resolve] or [reject], latest first. *)
  settled : list (nat * outcome);
  (** [Date.now()]. *)
  now : Z;
}.

Definition with_taskQueue (q : list Task.t) (s : t) : t :=
  mk q (tabManager s) (pendingTasks s) (timers s) (nextTimer s)
     (nextPromise s) (settled s) (now s).

Definition with_tabManager (m : TabManager.t) (s : t) : t :=
  mk (taskQueue s) m (pendingTasks s) (timers s) (nextTimer s)
     (nextPromise s) (settled s) (now s).

Definition with_pendingTasks (p : gmap JS.value pending) (s : t) : t :=
  mk (taskQueue s) (tabManager s) p (timers s) (nextTimer s)
     (nextPromise s) (settled s) (now s).

Definition with_timers (ts : gmap nat timer) (s : t) : t :=
  mk (taskQueue s) (tabManager s) (pendingTasks s) ts (nextTimer s)
     (nextPromise s) (settled s) (now s).

Definition with_now (n : Z) (s : t) : t :=
  mk (taskQueue s) (tabManager s) (pendingTasks s) (timers s) (nextTimer s)
     (nextPromise s) (settled s) n.

(** The server after start-up: an empty queue, an empty [pendingTasks] map
    and a [TabManager] that has loaded its file. *)
Definition start (file : option TabManager.document) (t0 : Z) : t :=
  mk TaskQueue.new (TabManager.new file) ∅ ∅ 0 0 [] t0.

(** A call of [resolve] or [reject] of promise [p]. *)
Definition settle (p : nat) (o : outcome) (s : t) : t :=
  mk (taskQueue s) (tabManager s) (pendingTasks s) (timers s) (nextTimer s)
     (nextPromise s) ((p, o) :: settled s) (now s).

Definition clearTimeout (handle : nat) (s : t) : t :=
  with_timers (delete handle (timers s)) s.

Definition defaultTimeoutMs : Z := 30000.

(** [waitForTaskCompletion(taskId, timeoutMs)]: the promise executor runs
    at once; it stores the resolving functions under [taskId], arms the
    timer and attaches the handle. Returns the new promise. *)
Definition waitForTaskCompletion (taskId : JS.value) (timeoutMs : Z) (s : t) : nat * t :=
  let p := nextPromise s in
  let handle := nextTimer s in
  (p,
   mk (taskQueue s) (tabManager s)
      (<[taskId := mkPending p handle]> (pendingTasks s))
      (<[handle := mkTimer (now s + timeoutMs) taskId]> (timers s))
      (S handle) (S p) (settled s) (now s)).

(** The callback given to [setTimeout]. *)
Definition timeoutCallback (taskId : JS.value) (s : t) : t :=
  match pendingTasks s !! taskId with
  | Some entry =>
      with_pendingTasks (delete taskId (pendingTasks s))
        (settle (promise entry) (Rejected "Task timed out.") s)
  | None => s
  end.

(** The timer [handle] fires: possible only once it is due; the timer is
    spent and its callback runs. *)
Definition timerFires (handle : nat) (s : t) : option t :=
  match timers s !! handle with
  | Some tm =>
      if bool_decide (due tm ≤ now s)%Z
      then Some (timeoutCallback (forTask tm) (clearTimeout handle s))
      else None
  | None => None
  end.

(** What the handler suspended at [await waitForTaskCompletion(...)] sends
    once its promise is settled. *)
Definition completionResponse (task : Task.t) (o : outcome) : response :=
  match o with
  | Resolved result => mkResponse 200 (Completed task result)
  | Rejected message => mkResponse 500 (Failure message)
  end.

Definition validCommands : list JS.value :=
  [JS.Str "open-tab"; JS.Str "close-tab"; JS.Str "find-tab"; JS.Str "execute-js"].

(** The task object /add-task builds. *)
Definition addTask_task (taskId command url jsFunction tabId : JS.value) (s : t) : Task.t :=
  Task.mk (JS.or taskId (JS.Str ("task-" +:+ pretty (now s))))
          command (JS.or tabId JS.Null) (JS.or url JS.Null)
          (JS.or jsFunction JS.Null).

(** POST /add-task. [None]: the handler is suspended on its promise. *)
Definition add_task (taskId command url jsFunction tabId : JS.value) (s : t)
  : t * option response :=
  if negb (JS.includes validCommands command) then
    (s, Some (mkResponse 400 (Failure ("Invalid command: " +:+ JS.to_string command))))
  else
    let task := addTask_task taskId command url jsFunction tabId s in
    let s1 := with_taskQueue (TaskQueue.addTask task (taskQueue s)) s in
    ((waitForTaskCompletion (Task.taskId task) defaultTimeoutMs s1).2, None).

(** GET /get-task. A task object is truthy, so [{}] is sent exactly when
    [getNextTask] returned [null]. *)
Definition get_task (s : t) : t * response :=
  let '(nextTask, q) := TaskQueue.getNextTask (taskQueue s) in
  match nextTask with
  | Some task => (with_taskQueue q s, mkResponse 200 (NextTask task))
  | None => (with_taskQueue q s, mkResponse 200 EmptyObject)
  end.

(** The test [data && data.tabId && data.windowId && data.url]. *)
Definition carriesTab (data : JS.json) : bool :=
  JS.json_truthy data && JS.truthy (JS.get data "tabId")
  && JS.truthy (JS.get data "windowId") && JS.truthy (JS.get data "url").

(** The test [data && data.closedTabId]. *)
Definition carriesClosedTab (data : JS.json) : bool :=
  JS.json_truthy data && JS.truthy (JS.get data "closedTabId").

(** The two store updates of /report-result, in the order of the source. *)
Definition reconcile (data : JS.json) (s : t) : t :=
  let s1 :=
    if carriesTab data then
      with_tabManager
        (TabManager.addOrUpdateTab (JS.get data "tabId") (JS.get data "windowId")
           (JS.get data "url") (now s) (tabManager s)) s
    else s in
  if carriesClosedTab data then
    with_tabManager
      (TabManager.removeClosedTab (JS.get data "closedTabId") (tabManager s1)) s1
  else s1.

(** POST /report-result. *)
Definition report_result (taskId : JS.value) (data : JS.json) (s : t) : t * response :=
  let s1 := reconcile data s in
  let s2 :=
    match pendingTasks s1 !! taskId with
    | Some entry =>
        with_pendingTasks (delete taskId (pendingTasks s1))
          (settle (promise entry) (Resolved data) (clearTimeout (timeout entry) s1))
    | None => s1
    end in
  (s2, mkResponse 200 Success).

(** GET /opened-tabs. *)
Definition opened_tabs (s : t) : t * response :=
  (s, mkResponse 200 (Tabs (TabManager.getAllOpenedTabs (tabManager s)))).

(** The message of [new Error(errorMsg)]: empty when the argument is
    [undefined]. *)
Definition errorMessage (errorMsg : JS.value) : string :=
  match errorMsg with
  | JS.Undefined => ""
  | v => JS.to_string v
  end.

(** POST /report-result/error. *)
Definition report_error (taskId errorMsg : JS.value) (s : t) : t * response :=
  let s1 :=
    match pendingTasks s !! taskId with
    | Some entry =>
        with_pendingTasks (delete taskId (pendingTasks s))
          (settle (promise entry) (Rejected (errorMessage errorMsg))
             (clearTimeout (timeout entry) s))
    | None => s
    end in
  (s1, mkResponse 200 Success).

(** POST /sync-tabs. [None]: the [tabs] property is not an array. The
    elements of an array are not checked: when [replaceAllTabs] throws on a
    [null] element, the [catch] of the handler answers with status 500 and
    the store stays as the throw left it. *)
Definition sync_tabs (tabs : option (list (option SyncedTab.t))) (s : t) : t * response :=
  match tabs with
  | None => (s, mkResponse 400 (Failure "Invalid tabs format. Expected an array."))
  | Some tabs =>
      let '(m, returned) :=
        TabManager.replaceAllTabs_unchecked tabs (now s) (tabManager s) in
      (with_tabManager m s,
       if returned then mkResponse 200 (Synced tabs)
       else mkResponse 500 (Failure TabManager.nullElementMessage))
  end.

Definition isSwitchTabFor (tabId : JS.value) (task : Task.t) : Prop :=
  Task.command task = JS.Str "switch-tab" ∧ Task.tabId task = tabId.

#[global] Instance isSwitchTabFor_dec tabId task : Decision (isSwitchTabFor tabId task).
Proof. unfold isSwitchTabFor. apply _. Defined.

(** POST /switch-tab. *)
Definition switch_tab (tabId : JS.value) (s : t) : t * option response :=
  if negb (JS.is_number tabId) then
    (s, Some (mkResponse 400
                (Failure "Invalid or missing 'tabId'. It should be a number.")))
  else
    match list_find (isSwitchTabFor tabId) (taskQueue s) with
    | Some _ =>
        (s, Some (mkResponse 409
                    (Failure ("A switch-tab task for tabId " +:+ JS.to_string tabId
                              +:+ " is already pending."))))
    | None =>
        let newTaskId :=
          JS.Str ("switch-tab-" +:+ JS.to_string tabId +:+ "-" +:+ pretty (now s)) in
        let task := Task.mk newTaskId (JS.Str "switch-tab") tabId JS.Undefined JS.Undefined in
        let s1 := with_taskQueue (TaskQueue.addTask task (taskQueue s)) s in
        ((waitForTaskCompletion newTaskId defaultTimeoutMs s1).2, None)
    end.

(** POST /execute-js. *)
Definition execute_js (tabId jsFunction : JS.value) (s : t) : t * option response :=
  if negb (JS.is_number tabId) then
    (s, Some (mkResponse 400
                (Failure "Invalid or missing 'tabId'. It should be a number.")))
  else if negb (JS.is_string jsFunction) then
    (s, Some (mkResponse 400
                (Failure "Invalid or missing 'jsFunction'. It should be a string.")))
  else
    let newTaskId :=
      JS.Str ("execute-js-" +:+ JS.to_string tabId +:+ "-" +:+ pretty (now s)) in
    let task := Task.mk newTaskId (JS.Str "execute-js") tabId JS.Undefined jsFunction in
    let s1 := with_taskQueue (TaskQueue.addTask task (taskQueue s)) s in
    ((waitForTaskCompletion newTaskId defaultTimeoutMs s1).2, None).

(** The callback of a file write of the tab manager. *)
Definition writeDone (k : nat) (s : t) : option t :=
  match TabManager.writeCallback k (tabManager s) with
  | Some m => Some (with_tabManager m s)
  | None => None
  end.

(** *** The event loop *)

Inductive request : Type :=
  | AddTask (taskId command url jsFunction tabId : JS.value)
  | GetTask
  | ReportResult (taskId : JS.value) (data : JS.json)
  | OpenedTabs
  | ReportError (taskId errorMsg : JS.value)
  | SyncTabs (tabs : option (list (option SyncedTab.t)))
  | SwitchTab (tabId : JS.value)
  | ExecuteJs (tabId jsFunction : JS.value).

#[global] Instance request_eq_dec : EqDecision request.
Proof. solve_decision. Defined.

Definition handle (r : request) (s : t) : t * option response :=
  match r with
  | AddTask taskId command url jsFunction tabId =>
      add_task taskId command url jsFunction tabId s
  | GetTask => let '(s', r) := get_task s in (s', Some r)
  | ReportResult taskId data => let '(s', r) := report_result taskId data s in (s', Some r)
  | OpenedTabs => let '(s', r) := opened_tabs s in (s', Some r)
  | ReportError taskId errorMsg =>
      let '(s', r) := report_error taskId errorMsg s in (s', Some r)
  | SyncTabs tabs => let '(s', r) := sync_tabs tabs s in (s', Some r)
  | SwitchTab tabId => switch_tab tabId s
  | ExecuteJs tabId jsFunction => execute_js tabId jsFunction s
  end.

(** One turn of the event loop: a request is handled, a due timer fires, a
    file write completes, or time passes. *)
Inductive event : Type :=
  | Request (r : request)
  | TimerFires (handle : nat)
  | WriteDone (k : nat)
  | Tick (d : Z).

#[global] Instance event_eq_dec : EqDecision event.
Proof. solve_decision. Defined.

Definition step (e : event) (s : t) : option t :=
  match e with
  | Request r => Some (handle r s).1
  | TimerFires h => timerFires h s
  | WriteDone k => writeDone k s
  | Tick d => if bool_decide (0 ≤ d)%Z then Some (with_now (now s + d) s) else None
  end.

Fixpoint run (es : list event) (s : t) : option t :=
  match es with
  | [] => Some s
  | e :: es' =>
      match step e s with
      | Some s' => run es' s'
      | None => None
      end
  end.

(** The event registers a wait under [taskId]: it is a submission that is
    accepted and whose task id, supplied or generated at the clock of [s],
    is [taskId]. *)
Definition registers (taskId : JS.value) (e : event) (s : t) : Prop :=
  match e with
  | Request (AddTask tid command url jsFunction tabId) =>
      JS.includes validCommands command = true ∧
      Task.taskId (addTask_task tid command url jsFunction tabId s) = taskId
  | Request (SwitchTab tabId) =>
      (handle (SwitchTab tabId) s).2 = None ∧
      JS.Str ("switch-tab-" +:+ JS.to_string tabId +:+ "-" +:+ pretty (now s)) = taskId
  | Request (ExecuteJs tabId jsFunction) =>
      (handle (ExecuteJs tabId jsFunction) s).2 = None ∧
      JS.Str ("execute-js-" +:+ JS.to_string tabId +:+ "-" +:+ pretty (now s)) = taskId
  | _ => False
  end.

(** The event is a report, of success or of failure, on [taskId]. *)
Definition reports (taskId : JS.value) (e : event) : Prop :=
  match e with
  | Request (ReportResult tid _) => tid = taskId
  | Request (ReportError tid _) => tid = taskId
  | _ => False
  end.

#[global] Instance registers_dec taskId e s : Decision (registers taskId e s).
Proof. destruct e as [[]| | |]; simpl; apply _. Defined.

#[global] Instance reports_dec taskId e : Decision (reports taskId e).
Proof. destruct e as [[]| | |]; simpl; apply _. Defined.

(** The part of the state the rendezvous works on. *)
Definition bookkeeping (s : t)
  : gmap JS.value pending * gmap nat timer * nat * nat * list (nat * outcome) :=
  (pendingTasks s, timers s, nextTimer s, nextPromise s, settled s).

(** What holds of the rendezvous table in every state the server reaches:
    promises and timer handles are allocated in increasing order; two
    entries never share a promise; a promise with an entry has not been
    settled; no promise has been settled twice; and the timer whose handle
    an entry holds, while armed, is the timer of that entry's key. *)
Record well_formed (s : t) : Prop := {
  wf_entry_bounds : ∀ k e, pendingTasks s !! k = Some e →
    promise e < nextPromise s ∧ timeout e < nextTimer s;
  wf_entry_promises : ∀ k1 k2 e1 e2,
    pendingTasks s !! k1 = Some e1 → pendingTasks s !! k2 = Some e2 →
    promise e1 = promise e2 → k1 = k2;
  wf_entry_unsettled : ∀ k e, pendingTasks s !! k = Some e →
    promise e ∉ (settled s).*1;
  wf_settled_bound : ∀ p, p ∈ (settled s).*1 → p < nextPromise s;
  wf_settled_once : NoDup (settled s).*1;
  wf_timer_bound : ∀ h tm, timers s !! h = Some tm → h < nextTimer s;
  wf_entry_timer : ∀ k e tm, pendingTasks s !! k = Some e →
    timers s !! timeout e = Some tm → forTask tm = k;
}.

(** No armed timer names [taskId]: the id is not left over from an
    earlier wait. *)
Definition unused (taskId : JS.value) (s : t) : Prop :=
  ∀ h tm, timers s !! h = Some tm → forTask tm ≠ taskId.

(** Along the run of [es] from [s], no request reports on [taskId], no
    request registers a wait under [taskId], and the timer [h] does not
    fire. *)
Fixpoint undisturbed (taskId : JS.value) (h : nat) (es : list event) (s : t) : Prop :=
  match es with
  | [] => True
  | e :: es' =>
      ¬ reports taskId e ∧ ¬ registers taskId e s ∧ e ≠ TimerFires h
      ∧ match step e s with
        | Some s' => undisturbed taskId h es' s'
        | None => True
        end
  end.

#[global] Instance undisturbed_dec taskId h es : ∀ s, Decision (undisturbed taskId h es s).
Proof.
  induction es as [|e es IH]; intros s; simpl; [apply _|].
  destruct (step e s); apply _.
Defined.

(** The wait registered under [taskId] with promise [p] and timer [h], due
    at [d], is still pending: its entry is in the table, its timer is
    armed, and no other armed timer names [taskId]. *)
Definition awaiting (taskId : JS.value) (p h : nat) (d : Z) (s : t) : Prop :=
  pendingTasks s !! taskId = Some (mkPending p h)
  ∧ timers s !! h = Some (mkTimer d taskId)
  ∧ ∀ h' tm, timers s !! h' = Some tm → forTask tm = taskId → h' = h.

(** The promise [p] has been handed out, no entry of the table holds it
    and it has not been settled. *)
Definition orphaned (p : nat) (s : t) : Prop :=
  p < nextPromise s
  ∧ (∀ k e, pendingTasks s !! k = Some e → promise e ≠ p)
  ∧ p ∉ (settled s).*1.

(** Every entry of the table has its timer armed, for its own key, and due
    at most the default timeout from now. *)
Definition entries_armed (s : t) : Prop :=
  ∀ k e, pendingTasks s !! k = Some e →
    ∃ tm, timers s !! timeout e = Some tm ∧ forTask tm = k
          ∧ (due tm ≤ now s + defaultTimeoutMs)%Z.

(** The requests that submit a task. *)
Definition is_submission (r : request) : bool :=
  match r with
  | AddTask _ _ _ _ _ | SwitchTab _ | ExecuteJs _ _ => true
  | _ => false
  end.

End Server.

(** ** background.js: the debounce helper *)

Module Debounce.

Section Debounce.
(** The argument list of the debounced function. *)
Context {A : Type}.

(** The closure [debounce] returns, with the timers it has set. Handle [n]
    stands for the timer id [n + 1] of the browser: ids are positive, so
    [if (timerId)] tests whether a handle is stored. *)
Record t : Type := mk {
  timerId : option nat;
  (** Timers set by the closure and neither fired nor cleared: when each
      is due and the arguments its callback closes over. *)
  timers : gmap nat (Z * A);
  nextHandle : nat;
  (** Every [func.apply(null, args)], oldest first. *)
  applied : list A;
  now : Z;
}.

Definition init (t0 : Z) : t := mk None ∅ 0 [] t0.

(** A call of the debounced function. *)
Definition call (delay : Z) (args : A) (d : t) : t :=
  let remaining :=
    match timerId d with
    | Some h => delete h (timers d)
    | None => timers d
    end in
  mk (Some (nextHandle d))
     (<[nextHandle d := ((now d + delay)%Z, args)]> remaining)
     (S (nextHandle d)) (applied d) (now d).

(** The timer [h] fires: possible only once it is due; its callback applies
    the function and resets [timerId]. *)
Definition fires (h : nat) (d : t) : option t :=
  match timers d !! h with
  | Some (due, args) =>
      if bool_decide (due ≤ now d)%Z
      then Some (mk None (delete h (timers d)) (nextHandle d)
                    (applied d ++ [args]) (now d))
      else None
  | None => None
  end.

Inductive event : Type :=
  | Call (args : A)
  | Fires (h : nat)
  | Tick (dt : Z).

Definition step (delay : Z) (e : event) (d : t) : option t :=
  match e with
  | Call args => Some (call delay args d)
  | Fires h => fires h d
  | Tick dt =>
      if bool_decide (0 ≤ dt)%Z
      then Some (mk (timerId d) (timers d) (nextHandle d) (applied d) (now d + dt)%Z)
      else None
  end.

Fixpoint run (delay : Z) (es : list event) (d : t) : option t :=
  match es with
  | [] => Some d
  | e :: es' =>
      match step delay e d with
      | Some d' => run delay es' d'
      | None => None
      end
  end.

(** The arguments of the calls among [es], in order. *)
Definition calls (es : list event) : list A :=
  omap (λ e, match e with Call args => Some args | _ => None end) es.

Definition is_fires (e : event) : bool :=
  match e with Fires _ => true | _ => false end.

(** The only timer that can be armed is the one [timerId] holds. *)
Definition tidy (d : t) : Prop :=
  (∀ h x, timers d !! h = Some x → timerId d = Some h)
  ∧ (∀ h, timerId d = Some h → h < nextHandle d).

(** The arguments of the timer [timerId] holds, if it is armed. *)
Definition waiting (d : t) : list A :=
  match timerId d with
  | Some h => from_option (λ x, [x.2]) [] (timers d !! h)
  | None => []
  end.

End Debounce.

Arguments t : clear implicits.
Arguments event : clear implicits.

End Debounce.

(** ** background.js: executing a task *)

Module ChromeTab.
(** The properties of a [chrome.tabs.Tab] that the extension reads. *)
Record t : Type := mk {
  id : JS.value;
  windowId : JS.value;
  url : JS.value;
}.
End ChromeTab.

Module Extension.

(** What a [catch] receives: an [Error] object, or the string a promise was
    rejected with ([reject(chrome.runtime.lastError.message)],
    [reject("No tabId ...")]). *)
Inductive thrown : Type :=
  | ErrorObject (message : string)
  | Rejection (reason : string).

(** [error.message]: a string primitive has no such property. *)
Definition message (e : thrown) : JS.value :=
  match e with
  | ErrorObject m => JS.Str m
  | Rejection _ => JS.Undefined
  end.

(** The answers of the browser to the calls one task makes. For the
    callback interfaces an answer is the message of
    [chrome.runtime.lastError], if set; for the promise interfaces it is
    what the promise is rejected with. [executeScript] stands for
    [new Function(jsFunction)] followed by
    [chrome.scripting.executeScript] and answers the [result] of the first
    injection result; [tabs_get] answers whether a tab object came back. *)
Record browser : Type := mkBrowser {
  tabs_create : JS.value → string + ChromeTab.t;
  windows_get : JS.value → option string;
  tabs_remove : JS.value → option string;
  executeScript : JS.value → JS.value → thrown + JS.value;
  tabs_get : JS.value → thrown + bool;
  tabs_update : JS.value → option thrown;
}.

Definition openTab (url : JS.value) (b : browser) : thrown + JS.json :=
  match tabs_create b url with
  | inl lastError => inl (Rejection lastError)
  | inr tab =>
      match windows_get b (ChromeTab.windowId tab) with
      | Some lastError => inl (Rejection lastError)
      | None =>
          inr (JS.Object (<["tabId" := ChromeTab.id tab]>
                            (<["windowId" := ChromeTab.windowId tab]>
                               (<["url" := ChromeTab.url tab]> ∅))))
      end
  end.

Definition closeTab (tabId : JS.value) (b : browser) : thrown + JS.json :=
  if negb (JS.truthy tabId) then
    inl (Rejection "No tabId provided to close-tab command")
  else
    match tabs_remove b tabId with
    | Some lastError => inl (Rejection lastError)
    | None => inr (JS.Object (<["closedTabId" := tabId]> ∅))
    end.

Definition executeJSInTab (tabId jsFunction : JS.value) (b : browser)
  : thrown + JS.json :=
  if negb (JS.truthy tabId) then
    inl (ErrorObject "No tabId provided to execute-js command")
  else if negb (JS.truthy jsFunction) then
    inl (ErrorObject "No jsFunction provided for execution")
  else
    match executeScript b tabId jsFunction with
    | inl error =>
        inl (ErrorObject ("Failed to execute JS in tab " +:+ JS.to_string tabId
                          +:+ ": " +:+ JS.to_string (message error)))
    | inr result => inr (JS.Object (<["result" := result]> ∅))
    end.

Definition switchTab (tabId : JS.value) (b : browser) : thrown + JS.json :=
  if negb (JS.truthy tabId) then
    inl (ErrorObject "No tabId provided to switch-tab command")
  else
    let failed error :=
      ErrorObject ("Failed to switch to tab " +:+ JS.to_string tabId
                   +:+ ": " +:+ JS.to_string (message error)) in
    match tabs_get b tabId with
    | inl error => inl (failed error)
    | inr false =>
        inl (failed (ErrorObject ("Tab with ID " +:+ JS.to_string tabId
                                  +:+ " does not exist.")))
    | inr true =>
        match tabs_update b tabId with
        | Some error => inl (failed error)
        | None => inr (JS.Object (<["switchedToTabId" := tabId]> ∅))
        end
    end.

(** What [executeTask] ends with: a call of [debouncedReportResult] or a
    call of [reportError]. *)
Inductive action : Type :=
  | ReportResult (taskId : JS.value) (data : JS.json)
  | ReportError (taskId : JS.value) (errorMessage : JS.value).

Definition executeTask (task : Task.t) (b : browser) : action :=
  let command := Task.command task in
  let result :=
    if decide (command = JS.Str "open-tab") then openTab (Task.url task) b
    else if decide (command = JS.Str "close-tab") then closeTab (Task.tabId task) b
    else if decide (command = JS.Str "execute-js") then
      executeJSInTab (Task.tabId task) (Task.jsFunction task) b
    else if decide (command = JS.Str "switch-tab") then switchTab (Task.tabId task) b
    else inl (ErrorObject ("Unknown command: " +:+ JS.to_string command)) in
  match result with
  | inr data => ReportResult (Task.taskId task) data
  | inl error => ReportError (Task.taskId task) (message error)
  end.

(** [JSON.stringify] followed by the server's [JSON.parse]: properties
    whose value is [undefined] are left out. *)
Definition overTheWire (d : JS.json) : JS.json :=
  match d with
  | JS.Prim v => JS.Prim v
  | JS.Object fields => JS.Object (filter (λ kv, kv.2 ≠ JS.Undefined) fields)
  end.

(** The request [reportResult] or [reportError] posts. *)
Definition toRequest (a : action) : Server.request :=
  match a with
  | ReportResult taskId data => Server.ReportResult taskId (overTheWire data)
  | ReportError taskId errorMessage => Server.ReportError taskId errorMessage
  end.

(** [fetchTask], given the response of GET /get-task: nothing is done
    unless the status is one of 200..299 and the body has a truthy
    [taskId]. *)
Definition fetchTask (response : Server.response) (b : browser) : option action :=
  if negb (bool_decide (200 ≤ Server.status response < 300)%Z) then None
  else
    match Server.payload response with
    | Server.NextTask task =>
        if JS.truthy (Task.taskId task) then Some (executeTask task b) else None
    | _ => None
    end.

(** [syncOpenedTabs], given the tabs [chrome.tabs.query({})] answers with:
    the request it posts. *)
Definition syncOpenedTabs (tabs : list ChromeTab.t) : Server.request :=
  Server.SyncTabs
    (Some ((λ tab, Some (SyncedTab.mk (ChromeTab.id tab) (ChromeTab.windowId tab)
                           (ChromeTab.url tab))) <$> tabs)).

(** [debouncedReportResult = debounce(reportResult, 500)]: its delay, and
    the requests the applications of [reportResult] have posted. Its
    arguments are the pair of a task id and the data. *)
Definition reportDelay : Z := 500.

Definition posted (d : Debounce.t (JS.value * JS.json)) : list Server.request :=
  (λ args, toRequest (ReportResult args.1 args.2)) <$> Debounce.applied d.

End Extension.


(** * Properties *)

(** ** Task queue: first in, first out *)

Section QueueFacts.
Context {T : Type}.
Implicit Types (queue : list T) (ops : list (TaskQueue.op T)).

Lemma getNextTask_empty : TaskQueue.getNextTask (@nil T) = (None, []).
Proof. reflexivity. Qed.

Lemma getNextTask_addTask_nonempty task queue :
  ∃ head rest, TaskQueue.getNextTask (TaskQueue.addTask task queue) = (Some head, rest).
Proof. destruct queue as [|x q]; simpl; eauto. Qed.

(** What has been handed out so far, followed by what is still queued, is
    the initial content followed by what has been added: the queue never
    drops, duplicates or reorders a task. *)
Lemma run_conserves_order ops : ∀ queue,
  TaskQueue.delivered (TaskQueue.run ops queue).1 ++ (TaskQueue.run ops queue).2
  = queue ++ TaskQueue.added ops.
Proof.
  induction ops as [|[task|] ops IH]; intros queue; simpl.
  - by rewrite app_nil_r.
  - rewrite IH. unfold TaskQueue.addTask, TaskQueue.added. simpl.
    by rewrite <- app_assoc.
  - destruct queue as [|x q]; simpl.
    + specialize (IH []). destruct (TaskQueue.run ops []) as [rs q'] eqn:E.
      simpl in *. exact IH.
    + specialize (IH q). destruct (TaskQueue.run ops q) as [rs q'] eqn:E.
      simpl in *. unfold TaskQueue.delivered in *. simpl. by rewrite IH.
Qed.

(** Pulling once per queued task returns the queue, in order, and leaves
    it empty. *)
Lemma run_pulls n : ∀ queue,
  TaskQueue.run (replicate n TaskQueue.Pull) queue
  = ((Some <$> take n queue) ++ replicate (n - length queue) None, drop n queue).
Proof.
  induction n as [|n IH]; intros queue; simpl.
  - by destruct queue.
  - destruct queue as [|x q]; simpl.
    + rewrite IH. simpl. destruct n; simpl; by rewrite ?Nat.sub_0_r.
    + by rewrite IH.
Qed.

Lemma run_app ops1 : ∀ ops2 queue,
  TaskQueue.run (ops1 ++ ops2) queue
  = ((TaskQueue.run ops1 queue).1
       ++ (TaskQueue.run ops2 (TaskQueue.run ops1 queue).2).1,
     (TaskQueue.run ops2 (TaskQueue.run ops1 queue).2).2).
Proof.
  induction ops1 as [|[task|] ops1 IH]; intros ops2 queue; simpl.
  - by destruct (TaskQueue.run ops2 queue).
  - apply IH.
  - destruct (TaskQueue.getNextTask queue) as [r q'].
    rewrite IH. destruct (TaskQueue.run ops1 q') as [rs q''].
    simpl. by destruct (TaskQueue.run ops2 q'').
Qed.

Lemma run_adds (tasks : list T) : ∀ queue,
  TaskQueue.run (TaskQueue.Add <$> tasks) queue = ([], queue ++ tasks).
Proof.
  induction tasks as [|x tasks IH]; intros queue; simpl.
  - by rewrite app_nil_r.
  - rewrite IH. unfold TaskQueue.addTask. by rewrite <- app_assoc.
Qed.

End QueueFacts.

(** ** Dispatch service: what each handler does to the queue *)

Lemma get_task_empty s :
  Server.get_task (Server.with_taskQueue [] s)
  = (Server.with_taskQueue [] s, Server.mkResponse 200 Server.EmptyObject).
Proof. reflexivity. Qed.

Lemma get_task_head s task rest :
  Server.get_task (Server.with_taskQueue (task :: rest) s)
  = (Server.with_taskQueue rest s, Server.mkResponse 200 (Server.NextTask task)).
Proof. reflexivity. Qed.

Lemma reconcile_taskQueue data s :
  Server.taskQueue (Server.reconcile data s) = Server.taskQueue s.
Proof.
  unfold Server.reconcile.
  destruct (Server.carriesTab data), (Server.carriesClosedTab data); reflexivity.
Qed.

(** Every request other than a pull leaves the queue as it is or appends
    one task at its tail. *)
Lemma handle_appends r s :
  r ≠ Server.GetTask →
  ∃ new, Server.taskQueue (Server.handle r s).1 = Server.taskQueue s ++ new
         ∧ length new ≤ 1.
Proof.
  intros Hr. destruct r; simpl; try done.
  - unfold Server.add_task.
    destruct (negb _); simpl; [exists []|eexists [_]]; simpl;
      rewrite ?app_nil_r; auto.
  - unfold Server.report_result.
    destruct (Server.pendingTasks _ !! _); simpl;
      exists []; rewrite app_nil_r, reconcile_taskQueue; auto.
  - exists []. rewrite app_nil_r; auto.
  - unfold Server.report_error.
    destruct (Server.pendingTasks _ !! _); simpl;
      exists []; rewrite app_nil_r; auto.
  - destruct tabs as [tabs|]; simpl;
      [destruct (TabManager.replaceAllTabs_unchecked _ _ _) as [m' returned]|];
      simpl; exists []; rewrite app_nil_r; auto.
  - unfold Server.switch_tab.
    destruct (negb _); simpl; [exists []; rewrite app_nil_r; auto|].
    destruct (list_find _ _); simpl; [exists []|eexists [_]]; simpl;
      rewrite ?app_nil_r; auto.
  - unfold Server.execute_js.
    destruct (negb _); simpl; [exists []; rewrite app_nil_r; auto|].
    destruct (negb _); simpl; [exists []|eexists [_]]; simpl;
      rewrite ?app_nil_r; auto.
Qed.

(** C4. The task queue is strictly first-in first-out. For every
    interleaving of additions and pulls, the tasks handed out followed by
    the tasks still queued are the initial tasks followed by the added ones,
    in the order of addition; tasks added to an empty queue come back in
    that order, A before B; a pull on an empty queue returns the empty
    marker ([null] from [getNextTask], [{}] with status 200 from /get-task)
    and is no error; and every other request of the service only ever
    appends at the tail. *)
Theorem task_queue_is_fifo :
  (∀ (ops : list (TaskQueue.op Task.t)) (queue : list Task.t),
     TaskQueue.delivered (TaskQueue.run ops queue).1 ++ (TaskQueue.run ops queue).2
     = queue ++ TaskQueue.added ops)
  ∧ (∀ tasks : list Task.t,
       TaskQueue.run ((TaskQueue.Add <$> tasks)
                        ++ replicate (S (length tasks)) TaskQueue.Pull) []
       = ((Some <$> tasks) ++ [None], []))
  ∧ (∀ a b : Task.t,
       TaskQueue.run [TaskQueue.Add a; TaskQueue.Add b; TaskQueue.Pull; TaskQueue.Pull] []
       = ([Some a; Some b], []))
  ∧ TaskQueue.getNextTask (@nil Task.t) = (None, [])
  ∧ (∀ s, Server.get_task (Server.with_taskQueue [] s)
          = (Server.with_taskQueue [] s, Server.mkResponse 200 Server.EmptyObject))
  ∧ (∀ s task rest,
       Server.get_task (Server.with_taskQueue (task :: rest) s)
       = (Server.with_taskQueue rest s, Server.mkResponse 200 (Server.NextTask task)))
  ∧ (∀ r s, r ≠ Server.GetTask →
       ∃ new, Server.taskQueue (Server.handle r s).1 = Server.taskQueue s ++ new
              ∧ length new ≤ 1).
Proof.
  split_and!.
  - intros ops queue. apply run_conserves_order.
  - intros tasks. rewrite run_app, run_adds, run_pulls. simpl.
    rewrite take_ge, drop_ge by lia.
    by replace (S (length tasks) - length tasks) with 1 by lia.
  - reflexivity.
  - reflexivity.
  - apply get_task_empty.
  - apply get_task_head.
  - apply handle_appends.
Qed.

(** ** Dispatch service: validation of submissions *)

Lemma elem_of_switch_tab_found (tabId : JS.value) (queue : list Task.t) task :
  task ∈ queue → Server.isSwitchTabFor tabId task →
  is_Some (list_find (Server.isSwitchTabFor tabId) queue).
Proof. intros Hin Hp. by eapply list_find_elem_of. Qed.

(** C3. When the queue holds a switch-tab task for tab [n], a further
    switch-tab submission for [n] is answered with a conflict (status 409)
    and the whole server state, the queue in particular, is left as it
    was: nothing is enqueued and no wait is registered. *)
Theorem duplicate_switch_tab_conflicts (s : Server.t) (n : Z) (task : Task.t) :
  task ∈ Server.taskQueue s →
  Task.command task = JS.Str "switch-tab" →
  Task.tabId task = JS.Num n →
  Server.switch_tab (JS.Num n) s
  = (s, Some (Server.mkResponse 409
                (Server.Failure ("A switch-tab task for tabId " +:+ pretty n
                                 +:+ " is already pending."))))
  ∧ Server.taskQueue (Server.handle (Server.SwitchTab (JS.Num n)) s).1
    = Server.taskQueue s
  ∧ Server.pendingTasks (Server.handle (Server.SwitchTab (JS.Num n)) s).1
    = Server.pendingTasks s.
Proof.
  intros Hin Hcmd Htab.
  assert (Server.switch_tab (JS.Num n) s
          = (s, Some (Server.mkResponse 409
                (Server.Failure ("A switch-tab task for tabId " +:+ pretty n
                                 +:+ " is already pending."))))) as E.
  { unfold Server.switch_tab. simpl.
    destruct (elem_of_switch_tab_found (JS.Num n) _ task Hin) as [x ->].
    - by split.
    - reflexivity. }
  simpl. rewrite E. done.
Qed.

(** C3 on a server whose queue holds the switch-tab task for tab 7 that a
    first /switch-tab request has put there. *)
Lemma duplicate_switch_tab_conflicts_witness :
  let s := (Server.switch_tab (JS.Num 7) (Server.start None 1000)).1 in
  Server.switch_tab (JS.Num 7) s
  = (s, Some (Server.mkResponse 409
                (Server.Failure "A switch-tab task for tabId 7 is already pending."))).
Proof.
  exact (proj1 (duplicate_switch_tab_conflicts
    (Server.switch_tab (JS.Num 7) (Server.start None 1000)).1 7
    (Task.mk (JS.Str "switch-tab-7-1000") (JS.Str "switch-tab") (JS.Num 7)
             JS.Undefined JS.Undefined)
    (list_elem_of_here _ _) eq_refl eq_refl)).
Defined.

(** C7, the behaviour the claim rules out: on a fresh server an open-tab
    submission that carries no url gets no validation error; the task is
    queued with a null url and a wait is registered for it. *)
Lemma open_tab_without_url_is_enqueued :
  let s := Server.start None 0 in
  let r := Server.add_task JS.Undefined (JS.Str "open-tab") JS.Undefined
             JS.Undefined JS.Undefined s in
  r.2 = None
  ∧ Server.taskQueue s = []
  ∧ Server.taskQueue r.1
    = [Task.mk (JS.Str "task-0") (JS.Str "open-tab") JS.Null JS.Null JS.Null]
  ∧ Server.pendingTasks s !! JS.Str "task-0" = None
  ∧ Server.pendingTasks r.1 !! JS.Str "task-0" = Some (Server.mkPending 0 0).
Proof. vm_compute. done. Qed.

(** C7, amended. /add-task validates the command only. An open-tab
    submission without url passes: the task is appended to the queue with
    url [null], and a wait with the default deadline is registered under
    its id; the handler answers when that wait is settled. *)
Theorem open_tab_without_url_is_accepted (taskId jsFunction tabId : JS.value) (s : Server.t) :
  let task :=
    Task.mk (JS.or taskId (JS.Str ("task-" +:+ pretty (Server.now s))))
            (JS.Str "open-tab") (JS.or tabId JS.Null) JS.Null
            (JS.or jsFunction JS.Null) in
  let r := Server.add_task taskId (JS.Str "open-tab") JS.Undefined jsFunction tabId s in
  r.2 = None
  ∧ Server.taskQueue r.1 = Server.taskQueue s ++ [task]
  ∧ Server.pendingTasks r.1 !! Task.taskId task
    = Some (Server.mkPending (Server.nextPromise s) (Server.nextTimer s))
  ∧ Server.timers r.1 !! Server.nextTimer s
    = Some (Server.mkTimer (Server.now s + 30000) (Task.taskId task)).
Proof.
  simpl. split_and!; try reflexivity.
  - unfold Server.add_task. simpl. apply lookup_insert_eq.
  - unfold Server.add_task. simpl. apply lookup_insert_eq.
Qed.

(** C8, the behaviour the claim rules out: /add-task answers a switch-tab
    submission with status 400 and changes nothing. *)
Lemma add_task_rejects_switch_tab :
  Server.add_task JS.Undefined (JS.Str "switch-tab") JS.Undefined JS.Undefined
    (JS.Num 7) (Server.start None 0)
  = (Server.start None 0,
     Some (Server.mkResponse 400 (Server.Failure "Invalid command: switch-tab"))).
Proof. reflexivity. Qed.

Lemma includes_validCommands command :
  JS.includes Server.validCommands command = true
  ↔ command ∈ [JS.Str "open-tab"; JS.Str "close-tab"; JS.Str "find-tab";
               JS.Str "execute-js"].
Proof. unfold JS.includes. by rewrite bool_decide_eq_true. Qed.

(** C8, amended. /add-task accepts exactly the four commands open-tab,
    close-tab, find-tab and execute-js. A submission with one of them passes
    validation and is appended to the queue; with any other command,
    switch-tab included, it is answered with status 400 and the state is
    unchanged. The switch-tab command is enqueued by /switch-tab, which
    builds the task itself. *)
Theorem add_task_accepts_exactly_validCommands
    (taskId command url jsFunction tabId : JS.value) (s : Server.t) :
  let accepted :=
    [JS.Str "open-tab"; JS.Str "close-tab"; JS.Str "find-tab"; JS.Str "execute-js"] in
  let r := Server.add_task taskId command url jsFunction tabId s in
  (command ∈ accepted ↔
     r.2 = None
     ∧ Server.taskQueue r.1
       = Server.taskQueue s ++ [Server.addTask_task taskId command url jsFunction tabId s])
  ∧ (command ∉ accepted ↔
       r = (s, Some (Server.mkResponse 400
                       (Server.Failure ("Invalid command: " +:+ JS.to_string command)))))
  ∧ (∀ n : Z,
       list_find (Server.isSwitchTabFor (JS.Num n)) (Server.taskQueue s) = None →
       (Server.switch_tab (JS.Num n) s).2 = None
       ∧ ∃ task, Server.taskQueue (Server.switch_tab (JS.Num n) s).1
                 = Server.taskQueue s ++ [task]
                 ∧ Task.command task = JS.Str "switch-tab"
                 ∧ Task.tabId task = JS.Num n).
Proof.
  simpl. unfold Server.add_task.
  rewrite <- includes_validCommands.
  destruct (JS.includes Server.validCommands command) eqn:E; simpl.
  - split_and!.
    + by split.
    + split; [by intros []|done].
    + intros n Hn. unfold Server.switch_tab. simpl. rewrite Hn. simpl.
      split; [done|]. by eexists.
  - split_and!.
    + split; [done|by intros [? _]].
    + split; [done|]. by intros _ ?.
    + intros n Hn. unfold Server.switch_tab. simpl. rewrite Hn. simpl.
      split; [done|]. by eexists.
Qed.

(** ** Tab/window store *)

Section ListFind.
Context {A : Type} (P : A → Prop) `{!∀ x, Decision (P x)}.

(** The element [findIndex] finds splits the list; an assignment at that
    index and a [splice(index, 1)] act on the split. *)
Lemma list_find_split (l : list A) i x :
  list_find P l = Some (i, x) →
  ∃ l1 l2, l = l1 ++ x :: l2 ∧ length l1 = i ∧ P x
           ∧ Forall (λ y, ¬ P y) l1
           ∧ (∀ x', <[i := x']> l = l1 ++ x' :: l2)
           ∧ delete i l = l1 ++ l2.
Proof.
  intros (Hi & HP & Hmin)%list_find_Some.
  exists (take i l), (drop (S i) l).
  assert (i < length l) as Hlt by (by eapply lookup_lt_Some).
  split_and!.
  - by rewrite take_drop_middle.
  - rewrite length_take. lia.
  - done.
  - apply Forall_lookup. intros j y Hj.
    assert (j < i) as Hji.
    { apply lookup_lt_Some in Hj. rewrite length_take in Hj. lia. }
    rewrite lookup_take_lt in Hj by done. eauto.
  - intros x'. by apply insert_take_drop.
  - by apply delete_take_drop.
Qed.

Lemma list_find_app_cons (l1 l2 : list A) x :
  Forall (λ y, ¬ P y) l1 → P x →
  list_find P (l1 ++ x :: l2) = Some (length l1, x).
Proof.
  intros Hl1 Hx. apply list_find_Some. split_and!.
  - by rewrite list_lookup_middle.
  - done.
  - intros j y Hj Hlt. rewrite lookup_app_l in Hj by done.
    eapply Forall_lookup_1 in Hl1; eauto.
Qed.

End ListFind.

Lemma openedTabs_scheduleSave m :
  TabManager.openedTabs (TabManager.scheduleSave m) = TabManager.openedTabs m.
Proof.
  unfold TabManager.scheduleSave, TabManager.scheduleSave_body. simpl.
  by destruct (TabManager.saveInProgress m).
Qed.

Lemma openedWindows_scheduleSave m :
  TabManager.openedWindows (TabManager.scheduleSave m) = TabManager.openedWindows m.
Proof.
  unfold TabManager.scheduleSave, TabManager.scheduleSave_body. simpl.
  by destruct (TabManager.saveInProgress m).
Qed.

Lemma associateTabWithWindow_attach tabId windowId now m :
  TabManager.associateTabWithWindow tabId windowId now m
  = TabManager.with_windows
      (TabManager.attach tabId windowId now (TabManager.openedWindows m)) m.
Proof.
  unfold TabManager.associateTabWithWindow, TabManager.attach.
  destruct (list_find _ _) as [[i w]|]; [|done].
  destruct (JS.includes _ _); [|done]. by destruct m.
Qed.

Lemma replaceAllTabs_each_attach now m tab :
  TabManager.replaceAllTabs_each now m tab
  = TabManager.with_windows
      (TabManager.attach (SyncedTab.tabId tab) (SyncedTab.windowId tab) now
         (TabManager.openedWindows m))
      (TabManager.with_tabs
         (TabManager.openedTabs m ++ [TabManager.trackedTabOf now tab]) m).
Proof.
  unfold TabManager.replaceAllTabs_each, TabManager.attach. simpl.
  destruct (list_find _ _) as [[i w]|]; [|done].
  destruct (JS.includes _ _); done.
Qed.

(** The loop of [replaceAllTabs], on the two arrays. *)
Lemma replaceAllTabs_loop now (tabs : list SyncedTab.t) : ∀ m,
  TabManager.openedTabs (foldl (TabManager.replaceAllTabs_each now) m tabs)
  = TabManager.openedTabs m ++ (TabManager.trackedTabOf now <$> tabs)
  ∧ TabManager.openedWindows (foldl (TabManager.replaceAllTabs_each now) m tabs)
    = foldl (λ ws tab,
               TabManager.attach (SyncedTab.tabId tab) (SyncedTab.windowId tab) now ws)
            (TabManager.openedWindows m) tabs.
Proof.
  induction tabs as [|tab tabs IH]; intros m; simpl.
  - by rewrite app_nil_r.
  - destruct (IH (TabManager.replaceAllTabs_each now m tab)) as [-> ->].
    rewrite replaceAllTabs_each_attach. simpl. by rewrite <- app_assoc.
Qed.

Lemma replaceAllTabs_content tabs now m :
  TabManager.openedTabs (TabManager.replaceAllTabs tabs now m)
  = TabManager.trackedTabOf now <$> tabs
  ∧ TabManager.openedWindows (TabManager.replaceAllTabs tabs now m)
    = foldl (λ ws tab,
               TabManager.attach (SyncedTab.tabId tab) (SyncedTab.windowId tab) now ws)
            [] tabs.
Proof.
  unfold TabManager.replaceAllTabs.
  rewrite openedTabs_scheduleSave, openedWindows_scheduleSave.
  destruct (replaceAllTabs_loop now tabs
              (TabManager.with_windows [] (TabManager.with_tabs [] m))) as [-> ->].
  done.
Qed.

Lemma NoDup_fmap_key {A B} (f : A → B) (l : list A) x y :
  NoDup (f <$> l) → x ∈ l → y ∈ l → f x = f y → x = y.
Proof.
  induction l as [|a l IH]; simpl; intros Hnd Hx Hy Hf.
  - by apply elem_of_nil in Hx.
  - apply NoDup_cons in Hnd as [Ha Hnd].
    apply elem_of_cons in Hx as [->|Hx], Hy as [->|Hy]; auto.
    + exfalso. apply Ha. rewrite Hf. by apply list_elem_of_fmap_2.
    + exfalso. apply Ha. rewrite <- Hf. by apply list_elem_of_fmap_2.
Qed.

Lemma attach_grouped tabId windowId now pairs windows :
  TabManager.grouped pairs windows →
  TabManager.grouped (pairs ++ [(tabId, windowId)])
    (TabManager.attach tabId windowId now windows).
Proof.
  intros (Hnd & Hids & Htabs & Hnd').
  unfold TabManager.attach.
  destruct (list_find _ _) as [[i w0]|] eqn:Hf.
  - pose proof Hf as (Hi & Hw0 & _)%list_find_Some.
    assert (w0 ∈ windows) as Hin0 by (by eapply list_elem_of_lookup_2).
    apply list_find_split in Hf as (l1 & l2 & Hsplit & Hlen & _ & Hl1 & Hins & _).
    unfold JS.includes. case_bool_decide as Hinc.
    + split_and!; [done| | |done].
      * intros wid. rewrite fmap_app, elem_of_app, <- Hids. simpl.
        rewrite list_elem_of_singleton. split; [auto|].
        intros [?| ->]; [done|]. rewrite <- Hw0. by apply list_elem_of_fmap_2.
      * intros w Hw id. rewrite elem_of_app, list_elem_of_singleton, <- Htabs by done.
        split; [auto|]. intros [?|[= -> Hwid]]; [done|].
        assert (w = w0) as -> by (eapply (NoDup_fmap_key Window.windowId); eauto; congruence).
        done.
    + rewrite Hins.
      assert (Window.windowId <$> l1 ++ Window.mk (Window.windowId w0)
                (Window.tabs w0 ++ [tabId]) (Window.openedAt w0) :: l2
              = Window.windowId <$> windows) as Hsame.
      { rewrite Hsplit, !fmap_app. done. }
      split_and!.
      * by rewrite Hsame.
      * intros wid. rewrite Hsame, fmap_app, elem_of_app, <- Hids. simpl.
        rewrite list_elem_of_singleton. split; [auto|].
        intros [?| ->]; [done|]. rewrite <- Hw0. by apply list_elem_of_fmap_2.
      * intros w Hw id.
        rewrite elem_of_app, list_elem_of_singleton.
        apply elem_of_app in Hw as [Hw|Hw%elem_of_cons].
        -- assert (w ∈ windows) as Hww.
           { rewrite Hsplit. apply elem_of_app. by left. }
           rewrite <- Htabs by done. split; [auto|].
           intros [?|[= -> Hwid]]; [done|].
           exfalso. eapply Forall_forall in Hl1; eauto.
        -- destruct Hw as [->|Hw]; simpl.
           ++ rewrite elem_of_app, list_elem_of_singleton, Htabs by done.
              rewrite Hw0. split; intros [?|?]; auto; [right; congruence|].
              right. congruence.
           ++ assert (w ∈ windows) as Hww.
              { rewrite Hsplit. apply elem_of_app. right. by apply elem_of_cons; right. }
              rewrite <- Htabs by done. split; [auto|].
              intros [?|[= -> Hwid]]; [done|].
              assert (w = w0) as -> by
                (eapply (NoDup_fmap_key Window.windowId); eauto; congruence).
              exfalso. rewrite Hsplit in Hnd. rewrite fmap_app in Hnd. simpl in Hnd.
              apply NoDup_app in Hnd as (_ & _ & Hnd).
              apply NoDup_cons in Hnd as [Hnd _]. apply Hnd.
              by apply list_elem_of_fmap_2.
      * rewrite Hsplit in Hnd'. apply Forall_app in Hnd' as [H1 H2].
        apply Forall_cons in H2 as [H2 H3].
        apply Forall_app. split; [done|]. apply Forall_cons. split; [|done].
        simpl. apply NoDup_app. split_and!; [done| |apply NoDup_singleton].
        intros x Hx ->%list_elem_of_singleton. done.
  - apply list_find_None in Hf.
    assert (windowId ∉ Window.windowId <$> windows) as Hfresh.
    { intros (w & Hw & Hin)%list_elem_of_fmap.
      eapply Forall_forall in Hf; eauto. }
    split_and!.
    + rewrite fmap_app. simpl. apply NoDup_app. split_and!; [done| |apply NoDup_singleton].
      intros x Hx ->%list_elem_of_singleton. done.
    + intros wid. rewrite !fmap_app, !elem_of_app, <- Hids. simpl.
      by rewrite !list_elem_of_singleton.
    + intros w Hw id. rewrite elem_of_app, list_elem_of_singleton.
      apply elem_of_app in Hw as [Hw| ->%list_elem_of_singleton]; simpl.
      * rewrite <- Htabs by done. split; [auto|].
        intros [?|[= -> Hwid]]; [done|]. exfalso. apply Hfresh.
        rewrite <- Hwid. by apply list_elem_of_fmap_2.
      * rewrite list_elem_of_singleton. split; [intros ->; by right|].
        intros [Hp|[= ->]]; [|done]. exfalso. apply Hfresh, Hids.
        change windowId with ((id, windowId).2). by apply list_elem_of_fmap_2.
    + apply Forall_app. split; [done|]. apply Forall_singleton. simpl.
      apply NoDup_singleton.
Qed.

Lemma grouped_nil : TabManager.grouped [] [].
Proof.
  split_and!; simpl; [apply NoDup_nil_2|done| |done].
  intros w Hw. by apply elem_of_nil in Hw.
Qed.

Lemma attach_loop_grouped now (tabs : list SyncedTab.t) : ∀ pairs windows,
  TabManager.grouped pairs windows →
  TabManager.grouped (pairs ++ (TabManager.pairOfSyncedTab <$> tabs))
    (foldl (λ ws tab,
              TabManager.attach (SyncedTab.tabId tab) (SyncedTab.windowId tab) now ws)
           windows tabs).
Proof.
  induction tabs as [|tab tabs IH]; intros pairs windows Hg; simpl.
  - by rewrite app_nil_r.
  - rewrite (assoc_L (++) pairs [_] _ : pairs ++ _ :: _ = _).
    apply IH. by apply attach_grouped.
Qed.

(** The loop on an array without [null] comes to its end. *)
Lemma replaceAllTabs_forEach_returns now (tabs : list SyncedTab.t) : ∀ m,
  TabManager.replaceAllTabs_forEach now (Some <$> tabs) m
  = (foldl (TabManager.replaceAllTabs_each now) m tabs, true).
Proof. induction tabs as [|tab tabs IH]; intros m; simpl; [done|apply IH]. Qed.

(** The loop stops at the first [null], with the elements before it
    added. *)
Lemma replaceAllTabs_forEach_throws now (before : list SyncedTab.t) rest : ∀ m,
  TabManager.replaceAllTabs_forEach now ((Some <$> before) ++ None :: rest) m
  = (foldl (TabManager.replaceAllTabs_each now) m before, false).
Proof. induction before as [|tab before IH]; intros m; simpl; [done|apply IH]. Qed.

(** An array has no [null], or a first one. *)
Lemma first_null (tabs : list (option SyncedTab.t)) :
  (∃ ts, tabs = Some <$> ts)
  ∨ (∃ before rest, tabs = (Some <$> before) ++ None :: rest).
Proof.
  induction tabs as [|[tab|] tabs IH].
  - left. by exists [].
  - destruct IH as [[ts ->]|(before & rest & ->)].
    + left. by exists (tab :: ts).
    + right. by exists (tab :: before), rest.
  - right. by exists [], tabs.
Qed.

(** On an array of objects the unchecked call is [replaceAllTabs]. *)
Lemma replaceAllTabs_unchecked_returns tabs now m :
  TabManager.replaceAllTabs_unchecked (Some <$> tabs) now m
  = (TabManager.replaceAllTabs tabs now m, true).
Proof.
  unfold TabManager.replaceAllTabs_unchecked, TabManager.replaceAllTabs.
  by rewrite replaceAllTabs_forEach_returns.
Qed.

(** On an array with a [null] the call throws: both arrays have been
    cleared, the elements before the first [null] have been added, and
    nothing else of the store has changed; no save has been asked for. *)
Lemma replaceAllTabs_unchecked_throws before rest now m :
  let thrown :=
    TabManager.replaceAllTabs_unchecked ((Some <$> before) ++ None :: rest) now m in
  thrown.2 = false
  ∧ TabManager.openedTabs thrown.1 = TabManager.trackedTabOf now <$> before
  ∧ TabManager.openedWindows thrown.1
    = foldl (λ ws tab,
               TabManager.attach (SyncedTab.tabId tab) (SyncedTab.windowId tab) now ws)
            [] before
  ∧ TabManager.persistence thrown.1 = TabManager.persistence m.
Proof.
  simpl. unfold TabManager.replaceAllTabs_unchecked.
  rewrite replaceAllTabs_forEach_throws. simpl.
  destruct (replaceAllTabs_loop now before
              (TabManager.with_windows [] (TabManager.with_tabs [] m))) as [-> ->].
  split_and!; [done|done|done|].
  assert (∀ m0, TabManager.persistence
                  (foldl (TabManager.replaceAllTabs_each now) m0 before)
                = TabManager.persistence m0) as Hkept.
  { induction before as [|tab before IH] using rev_ind; intros m0; [done|].
    rewrite foldl_app. simpl. rewrite replaceAllTabs_each_attach. simpl. apply IH. }
  by rewrite Hkept.
Qed.


Lemma replaceAllTabs_grouped tabs now m :
  TabManager.grouped (TabManager.pairOfSyncedTab <$> tabs)
    (TabManager.openedWindows (TabManager.replaceAllTabs tabs now m)).
Proof.
  destruct (replaceAllTabs_content tabs now m) as [_ ->].
  apply (attach_loop_grouped now tabs [] []), grouped_nil.
Qed.

(** C6. [replaceAllTabs] is last-write-wins. The tab and window arrays it
    leaves are the same from every prior state; the tabs are the supplied
    ones, in order; there is one window record per window id of the list,
    listing exactly the tab ids the list pairs with it; so a resync with
    one list followed by a resync with another leaves what the second
    alone gives, also through /sync-tabs. *)
Theorem replaceAllTabs_last_write_wins (tabs : list SyncedTab.t) (now : Z) (m : TabManager.t) :
  let m' := TabManager.replaceAllTabs tabs now m in
  (∀ m0, TabManager.openedTabs (TabManager.replaceAllTabs tabs now m0)
         = TabManager.openedTabs m'
         ∧ TabManager.openedWindows (TabManager.replaceAllTabs tabs now m0)
           = TabManager.openedWindows m')
  ∧ TabManager.openedTabs m' = TabManager.trackedTabOf now <$> tabs
  ∧ NoDup (Window.windowId <$> TabManager.openedWindows m')
  ∧ (∀ wid, wid ∈ Window.windowId <$> TabManager.openedWindows m'
            ↔ wid ∈ SyncedTab.windowId <$> tabs)
  ∧ (∀ w, w ∈ TabManager.openedWindows m' →
       ∀ id, id ∈ Window.tabs w
             ↔ ∃ tab, tab ∈ tabs ∧ SyncedTab.tabId tab = id
                      ∧ SyncedTab.windowId tab = Window.windowId w)
  ∧ (∀ tabs1 now1,
       TabManager.openedTabs
         (TabManager.replaceAllTabs tabs now (TabManager.replaceAllTabs tabs1 now1 m))
       = TabManager.openedTabs m'
       ∧ TabManager.openedWindows
           (TabManager.replaceAllTabs tabs now (TabManager.replaceAllTabs tabs1 now1 m))
         = TabManager.openedWindows m')
  ∧ (∀ s tabs1,
       TabManager.getAllOpenedTabs
         (Server.tabManager
            (Server.sync_tabs (Some (Some <$> tabs))
               (Server.sync_tabs (Some tabs1) s).1).1)
       = TabManager.trackedTabOf (Server.now s) <$> tabs).
Proof.
  simpl.
  assert (∀ m0, TabManager.openedTabs (TabManager.replaceAllTabs tabs now m0)
         = TabManager.openedTabs (TabManager.replaceAllTabs tabs now m)
         ∧ TabManager.openedWindows (TabManager.replaceAllTabs tabs now m0)
           = TabManager.openedWindows (TabManager.replaceAllTabs tabs now m)) as Hany.
  { intros m0.
    destruct (replaceAllTabs_content tabs now m0) as [-> ->].
    destruct (replaceAllTabs_content tabs now m) as [-> ->]. done. }
  destruct (replaceAllTabs_grouped tabs now m) as (Hnd & Hids & Htabs & _).
  split_and!.
  - done.
  - apply replaceAllTabs_content.
  - done.
  - intros wid. rewrite Hids. rewrite <- list_fmap_compose. done.
  - intros w Hw id. rewrite (Htabs w Hw id), list_elem_of_fmap.
    split.
    + intros (tab & [= -> Hwid] & Hin). eauto.
    + intros (tab & Hin & <- & <-). eauto.
  - intros tabs1 now1. apply Hany.
  - intros s tabs1.
    destruct (TabManager.replaceAllTabs_unchecked tabs1 (Server.now s)
                (Server.tabManager s)) as [m1 returned].
    simpl. rewrite replaceAllTabs_unchecked_returns. simpl.
    unfold TabManager.getAllOpenedTabs. apply replaceAllTabs_content.
Qed.

(** The example of the specification: a resync with tab 1 in window 1 and
    then one with tab 2 in window 2 leaves tab 2 and window 2 only. *)
Example resync_twice_keeps_second_only :
  let m := TabManager.replaceAllTabs
             [SyncedTab.mk (JS.Num 2) (JS.Num 2) (JS.Str "b")] 20
             (TabManager.replaceAllTabs
                [SyncedTab.mk (JS.Num 1) (JS.Num 1) (JS.Str "a")] 10
                (TabManager.new None)) in
  TabManager.openedTabs m = [Tab.mk (JS.Num 2) (JS.Num 2) (JS.Str "b") 20 20]
  ∧ TabManager.openedWindows m = [Window.mk (JS.Num 2) [JS.Num 2] 20].
Proof. by vm_compute. Qed.

(** C5, the failing run. A tab is reported in window 10 and then, as after
    a move, in window 20. Before the second report the membership
    invariant holds; after it the record of window 10 still lists the tab,
    whose own record now names window 20. *)
Theorem upsert_to_other_window_keeps_stale_member :
  let m1 := TabManager.addOrUpdateTab (JS.Num 1) (JS.Num 10) (JS.Str "https://a") 100
              (TabManager.new None) in
  let m2 := TabManager.addOrUpdateTab (JS.Num 1) (JS.Num 20) (JS.Str "https://a") 200 m1 in
  bool_decide (TabManager.membership_invariant m1) = true
  ∧ TabManager.openedTabs m2 = [Tab.mk (JS.Num 1) (JS.Num 20) (JS.Str "https://a") 100 200]
  ∧ TabManager.openedWindows m2
    = [Window.mk (JS.Num 10) [JS.Num 1] 100; Window.mk (JS.Num 20) [JS.Num 1] 200]
  ∧ bool_decide (TabManager.windows_list_tracked_tabs m2) = false
  ∧ bool_decide (TabManager.membership_invariant m2) = false.
Proof. by vm_compute. Qed.

(** ** Dispatch service: success reports *)

Lemma carriesClosedTab_truthy data :
  Server.carriesClosedTab data = JS.truthy (JS.get data "closedTabId").
Proof.
  unfold Server.carriesClosedTab.
  destruct data; simpl; by rewrite ?andb_false_r.
Qed.

Lemma carriesTab_false data :
  JS.truthy (JS.get data "tabId") = false
  ∨ JS.truthy (JS.get data "windowId") = false
  ∨ JS.truthy (JS.get data "url") = false →
  Server.carriesTab data = false.
Proof.
  unfold Server.carriesTab. intros [-> | [-> | ->]];
    rewrite ?andb_false_r; reflexivity.
Qed.

Lemma removeClosedTab_sublist tabId m :
  sublist (TabManager.openedTabs (TabManager.removeClosedTab tabId m))
          (TabManager.openedTabs m).
Proof.
  unfold TabManager.removeClosedTab.
  destruct (list_find _ (TabManager.openedTabs m)) as [[i tab]|]; [|done].
  rewrite openedTabs_scheduleSave. simpl.
  destruct (list_find _ _) as [[j w]|]; simpl.
  - case_bool_decide; simpl.
    + destruct (list_find _ _) as [[k w']|]; simpl; apply sublist_delete.
    + apply sublist_delete.
  - apply sublist_delete.
Qed.

(** C10, the behaviour the claim rules out: the success report of a closed
    tab carries none of [tabId], [windowId] and [url], and it changes the
    store: the tracked tab 5 is removed. *)
Lemma report_of_closed_tab_changes_store :
  let opened :=
    JS.Object (<["tabId" := JS.Num 5]> (<["windowId" := JS.Num 1]>
                 (<["url" := JS.Str "https://x"]> ∅))) in
  let closed := JS.Object (<["closedTabId" := JS.Num 5]> ∅) in
  let s := (Server.report_result (JS.Str "auto-open-5-0") opened (Server.start None 0)).1 in
  let s' := (Server.report_result (JS.Str "auto-close-5-0") closed s).1 in
  JS.get closed "tabId" = JS.Undefined
  ∧ JS.get closed "windowId" = JS.Undefined
  ∧ JS.get closed "url" = JS.Undefined
  ∧ TabManager.openedTabs (Server.tabManager s)
    = [Tab.mk (JS.Num 5) (JS.Num 1) (JS.Str "https://x") 0 0]
  ∧ TabManager.openedTabs (Server.tabManager s') = []
  ∧ TabManager.openedWindows (Server.tabManager s') = [].
Proof. by vm_compute. Qed.

(** C10, amended. When one of [tabId], [windowId] and [url] is missing
    from the reported data or falsy (0, the empty string), /report-result
    makes no upsert: no tab is inserted or updated. The store is left
    unchanged unless the data carries a truthy [closedTabId], in which case
    exactly the removal of that tab is applied. The wait registered under
    the task id, if there is one, is resolved with the data and removed,
    and its timer is cleared. *)
Theorem report_result_without_tab_identity
    (taskId : JS.value) (data : JS.json) (s : Server.t) :
  JS.truthy (JS.get data "tabId") = false
  ∨ JS.truthy (JS.get data "windowId") = false
  ∨ JS.truthy (JS.get data "url") = false →
  let s' := (Server.report_result taskId data s).1 in
  Server.tabManager s'
  = (if JS.truthy (JS.get data "closedTabId")
     then TabManager.removeClosedTab (JS.get data "closedTabId") (Server.tabManager s)
     else Server.tabManager s)
  ∧ sublist (TabManager.openedTabs (Server.tabManager s'))
            (TabManager.openedTabs (Server.tabManager s))
  ∧ match Server.pendingTasks s !! taskId with
    | Some entry =>
        Server.settled s' = (Server.promise entry, Server.Resolved data) :: Server.settled s
        ∧ Server.pendingTasks s' = delete taskId (Server.pendingTasks s)
        ∧ Server.timers s' = delete (Server.timeout entry) (Server.timers s)
    | None =>
        Server.settled s' = Server.settled s
        ∧ Server.pendingTasks s' = Server.pendingTasks s
        ∧ Server.timers s' = Server.timers s
    end.
Proof.
  intros Hmissing. simpl.
  unfold Server.report_result, Server.reconcile.
  rewrite (carriesTab_false data Hmissing), carriesClosedTab_truthy.
  assert (∀ s1 : Server.t,
    Server.tabManager
      (match Server.pendingTasks s1 !! taskId with
       | Some entry =>
           Server.with_pendingTasks (delete taskId (Server.pendingTasks s1))
             (Server.settle (Server.promise entry) (Server.Resolved data)
                (Server.clearTimeout (Server.timeout entry) s1))
       | None => s1
       end) = Server.tabManager s1) as Htm.
  { intros s1. by destruct (Server.pendingTasks s1 !! taskId). }
  simpl. rewrite Htm.
  destruct (JS.truthy (JS.get data "closedTabId")); simpl.
  - split_and!; [done|apply removeClosedTab_sublist|].
    destruct (Server.pendingTasks s !! taskId); done.
  - split_and!; [done|done|].
    destruct (Server.pendingTasks s !! taskId); done.
Qed.

(** C10 on a report whose [tabId] is 0, for a task that is waited for: the
    store is untouched and the wait is resolved. *)
Lemma report_result_without_tab_identity_witness :
  let data := JS.Object (<["tabId" := JS.Num 0]> (<["windowId" := JS.Num 1]>
                           (<["url" := JS.Str "https://x"]> ∅))) in
  let s := (Server.add_task (JS.Str "t1") (JS.Str "open-tab") (JS.Str "https://x")
              JS.Undefined JS.Undefined (Server.start None 0)).1 in
  let s' := (Server.report_result (JS.Str "t1") data s).1 in
  Server.tabManager s' = Server.tabManager s
  ∧ Server.settled s' = [(0, Server.Resolved data)]
  ∧ Server.pendingTasks s' !! JS.Str "t1" = None.
Proof.
  pose proof (report_result_without_tab_identity (JS.Str "t1")
    (JS.Object (<["tabId" := JS.Num 0]> (<["windowId" := JS.Num 1]>
                           (<["url" := JS.Str "https://x"]> ∅))))
    (Server.add_task (JS.Str "t1") (JS.Str "open-tab") (JS.Str "https://x")
              JS.Undefined JS.Undefined (Server.start None 0)).1
    (or_introl eq_refl)) as (Htm & _ & Hwait).
  split; [exact Htm|].
  split; [exact (proj1 Hwait)|].
  rewrite (proj1 (proj2 Hwait)). apply lookup_delete_eq.
Defined.

(** ** Tab/window store: coalesced persistence *)

Lemma scheduleSave_in_progress m :
  TabManager.saveInProgress m = true →
  TabManager.scheduleSave m
  = TabManager.mk (TabManager.openedTabs m) (TabManager.openedWindows m) true true
      (TabManager.inFlight m) (TabManager.written m) (S (TabManager.requested m)).
Proof.
  intros H. unfold TabManager.scheduleSave, TabManager.scheduleSave_body. simpl.
  by rewrite H.
Qed.

Lemma scheduleSave_idle m :
  TabManager.saveInProgress m = false →
  TabManager.scheduleSave m
  = TabManager.mk (TabManager.openedTabs m) (TabManager.openedWindows m) true
      (TabManager.saveQueued m)
      (TabManager.inFlight m ++ [TabManager.currentDocument m])
      (TabManager.written m ++ [TabManager.currentDocument m])
      (S (TabManager.requested m)).
Proof.
  intros H. unfold TabManager.scheduleSave, TabManager.scheduleSave_body. simpl.
  by rewrite H.
Qed.

Lemma scheduleSave_single_flight m :
  TabManager.single_flight m → TabManager.single_flight (TabManager.scheduleSave m).
Proof.
  unfold TabManager.single_flight.
  destruct (TabManager.saveInProgress m) eqn:E; intros H.
  - by rewrite scheduleSave_in_progress.
  - rewrite scheduleSave_idle by done. simpl. destruct H as [-> _]. done.
Qed.

(** A mutator ends in [scheduleSave], or asks for no save (a removal of an
    unknown tab, a full replacement that throws); before that call, or at
    all, it has not touched the flags or the writes. *)
Lemma mutator_schedules e m :
  TabManager.is_mutator e = true →
  ∃ m1, TabManager.persistence m1 = TabManager.persistence m
        ∧ (TabManager.step e m = Some m1
           ∨ TabManager.step e m = Some (TabManager.scheduleSave m1)).
Proof.
  destruct e as [tabId windowId url now|tabId|tabs now|k]; simpl; intros He; [| | |done].
  - eexists. split; [|right; reflexivity].
    rewrite associateTabWithWindow_attach.
    by destruct (list_find _ _) as [[i tab]|].
  - unfold TabManager.removeClosedTab.
    destruct (list_find _ (TabManager.openedTabs m)) as [[i tab]|];
      [|exists m; split; [done|by left]].
    eexists. split; [|right; reflexivity]. simpl.
    destruct (list_find _ _) as [[j w]|]; simpl; [|done].
    case_bool_decide; simpl; [|done].
    by destruct (list_find _ _) as [[k w']|].
  - destruct (first_null tabs) as [[ts ->]|(before & rest & ->)].
    + rewrite replaceAllTabs_unchecked_returns. simpl.
      eexists. split; [|right; reflexivity].
      induction ts as [|tab ts IH] using rev_ind; [done|].
      rewrite foldl_app. simpl. rewrite replaceAllTabs_each_attach. simpl. exact IH.
    + destruct (replaceAllTabs_unchecked_throws before rest now m) as (_ & _ & _ & Hp).
      eexists. split; [exact Hp|by left].
Qed.

Lemma persistence_single_flight m1 m :
  TabManager.persistence m1 = TabManager.persistence m →
  TabManager.single_flight m → TabManager.single_flight m1.
Proof.
  unfold TabManager.persistence, TabManager.single_flight.
  intros [= -> -> -> _ _]. done.
Qed.

Lemma writeCallback_single_flight k m m' :
  TabManager.single_flight m → TabManager.writeCallback k m = Some m' →
  TabManager.single_flight m'.
Proof.
  unfold TabManager.single_flight, TabManager.writeCallback.
  destruct (TabManager.inFlight m !! k) as [d|] eqn:Hk; [|done].
  destruct (TabManager.saveInProgress m) eqn:Hp; intros H [= <-].
  - destruct (TabManager.inFlight m) as [|d0 [|]] eqn:Hf; try done.
    destruct k as [|k]; [|done]. simpl.
    destruct (TabManager.saveQueued m) eqn:Hq; simpl; [|by rewrite Hq].
    unfold TabManager.scheduleSave_body. simpl. done.
  - destruct H as [Hf _]. by rewrite Hf in Hk.
Qed.

Lemma step_single_flight e m m' :
  TabManager.single_flight m → TabManager.step e m = Some m' →
  TabManager.single_flight m'.
Proof.
  intros Hm Hstep.
  destruct (TabManager.is_mutator e) eqn:He.
  - destruct (mutator_schedules e m He) as (m1 & Hp & [E|E]);
      rewrite E in Hstep; injection Hstep as <-.
    + by eapply persistence_single_flight.
    + eapply scheduleSave_single_flight, persistence_single_flight; eauto.
  - destruct e; try done. simpl in Hstep.
    by eapply writeCallback_single_flight.
Qed.

Lemma run_single_flight es : ∀ m m',
  TabManager.single_flight m → TabManager.run es m = Some m' →
  TabManager.single_flight m'.
Proof.
  induction es as [|e es IH]; simpl; intros m m' Hm Hrun.
  - by injection Hrun as <-.
  - destruct (TabManager.step e m) as [m1|] eqn:E; [|done].
    eapply IH; [|done]. by eapply step_single_flight.
Qed.

Lemma new_single_flight file : TabManager.single_flight (TabManager.new file).
Proof. by destruct file. Qed.

(** While a write is in flight, mutators start no write: they count their
    request and raise [saveQueued]. *)
Lemma mutators_during_flight es : ∀ m,
  Forall (λ e, TabManager.is_mutator e = true) es →
  TabManager.saveInProgress m = true →
  ∃ m', TabManager.run es m = Some m'
        ∧ TabManager.saveInProgress m' = true
        ∧ TabManager.inFlight m' = TabManager.inFlight m
        ∧ TabManager.written m' = TabManager.written m
        ∧ TabManager.requested m ≤ TabManager.requested m'
        ∧ (TabManager.saveQueued m' = true
           ↔ TabManager.saveQueued m = true
             ∨ TabManager.requested m < TabManager.requested m').
Proof.
  induction es as [|e es IH]; simpl; intros m Hes Hp.
  - exists m. split_and!; try done. split; [auto|]. intros [?|?]; [done|lia].
  - apply Forall_cons in Hes as [He Hes].
    destruct (mutator_schedules e m He) as (m1 & Hpers & [E|E]); rewrite E.
    + unfold TabManager.persistence in Hpers.
      injection Hpers as Hp1 Hq1 Hf1 Hw1 Hr1.
      destruct (IH m1 Hes) as (m' & Hrun & Hp' & Hf' & Hw' & Hr' & Hq');
        [congruence|].
      exists m'. rewrite <- Hq1, <- Hf1, <- Hw1, <- Hr1. by split_and!.
    + unfold TabManager.persistence in Hpers.
      injection Hpers as Hp1 Hq1 Hf1 Hw1 Hr1.
      rewrite scheduleSave_in_progress by congruence.
      edestruct (IH (TabManager.mk (TabManager.openedTabs m1)
                       (TabManager.openedWindows m1) true true
                       (TabManager.inFlight m1) (TabManager.written m1)
                       (S (TabManager.requested m1))) Hes eq_refl)
        as (m' & Hrun & Hp' & Hf' & Hw' & Hr' & Hq').
      simpl in *. exists m'. split_and!; try congruence; try lia.
      split; [intros _; right; lia|]. intros _. apply Hq'. by left.
Qed.

Lemma requested_scheduleSave m :
  TabManager.requested (TabManager.scheduleSave m) = S (TabManager.requested m).
Proof.
  unfold TabManager.scheduleSave, TabManager.scheduleSave_body. simpl.
  by destruct (TabManager.saveInProgress m).
Qed.

Lemma requested_addOrUpdateTab tabId windowId url now m :
  TabManager.requested (TabManager.addOrUpdateTab tabId windowId url now m)
  = S (TabManager.requested m).
Proof.
  unfold TabManager.addOrUpdateTab.
  rewrite requested_scheduleSave, associateTabWithWindow_attach. simpl.
  by destruct (list_find _ _) as [[i tab]|].
Qed.

Lemma requested_replaceAllTabs tabs now m :
  TabManager.requested (TabManager.replaceAllTabs tabs now m)
  = S (TabManager.requested m).
Proof.
  unfold TabManager.replaceAllTabs. rewrite requested_scheduleSave. f_equal.
  induction tabs as [|tab tabs IH] using rev_ind; [done|].
  rewrite foldl_app. simpl. by rewrite replaceAllTabs_each_attach.
Qed.

Lemma requested_removeClosedTab tabId m :
  TabManager.requested (TabManager.removeClosedTab tabId m)
  = if decide (tabId ∈ Tab.tabId <$> TabManager.openedTabs m)
    then S (TabManager.requested m) else TabManager.requested m.
Proof.
  unfold TabManager.removeClosedTab.
  destruct (list_find _ (TabManager.openedTabs m)) as [[i tab]|] eqn:Hf.
  - apply list_find_Some in Hf as (Hi & Htab & _).
    rewrite decide_True.
    2:{ rewrite <- Htab. eapply list_elem_of_fmap_2, list_elem_of_lookup_2; eauto. }
    rewrite requested_scheduleSave. f_equal. simpl.
    destruct (list_find _ _) as [[j w]|]; simpl; [|done].
    case_bool_decide; simpl; [|done].
    by destruct (list_find _ _) as [[k w']|].
  - apply list_find_None in Hf. rewrite decide_False; [done|].
    intros (tab & Htab & Hin)%list_elem_of_fmap.
    eapply Forall_forall in Hf; eauto.
Qed.

Lemma reconcile_single_flight data s :
  TabManager.single_flight (Server.tabManager s) →
  TabManager.single_flight (Server.tabManager (Server.reconcile data s)).
Proof.
  intros H. unfold Server.reconcile.
  destruct (Server.carriesTab data), (Server.carriesClosedTab data); simpl; try done.
  - eapply (step_single_flight (TabManager.Remove _)); [|reflexivity].
    by eapply (step_single_flight (TabManager.Upsert _ _ _ _)).
  - by eapply (step_single_flight (TabManager.Upsert _ _ _ _)).
  - by eapply (step_single_flight (TabManager.Remove _)).
Qed.

Lemma server_step_single_flight e s s' :
  TabManager.single_flight (Server.tabManager s) →
  Server.step e s = Some s' →
  TabManager.single_flight (Server.tabManager s').
Proof.
  intros H. destruct e as [r|h|k|d]; simpl.
  - intros [= <-]. destruct r; simpl; try done.
    + unfold Server.add_task. by destruct (negb _).
    + unfold Server.get_task. by destruct (TaskQueue.getNextTask _) as [[task|] q].
    + unfold Server.report_result. cbn [fst].
      pose proof (reconcile_single_flight data s H) as H1.
      by destruct (Server.pendingTasks _ !! _).
    + unfold Server.report_error. by destruct (Server.pendingTasks _ !! _).
    + destruct tabs as [tabs|]; simpl; [|done].
      pose proof (step_single_flight (TabManager.ReplaceAll tabs (Server.now s))
                    (Server.tabManager s) _ H eq_refl) as H1.
      by destruct (TabManager.replaceAllTabs_unchecked tabs _ _) as [m1 returned].
    + unfold Server.switch_tab. destruct (negb _); [done|].
      by destruct (list_find _ _).
    + unfold Server.execute_js. destruct (negb _); [done|]. by destruct (negb _).
  - unfold Server.timerFires. destruct (Server.timers s !! h) as [tm|]; [|done].
    case_bool_decide; [|done]. intros [= <-]. unfold Server.timeoutCallback. simpl.
    by destruct (Server.pendingTasks s !! _).
  - unfold Server.writeDone.
    destruct (TabManager.writeCallback k (Server.tabManager s)) as [m|] eqn:E; [|done].
    intros [= <-]. simpl. by eapply writeCallback_single_flight.
  - case_bool_decide; [|done]. by intros [= <-].
Qed.

Lemma server_run_single_flight es : ∀ s s',
  TabManager.single_flight (Server.tabManager s) →
  Server.run es s = Some s' →
  TabManager.single_flight (Server.tabManager s').
Proof.
  induction es as [|e es IH]; simpl; intros s s' H.
  - by intros [= <-].
  - destruct (Server.step e s) as [s1|] eqn:E; [|done].
    apply IH. by eapply server_step_single_flight.
Qed.

(** What the code does about coalescing. Writes of the snapshot are
    single-flight, and the latest state supersedes for every mutator that
    asks for a save. (1) In every state the store reaches from its
    construction, by any sequence of upserts, removals, full replacements
    (of any array, those that throw included) and write completions, at
    most one write is in flight; so it is in
    every state the server reaches. (2) From the
    moment a write [w] has been started, any sequence of mutators runs
    without starting another write; when [w] completes, if one or more of
    them asked for a save, exactly one write is started, of the document
    the store holds at that moment, and nothing stays queued; if none did,
    no write is started. (3) Every upsert and every full replacement that
    returns asks for a save, and so does every removal of a tracked tab. A
    full replacement that throws asks for none; the last section of the
    file runs that case. *)
Theorem writes_are_coalesced :
  (∀ file es m,
     TabManager.run es (TabManager.new file) = Some m →
     length (TabManager.inFlight m) ≤ 1)
  ∧ (∀ file t0 es s,
       Server.run es (Server.start file t0) = Some s →
       length (TabManager.inFlight (Server.tabManager s)) ≤ 1)
  ∧ (∀ m w es,
       TabManager.saveInProgress m = true →
       TabManager.saveQueued m = false →
       TabManager.inFlight m = [w] →
       Forall (λ e, TabManager.is_mutator e = true) es →
       ∃ m' m'',
         TabManager.run es m = Some m'
         ∧ TabManager.inFlight m' = [w]
         ∧ TabManager.written m' = TabManager.written m
         ∧ TabManager.writeCallback 0 m' = Some m''
         ∧ TabManager.openedTabs m'' = TabManager.openedTabs m'
         ∧ TabManager.openedWindows m'' = TabManager.openedWindows m'
         ∧ TabManager.saveQueued m'' = false
         ∧ if decide (TabManager.requested m < TabManager.requested m')
           then TabManager.written m''
                = TabManager.written m ++ [TabManager.currentDocument m']
                ∧ TabManager.inFlight m'' = [TabManager.currentDocument m']
                ∧ TabManager.saveInProgress m'' = true
           else TabManager.written m'' = TabManager.written m
                ∧ TabManager.inFlight m'' = []
                ∧ TabManager.saveInProgress m'' = false)
  ∧ (∀ tabId windowId url now m,
       TabManager.requested (TabManager.addOrUpdateTab tabId windowId url now m)
       = S (TabManager.requested m))
  ∧ (∀ tabs now m,
       TabManager.requested (TabManager.replaceAllTabs tabs now m)
       = S (TabManager.requested m))
  ∧ (∀ tabId m,
       TabManager.requested (TabManager.removeClosedTab tabId m)
       = if decide (tabId ∈ Tab.tabId <$> TabManager.openedTabs m)
         then S (TabManager.requested m) else TabManager.requested m).
Proof.
  split_and!.
  - intros file es m Hrun.
    pose proof (run_single_flight es _ _ (new_single_flight file) Hrun) as H.
    unfold TabManager.single_flight in H.
    destruct (TabManager.saveInProgress m); [lia|]. destruct H as [-> _]. simpl. lia.
  - intros file t0 es s Hrun.
    pose proof (server_run_single_flight es (Server.start file t0) s
                  (new_single_flight file) Hrun) as H.
    unfold TabManager.single_flight in H.
    destruct (TabManager.saveInProgress _); [lia|]. destruct H as [-> _]. simpl. lia.
  - intros m w es Hp Hq Hf Hes.
    destruct (mutators_during_flight es m Hes Hp)
      as (m' & Hrun & Hp' & Hf' & Hw' & Hr' & Hq').
    rewrite Hf in Hf'.
    exists m'.
    destruct (TabManager.saveQueued m') eqn:Eq.
    + assert (TabManager.requested m < TabManager.requested m') as Hlt.
      { destruct Hq' as [Hq' _]. destruct (Hq' eq_refl) as [?|?]; [congruence|done]. }
      eexists. unfold TabManager.writeCallback. rewrite Hf'. simpl. rewrite Eq.
      split_and!; try done.
      rewrite decide_True by done. unfold TabManager.scheduleSave_body. simpl.
      by rewrite Hw'.
    + assert (¬ TabManager.requested m < TabManager.requested m') as Hlt.
      { intros Hlt. destruct Hq' as [_ Hq']. by specialize (Hq' (or_intror Hlt)). }
      eexists. unfold TabManager.writeCallback. rewrite Hf'. simpl. rewrite Eq.
      split_and!; try done.
      by rewrite decide_False by done.
  - apply requested_addOrUpdateTab.
  - apply requested_replaceAllTabs.
  - apply requested_removeClosedTab.
Qed.

(** ** Rendezvous table *)

Lemma well_formed_bookkeeping s s' :
  Server.bookkeeping s' = Server.bookkeeping s →
  Server.well_formed s → Server.well_formed s'.
Proof.
  unfold Server.bookkeeping. intros [= Hp Ht Hnt Hnp Hs] [].
  split; rewrite ?Hp, ?Ht, ?Hnt, ?Hnp, ?Hs; done.
Qed.

Lemma well_formed_start file t0 : Server.well_formed (Server.start file t0).
Proof.
  split; simpl; try done.
  - intros p Hp. by apply elem_of_nil in Hp.
  - apply NoDup_nil_2.
Qed.

Lemma well_formed_wait taskId timeoutMs s :
  Server.well_formed s →
  Server.well_formed (Server.waitForTaskCompletion taskId timeoutMs s).2.
Proof.
  intros [Hb Hinj Hun Hsb Hnd Htb Het]. split; simpl.
  - intros k e [[<- <-]|[Hk He]]%lookup_insert_Some; simpl; [lia|].
    destruct (Hb k e He). lia.
  - intros k1 k2 e1 e2 [[<- <-]|[Hk1 He1]]%lookup_insert_Some
                       [[<- <-]|[Hk2 He2]]%lookup_insert_Some; simpl; try done.
    + intros Hp. destruct (Hb _ _ He2). lia.
    + intros Hp. destruct (Hb _ _ He1). lia.
    + eauto.
  - intros k e [[<- <-]|[Hk He]]%lookup_insert_Some; simpl; [|eauto].
    intros Hp%Hsb. lia.
  - intros p Hp%Hsb. lia.
  - done.
  - intros h tm [[<- <-]|[Hh Htm]]%lookup_insert_Some; [lia|].
    apply Htb in Htm. lia.
  - intros k e tm [[<- <-]|[Hk He]]%lookup_insert_Some; simpl.
    + rewrite lookup_insert_eq. by intros [= <-].
    + destruct (Hb _ _ He) as [_ Hlt].
      rewrite lookup_insert_ne by lia. eauto.
Qed.

Lemma well_formed_clearTimeout h s :
  Server.well_formed s → Server.well_formed (Server.clearTimeout h s).
Proof.
  intros [Hb Hinj Hun Hsb Hnd Htb Het]. split; simpl; try done.
  - intros h' tm [_ Htm]%lookup_delete_Some. eauto.
  - intros k e tm He [_ Htm]%lookup_delete_Some. eauto.
Qed.

(** A terminal transition of the entry under [taskId]: its promise is
    settled and the entry is deleted. *)
Lemma well_formed_settle taskId e o s :
  Server.well_formed s →
  Server.pendingTasks s !! taskId = Some e →
  Server.well_formed
    (Server.with_pendingTasks (delete taskId (Server.pendingTasks s))
       (Server.settle (Server.promise e) o s)).
Proof.
  intros [Hb Hinj Hun Hsb Hnd Htb Het] He. split; simpl.
  - intros k e' [_ He']%lookup_delete_Some. eauto.
  - intros k1 k2 e1 e2 [_ He1]%lookup_delete_Some [_ He2]%lookup_delete_Some. eauto.
  - intros k e' [Hk He']%lookup_delete_Some.
    rewrite not_elem_of_cons. split; [|eauto].
    intros Hp. apply Hk. symmetry. eauto.
  - intros p [->|Hp]%elem_of_cons; [|eauto]. by destruct (Hb _ _ He).
  - apply NoDup_cons. split; [eauto|done].
  - done.
  - intros k e' tm [_ He']%lookup_delete_Some. eauto.
Qed.

Lemma well_formed_timeoutCallback taskId s :
  Server.well_formed s → Server.well_formed (Server.timeoutCallback taskId s).
Proof.
  intros Hwf. unfold Server.timeoutCallback.
  destruct (Server.pendingTasks s !! taskId) as [e|] eqn:He; [|done].
  by apply well_formed_settle.
Qed.

Lemma well_formed_reconcile data s :
  Server.well_formed s → Server.well_formed (Server.reconcile data s).
Proof.
  apply well_formed_bookkeeping. unfold Server.reconcile.
  destruct (Server.carriesTab data), (Server.carriesClosedTab data); reflexivity.
Qed.

Lemma well_formed_handle r s :
  Server.well_formed s → Server.well_formed (Server.handle r s).1.
Proof.
  intros Hwf. destruct r; simpl.
  - unfold Server.add_task. destruct (negb _); cbn [fst]; [done|].
    apply well_formed_wait. by apply (well_formed_bookkeeping s).
  - unfold Server.get_task.
    destruct (TaskQueue.getNextTask _) as [[task|] q]; simpl;
      by apply (well_formed_bookkeeping s).
  - unfold Server.report_result. simpl.
    pose proof (well_formed_reconcile data s Hwf) as Hwf1.
    destruct (Server.pendingTasks (Server.reconcile data s) !! taskId) as [e|] eqn:He;
      [|done].
    apply (well_formed_settle taskId e _
             (Server.clearTimeout (Server.timeout e) (Server.reconcile data s)));
      [by apply well_formed_clearTimeout|done].
  - done.
  - unfold Server.report_error. simpl.
    destruct (Server.pendingTasks s !! taskId) as [e|] eqn:He; [|done].
    apply (well_formed_settle taskId e _ (Server.clearTimeout (Server.timeout e) s));
      [by apply well_formed_clearTimeout|done].
  - destruct tabs as [tabs|]; simpl; [|done].
    destruct (TabManager.replaceAllTabs_unchecked _ _ _) as [m' returned].
    by apply (well_formed_bookkeeping s).
  - unfold Server.switch_tab. destruct (negb _); cbn [fst]; [done|].
    destruct (list_find _ _); cbn [fst]; [done|].
    apply well_formed_wait. by apply (well_formed_bookkeeping s).
  - unfold Server.execute_js. destruct (negb _); cbn [fst]; [done|].
    destruct (negb _); cbn [fst]; [done|].
    apply well_formed_wait. by apply (well_formed_bookkeeping s).
Qed.

Lemma well_formed_step e s s' :
  Server.well_formed s → Server.step e s = Some s' → Server.well_formed s'.
Proof.
  intros Hwf. destruct e as [r|h|k|d]; simpl.
  - intros [= <-]. by apply well_formed_handle.
  - unfold Server.timerFires.
    destruct (Server.timers s !! h) as [tm|]; [|done].
    case_bool_decide; [|done]. intros [= <-].
    by apply well_formed_timeoutCallback, well_formed_clearTimeout.
  - unfold Server.writeDone.
    destruct (TabManager.writeCallback _ _); [|done]. intros [= <-].
    by apply (well_formed_bookkeeping s).
  - case_bool_decide; [|done]. intros [= <-].
    by apply (well_formed_bookkeeping s).
Qed.

Lemma well_formed_run es : ∀ s s',
  Server.well_formed s → Server.run es s = Some s' → Server.well_formed s'.
Proof.
  induction es as [|e es IH]; simpl; intros s s' Hwf.
  - by intros [= <-].
  - destruct (Server.step e s) as [s1|] eqn:E; [|done].
    apply IH. by eapply well_formed_step.
Qed.

Lemma reconcile_bookkeeping data s :
  Server.bookkeeping (Server.reconcile data s) = Server.bookkeeping s.
Proof.
  unfold Server.reconcile.
  destruct (Server.carriesTab data), (Server.carriesClosedTab data); reflexivity.
Qed.

Lemma report_result_present taskId data s e :
  Server.pendingTasks s !! taskId = Some e →
  Server.settled (Server.report_result taskId data s).1
  = (Server.promise e, Server.Resolved data) :: Server.settled s
  ∧ Server.pendingTasks (Server.report_result taskId data s).1
    = delete taskId (Server.pendingTasks s)
  ∧ Server.timers (Server.report_result taskId data s).1
    = delete (Server.timeout e) (Server.timers s).
Proof.
  intros He. unfold Server.report_result. cbn [fst].
  pose proof (reconcile_bookkeeping data s) as [= Hp Ht _ _ Hs].
  rewrite Hp, He. simpl. by rewrite ?Hp, ?Ht, ?Hs.
Qed.

Lemma report_result_absent taskId data s :
  Server.pendingTasks s !! taskId = None →
  Server.bookkeeping (Server.report_result taskId data s).1 = Server.bookkeeping s.
Proof.
  intros He. unfold Server.report_result. cbn [fst].
  pose proof (reconcile_bookkeeping data s) as Hb.
  pose proof Hb as [= Hp _ _ _ _]. by rewrite Hp, He.
Qed.

(** C1. At most one terminal transition takes effect per registered wait.
    (1) In every state the server reaches, no promise of a wait has had
    its [resolve] or [reject] called more than once. (2) On an entry that
    is present, a success report, a failure report and the timeout each
    settle the entry's promise once and delete the entry. (3) Once the
    entry for a task id is gone, a success report, a failure report and a
    timeout for that id settle nothing and leave the table as it is; the
    reports are still answered with success. *)
Theorem at_most_one_terminal_transition :
  (∀ file t0 es s,
     Server.run es (Server.start file t0) = Some s →
     NoDup (Server.settled s).*1)
  ∧ (∀ s taskId e,
       Server.pendingTasks s !! taskId = Some e →
       (∀ data,
          Server.settled (Server.report_result taskId data s).1
          = (Server.promise e, Server.Resolved data) :: Server.settled s
          ∧ Server.pendingTasks (Server.report_result taskId data s).1 !! taskId = None)
       ∧ (∀ errorMsg,
            Server.settled (Server.report_error taskId errorMsg s).1
            = (Server.promise e, Server.Rejected (Server.errorMessage errorMsg))
                :: Server.settled s
            ∧ Server.pendingTasks (Server.report_error taskId errorMsg s).1 !! taskId
              = None)
       ∧ Server.settled (Server.timeoutCallback taskId s)
         = (Server.promise e, Server.Rejected "Task timed out.") :: Server.settled s
       ∧ Server.pendingTasks (Server.timeoutCallback taskId s) !! taskId = None)
  ∧ (∀ s taskId,
       Server.pendingTasks s !! taskId = None →
       (∀ data,
          Server.settled (Server.report_result taskId data s).1 = Server.settled s
          ∧ Server.pendingTasks (Server.report_result taskId data s).1
            = Server.pendingTasks s
          ∧ Server.timers (Server.report_result taskId data s).1 = Server.timers s
          ∧ (Server.report_result taskId data s).2
            = Server.mkResponse 200 Server.Success)
       ∧ (∀ errorMsg,
            Server.report_error taskId errorMsg s
            = (s, Server.mkResponse 200 Server.Success))
       ∧ Server.timeoutCallback taskId s = s
       ∧ (∀ h tm,
            Server.timers s !! h = Some tm →
            Server.forTask tm = taskId →
            (Server.due tm ≤ Server.now s)%Z →
            Server.timerFires h s = Some (Server.clearTimeout h s))).
Proof.
  split_and!.
  - intros file t0 es s Hrun.
    by destruct (well_formed_run es _ _ (well_formed_start file t0) Hrun).
  - intros s taskId e He. split_and!.
    + intros data.
      destruct (report_result_present taskId data s e He) as (Hs & Hp & _).
      split; [done|]. rewrite Hp. apply lookup_delete_eq.
    + intros errorMsg. unfold Server.report_error. rewrite He. simpl.
      split; [done|apply lookup_delete_eq].
    + unfold Server.timeoutCallback. by rewrite He.
    + unfold Server.timeoutCallback. rewrite He. simpl. apply lookup_delete_eq.
  - intros s taskId He. split_and!.
    + intros data.
      pose proof (report_result_absent taskId data s He) as [= Hp Ht _ _ Hs].
      done.
    + intros errorMsg. unfold Server.report_error. by rewrite He.
    + unfold Server.timeoutCallback. by rewrite He.
    + intros h tm Hh Htm Hdue. unfold Server.timerFires. rewrite Hh.
      rewrite bool_decide_eq_true_2 by done.
      unfold Server.timeoutCallback. simpl. by rewrite Htm, He.
Qed.

(** A wait that times out and is reported on afterwards: one settlement. *)
Example late_report_after_timeout :
  Server.settled <$>
    Server.run
      [Server.Request (Server.AddTask (JS.Str "t1") (JS.Str "close-tab")
                         JS.Undefined JS.Undefined (JS.Num 4));
       Server.Request Server.GetTask;
       Server.Tick 30000;
       Server.TimerFires 0;
       Server.Request (Server.ReportResult (JS.Str "t1")
                         (JS.Object (<["closedTabId" := JS.Num 4]> ∅)));
       Server.Request (Server.ReportError (JS.Str "t1") (JS.Str "late"))]
      (Server.start None 0)
  = Some [(0, Server.Rejected "Task timed out.")].
Proof. by vm_compute. Qed.

(** A wait that is reported on twice, after which its former timer cannot
    fire: one settlement. *)
Example double_report_settles_once :
  let data := JS.Object (<["closedTabId" := JS.Num 4]> ∅) in
  let es :=
    [Server.Request (Server.AddTask (JS.Str "t1") (JS.Str "close-tab")
                       JS.Undefined JS.Undefined (JS.Num 4));
     Server.Request (Server.ReportResult (JS.Str "t1") data);
     Server.Request (Server.ReportResult (JS.Str "t1") data);
     Server.Tick 30000] in
  Server.settled <$> Server.run es (Server.start None 0)
  = Some [(0, Server.Resolved data)]
  ∧ Server.run (es ++ [Server.TimerFires 0]) (Server.start None 0) = None.
Proof. by vm_compute. Qed.

Lemma awaiting_bookkeeping taskId p h d s s' :
  Server.bookkeeping s' = Server.bookkeeping s →
  Server.awaiting taskId p h d s → Server.awaiting taskId p h d s'.
Proof.
  unfold Server.bookkeeping, Server.awaiting. intros [= -> -> _ _ _]. done.
Qed.

Lemma awaiting_registered taskId timeoutMs s :
  Server.unused taskId s →
  Server.awaiting taskId (Server.nextPromise s) (Server.nextTimer s)
    (Server.now s + timeoutMs) (Server.waitForTaskCompletion taskId timeoutMs s).2.
Proof.
  intros Hun. split_and!; simpl.
  - apply lookup_insert_eq.
  - apply lookup_insert_eq.
  - intros h' tm [[<- <-]|[Hh Htm]]%lookup_insert_Some; [done|].
    intros Hfor. by destruct (Hun _ _ Htm).
Qed.

(** A wait registered under another task id leaves this one pending. *)
Lemma awaiting_other_wait taskId p h d other timeoutMs s :
  other ≠ taskId →
  Server.well_formed s →
  Server.awaiting taskId p h d s →
  Server.awaiting taskId p h d (Server.waitForTaskCompletion other timeoutMs s).2.
Proof.
  intros Hne Hwf (He & Hh & Honly).
  assert (h < Server.nextTimer s) as Hlt by (by eapply Server.wf_timer_bound).
  split_and!; simpl.
  - by rewrite lookup_insert_ne.
  - rewrite lookup_insert_ne by lia. done.
  - intros h' tm [[<- <-]|[Hh' Htm]]%lookup_insert_Some; [done|]. eauto.
Qed.

(** A terminal transition of another entry leaves this one pending. *)
Lemma awaiting_other_settled taskId p h d other e o s :
  other ≠ taskId →
  Server.well_formed s →
  Server.pendingTasks s !! other = Some e →
  Server.awaiting taskId p h d s →
  Server.awaiting taskId p h d
    (Server.with_pendingTasks (delete other (Server.pendingTasks s))
       (Server.settle (Server.promise e) o
          (Server.clearTimeout (Server.timeout e) s))).
Proof.
  intros Hne Hwf Hother (He & Hh & Honly).
  assert (Server.timeout e ≠ h) as Hth.
  { intros Heq. rewrite <- Heq in Hh. apply Hne. symmetry.
    exact (Server.wf_entry_timer s Hwf _ _ _ Hother Hh). }
  split_and!; simpl.
  - by rewrite lookup_delete_ne.
  - by rewrite lookup_delete_ne.
  - intros h' tm [_ Htm]%lookup_delete_Some. eauto.
Qed.

Lemma awaiting_other_timer taskId p h d h' s s' :
  h' ≠ h →
  Server.awaiting taskId p h d s →
  Server.timerFires h' s = Some s' →
  Server.awaiting taskId p h d s'.
Proof.
  intros Hne (He & Hh & Honly). unfold Server.timerFires.
  destruct (Server.timers s !! h') as [tm|] eqn:Htm; [|done].
  case_bool_decide; [|done]. intros [= <-].
  assert (Server.forTask tm ≠ taskId) as Hfor by (intros ?; apply Hne; eauto).
  unfold Server.timeoutCallback. simpl.
  destruct (Server.pendingTasks s !! Server.forTask tm) as [e|] eqn:Hother.
  - split_and!; simpl.
    + by rewrite lookup_delete_ne.
    + by rewrite lookup_delete_ne.
    + intros h'' tm' [_ Htm']%lookup_delete_Some. eauto.
  - split_and!; simpl.
    + done.
    + by rewrite lookup_delete_ne.
    + intros h'' tm' [_ Htm']%lookup_delete_Some. eauto.
Qed.

Lemma awaiting_step taskId p h d e s s' :
  Server.well_formed s →
  Server.awaiting taskId p h d s →
  ¬ Server.reports taskId e →
  ¬ Server.registers taskId e s →
  e ≠ Server.TimerFires h →
  Server.step e s = Some s' →
  Server.awaiting taskId p h d s'.
Proof.
  intros Hwf Haw Hrep Hreg Hfire.
  destruct e as [r|h'|k|dt]; simpl.
  - intros [= <-]. destruct r; simpl in *.
    + unfold Server.add_task.
      destruct (JS.includes Server.validCommands command) eqn:Hc; cbn [negb fst];
        [|done].
      apply awaiting_other_wait.
      * intros Heq. apply Hreg. by split.
      * by apply (well_formed_bookkeeping s).
      * by apply (awaiting_bookkeeping _ _ _ _ s).
    + unfold Server.get_task.
      destruct (TaskQueue.getNextTask _) as [[task|] q]; simpl;
        by apply (awaiting_bookkeeping _ _ _ _ s).
    + unfold Server.report_result. cbn [fst].
      pose proof (reconcile_bookkeeping data s) as Hb.
      pose proof (awaiting_bookkeeping _ _ _ _ _ _ Hb Haw) as Haw1.
      pose proof (well_formed_reconcile data s Hwf) as Hwf1.
      destruct (Server.pendingTasks (Server.reconcile data s) !! taskId0)
        as [e|] eqn:He; [|done].
      by apply awaiting_other_settled.
    + done.
    + unfold Server.report_error. cbn [fst].
      destruct (Server.pendingTasks s !! taskId0) as [e|] eqn:He; [|done].
      by apply awaiting_other_settled.
    + destruct tabs as [tabs|]; simpl; [|done].
      destruct (TabManager.replaceAllTabs_unchecked _ _ _) as [m' returned].
      by apply (awaiting_bookkeeping _ _ _ _ s).
    + revert Hreg. unfold Server.switch_tab.
      destruct (negb _); cbn [fst snd]; [done|].
      destruct (list_find _ _); cbn [fst snd]; [done|]. intros Hreg.
      apply awaiting_other_wait.
      * intros Heq. apply Hreg. by split.
      * by apply (well_formed_bookkeeping s).
      * by apply (awaiting_bookkeeping _ _ _ _ s).
    + revert Hreg. unfold Server.execute_js.
      destruct (negb _); cbn [fst snd]; [done|].
      destruct (negb _); cbn [fst snd]; [done|]. intros Hreg.
      apply awaiting_other_wait.
      * intros Heq. apply Hreg. by split.
      * by apply (well_formed_bookkeeping s).
      * by apply (awaiting_bookkeeping _ _ _ _ s).
  - apply awaiting_other_timer; [|done]. congruence.
  - unfold Server.writeDone.
    destruct (TabManager.writeCallback _ _); [|done]. intros [= <-].
    by apply (awaiting_bookkeeping _ _ _ _ s).
  - case_bool_decide; [|done]. intros [= <-].
    by apply (awaiting_bookkeeping _ _ _ _ s).
Qed.

Lemma awaiting_run taskId p h d es : ∀ s s',
  Server.well_formed s →
  Server.awaiting taskId p h d s →
  Server.undisturbed taskId h es s →
  Server.run es s = Some s' →
  Server.well_formed s' ∧ Server.awaiting taskId p h d s'.
Proof.
  induction es as [|e es IH]; simpl; intros s s' Hwf Haw Hun.
  - by intros [= <-].
  - destruct Hun as (Hrep & Hreg & Hfire & Hun).
    destruct (Server.step e s) as [s1|] eqn:E; [|done].
    apply IH; [by eapply well_formed_step|by eapply awaiting_step|done].
Qed.

(** What the code does for a wait whose task id is its own. A wait
    registered with the default deadline of 30000 ms under a
    task id that no armed timer names, on which no report arrives and
    under whose id no other wait is registered, stays pending and
    unsettled; its timer cannot fire before the deadline; at or after the
    deadline the timer fires, which rejects the wait with the timeout
    error, and right after that the table has no entry for the task id and
    the timer is spent. *)
Theorem unreported_wait_times_out
    (taskId : JS.value) (s0 : Server.t) (es : list Server.event) (s : Server.t) :
  Server.well_formed s0 →
  Server.unused taskId s0 →
  Server.run es (Server.waitForTaskCompletion taskId Server.defaultTimeoutMs s0).2
  = Some s →
  Server.undisturbed taskId (Server.nextTimer s0) es
    (Server.waitForTaskCompletion taskId Server.defaultTimeoutMs s0).2 →
  (Server.waitForTaskCompletion taskId Server.defaultTimeoutMs s0).1
  = Server.nextPromise s0
  ∧ Server.pendingTasks s !! taskId
    = Some (Server.mkPending (Server.nextPromise s0) (Server.nextTimer s0))
  ∧ (Server.nextPromise s0 ∉ (Server.settled s).*1)
  ∧ ((Server.now s < Server.now s0 + 30000)%Z →
     Server.timerFires (Server.nextTimer s0) s = None)
  ∧ ((Server.now s0 + 30000 ≤ Server.now s)%Z →
     ∃ s', Server.timerFires (Server.nextTimer s0) s = Some s'
           ∧ Server.settled s'
             = (Server.nextPromise s0, Server.Rejected "Task timed out.")
                 :: Server.settled s
           ∧ Server.pendingTasks s' !! taskId = None
           ∧ Server.pendingTasks s' = delete taskId (Server.pendingTasks s)
           ∧ Server.timers s' !! Server.nextTimer s0 = None
           ∧ Server.taskQueue s' = Server.taskQueue s
           ∧ Server.tabManager s' = Server.tabManager s).
Proof.
  intros Hwf0 Hunused Hrun Hund.
  destruct (awaiting_run taskId (Server.nextPromise s0) (Server.nextTimer s0)
              (Server.now s0 + Server.defaultTimeoutMs) es _ s
              (well_formed_wait taskId _ s0 Hwf0)
              (awaiting_registered taskId _ s0 Hunused) Hund Hrun)
    as (Hwf & He & Hh & Honly).
  split_and!.
  - done.
  - done.
  - exact (Server.wf_entry_unsettled s Hwf _ _ He).
  - intros Hearly. unfold Server.timerFires. rewrite Hh. simpl.
    rewrite bool_decide_eq_false_2; [done|]. unfold Server.defaultTimeoutMs. lia.
  - intros Hdue. unfold Server.timerFires. rewrite Hh. simpl.
    rewrite bool_decide_eq_true_2 by (unfold Server.defaultTimeoutMs; lia).
    eexists. split; [reflexivity|].
    unfold Server.timeoutCallback. simpl. rewrite He. simpl.
    split_and!; try done.
    + apply lookup_delete_eq.
    + apply lookup_delete_eq.
Qed.

(** The timeout on a fresh server: the wait of task t1 is registered, a poll is
    answered, 30000 ms pass without a report, and the timer fires. *)
Lemma unreported_wait_times_out_witness :
  let s0 := Server.start None 0 in
  let es := [Server.Request Server.GetTask; Server.Tick 30000] in
  ∃ s s',
    Server.run es (Server.waitForTaskCompletion (JS.Str "t1") 30000 s0).2 = Some s
    ∧ Server.timerFires 0 s = Some s'
    ∧ Server.settled s' = [(0, Server.Rejected "Task timed out.")]
    ∧ Server.pendingTasks s' !! JS.Str "t1" = None.
Proof.
  cbv zeta.
  destruct (Server.run [Server.Request Server.GetTask; Server.Tick 30000]
              (Server.waitForTaskCompletion (JS.Str "t1") 30000
                 (Server.start None 0)).2) as [s|] eqn:Hrun; [|discriminate Hrun].
  assert (Server.undisturbed (JS.Str "t1") (Server.nextTimer (Server.start None 0))
            [Server.Request Server.GetTask; Server.Tick 30000]
            (Server.waitForTaskCompletion (JS.Str "t1") Server.defaultTimeoutMs
               (Server.start None 0)).2) as Hund.
  { simpl. naive_solver. }
  assert (Server.unused (JS.Str "t1") (Server.start None 0)) as Hunused.
  { intros h tm Hh. discriminate Hh. }
  destruct (unreported_wait_times_out (JS.Str "t1") (Server.start None 0)
              [Server.Request Server.GetTask; Server.Tick 30000] s
              (well_formed_start None 0) Hunused Hrun Hund)
    as (_ & _ & _ & _ & Hfires).
  assert (Server.now (Server.start None 0) + 30000 ≤ Server.now s)%Z as Hdue.
  { injection Hrun as <-. simpl. lia. }
  destruct (Hfires Hdue) as (s' & Hs' & Hset & Hgone & _).
  exists s, s'. split; [reflexivity|]. split; [exact Hs'|].
  split; [|exact Hgone].
  rewrite Hset. injection Hrun as <-. reflexivity.
Defined.

(** ** Tab/window store: which operations keep the membership invariant *)

Lemma consistent_membership_invariant m :
  TabManager.consistent m → TabManager.membership_invariant m.
Proof.
  intros (_ & Hnd & Hids & Htabs & _). split_and!.
  - apply Forall_forall. intros w Hw. apply Forall_forall. intros id Hid.
    apply (Htabs w Hw) in Hid.
    apply list_elem_of_fmap in Hid as (tab & [= -> Hwid] & Hin).
    apply Exists_exists. by exists tab.
  - apply Forall_forall. intros tab Hin.
    assert (Tab.windowId tab ∈ Window.windowId <$> TabManager.openedWindows m) as Hw.
    { apply Hids. rewrite <- list_fmap_compose.
      by apply (list_elem_of_fmap_2 (snd ∘ TabManager.pairOfTab)). }
    apply list_elem_of_fmap in Hw as (w & Hwid & Hw).
    apply Exists_exists. exists w. split_and!; [done..|].
    apply (Htabs w Hw). rewrite <- Hwid.
    by apply (list_elem_of_fmap_2 TabManager.pairOfTab).
  - apply Forall_forall. intros w Hw Hempty.
    assert (Window.windowId w ∈ (TabManager.pairOfTab <$> TabManager.openedTabs m).*2)
      as Hin by (by apply Hids, list_elem_of_fmap_2).
    apply list_elem_of_fmap in Hin as ([id wid] & Hwid & Hin). simpl in Hwid. subst wid.
    apply (Htabs w Hw) in Hin. rewrite Hempty in Hin. by apply elem_of_nil in Hin.
Qed.

(** A full replacement by a list without repeated tab ids leaves a
    consistent store, whatever the store was. *)
Lemma replaceAllTabs_consistent tabs now m :
  NoDup (SyncedTab.tabId <$> tabs) →
  TabManager.consistent (TabManager.replaceAllTabs tabs now m).
Proof.
  intros Hnd. unfold TabManager.consistent.
  destruct (replaceAllTabs_content tabs now m) as [Ht _]. rewrite Ht.
  rewrite <- !list_fmap_compose. split; [done|].
  apply replaceAllTabs_grouped.
Qed.

(** An upsert of a tab that is not tracked keeps the store consistent. *)
Lemma addOrUpdateTab_new_consistent tabId windowId url now m :
  tabId ∉ Tab.tabId <$> TabManager.openedTabs m →
  TabManager.consistent m →
  TabManager.consistent (TabManager.addOrUpdateTab tabId windowId url now m).
Proof.
  intros Hnew [Hnd Hg]. unfold TabManager.consistent, TabManager.addOrUpdateTab.
  rewrite openedTabs_scheduleSave, openedWindows_scheduleSave.
  rewrite associateTabWithWindow_attach. simpl.
  destruct (list_find _ (TabManager.openedTabs m)) as [[i tab]|] eqn:Hf.
  { apply list_find_Some in Hf as (Hi & Htab & _). exfalso. apply Hnew.
    rewrite <- Htab. eapply list_elem_of_fmap_2, list_elem_of_lookup_2; eauto. }
  simpl. rewrite !fmap_app. simpl. split.
  - apply NoDup_app. split_and!; [done| |apply NoDup_singleton].
    intros x Hx ->%list_elem_of_singleton. done.
  - by apply attach_grouped.
Qed.

(** An upsert of a tracked tab that keeps its window id keeps the store
    consistent: only the url and the time of update change. *)
Lemma addOrUpdateTab_same_window_consistent tab url now m :
  tab ∈ TabManager.openedTabs m →
  TabManager.consistent m →
  TabManager.consistent
    (TabManager.addOrUpdateTab (Tab.tabId tab) (Tab.windowId tab) url now m).
Proof.
  intros Hin [Hnd Hg]. unfold TabManager.consistent, TabManager.addOrUpdateTab.
  rewrite openedTabs_scheduleSave, openedWindows_scheduleSave.
  rewrite associateTabWithWindow_attach. simpl.
  destruct (list_find _ (TabManager.openedTabs m)) as [[i tab']|] eqn:Hf.
  2:{ apply list_find_None in Hf. eapply Forall_forall in Hf; eauto. done. }
  apply list_find_Some in Hf as (Hi & Htab & _).
  assert (tab' = tab) as ->.
  { eapply (NoDup_fmap_key Tab.tabId); eauto. by eapply list_elem_of_lookup_2. }
  simpl.
  assert (∀ f : Tab.t → JS.value * JS.value,
            f (Tab.mk (Tab.tabId tab) (Tab.windowId tab) url (Tab.openedAt tab) now)
            = f tab →
            f <$> <[i := Tab.mk (Tab.tabId tab) (Tab.windowId tab) url
                           (Tab.openedAt tab) now]> (TabManager.openedTabs m)
            = f <$> TabManager.openedTabs m) as Hsame.
  { intros f Hf. rewrite list_fmap_insert, Hf. apply list_insert_id.
    by rewrite list_lookup_fmap, Hi. }
  assert (Tab.tabId <$> <[i := Tab.mk (Tab.tabId tab) (Tab.windowId tab) url
                           (Tab.openedAt tab) now]> (TabManager.openedTabs m)
          = Tab.tabId <$> TabManager.openedTabs m) as Hids.
  { rewrite list_fmap_insert. apply list_insert_id. by rewrite list_lookup_fmap, Hi. }
  rewrite Hids, (Hsame TabManager.pairOfTab eq_refl). split; [done|].
  (* the window of the tab exists and lists it: nothing to attach *)
  destruct Hg as (Hndw & Hwids & Htabs & Hndt).
  assert (Tab.windowId tab ∈ Window.windowId <$> TabManager.openedWindows m) as Hw.
  { apply Hwids. rewrite <- list_fmap_compose.
    by apply (list_elem_of_fmap_2 (snd ∘ TabManager.pairOfTab)). }
  apply list_elem_of_fmap in Hw as (w & Hwid & Hw).
  unfold TabManager.attach.
  destruct (list_find _ (TabManager.openedWindows m)) as [[j w']|] eqn:Hfw.
  2:{ apply list_find_None in Hfw. eapply Forall_forall in Hfw; eauto. done. }
  apply list_find_Some in Hfw as (Hj & Hw' & _).
  assert (w' = w) as ->.
  { eapply (NoDup_fmap_key Window.windowId); eauto; [|congruence].
    by eapply list_elem_of_lookup_2. }
  unfold JS.includes. rewrite bool_decide_eq_true_2; [done|].
  apply (Htabs w Hw). rewrite <- Hwid.
  by apply (list_elem_of_fmap_2 TabManager.pairOfTab).
Qed.

Lemma grouped_same_pairs pairs1 pairs2 windows :
  (∀ q, q ∈ pairs1 ↔ q ∈ pairs2) →
  TabManager.grouped pairs1 windows → TabManager.grouped pairs2 windows.
Proof.
  intros Hsame (Hnd & Hids & Htabs & Hndt).
  assert (∀ wid, wid ∈ pairs1.*2 ↔ wid ∈ pairs2.*2) as Hsnd.
  { intros wid. rewrite !list_elem_of_fmap.
    split; intros (q & -> & Hq); exists q; split; auto; by apply Hsame. }
  split_and!; [done| | |done].
  - intros wid. by rewrite Hids.
  - intros w Hw id. by rewrite (Htabs w Hw).
Qed.

(** Taking the pair of a tab out of the grouping: the tab id is filtered
    out of the tab list of its window, and the window record is dropped
    when that leaves it empty. *)
Lemma detach_grouped pairs tabId l1 (w : Window.t) l2 :
  TabManager.grouped ((tabId, Window.windowId w) :: pairs) (l1 ++ w :: l2) →
  (∀ q, q ∈ pairs → q.1 ≠ tabId) →
  let remaining := filter (λ id, id ≠ tabId) (Window.tabs w) in
  TabManager.grouped pairs
    (if bool_decide (length remaining = 0) then l1 ++ l2
     else l1 ++ Window.mk (Window.windowId w) remaining (Window.openedAt w) :: l2).
Proof.
  intros (Hnd & Hids & Htabs & Hndt) Hother remaining.
  rewrite fmap_app in Hnd. simpl in Hnd.
  pose proof Hnd as (Hnd1 & Hdisj & Hnd2')%NoDup_app.
  apply NoDup_cons in Hnd2' as [Hw2 Hnd2].
  assert ((Window.windowId w) ∉ Window.windowId <$> l1) as Hw1.
  { intros Hin. apply (Hdisj _ Hin). by left. }
  assert (NoDup (Window.windowId <$> l1 ++ l2)) as Hnd12.
  { rewrite fmap_app. apply NoDup_app. split_and!; [done| |done].
    intros x Hx Hx2. apply (Hdisj _ Hx). by right. }
  assert (∀ w', w' ∈ l1 ++ l2 → w' ∈ l1 ++ w :: l2 ∧ Window.windowId w' ≠ (Window.windowId w)) as Hrest.
  { intros w' [Hw'|Hw']%elem_of_app; split.
    - apply elem_of_app. by left.
    - intros Heq. apply Hw1. rewrite <- Heq. by apply list_elem_of_fmap_2.
    - apply elem_of_app. right. by right.
    - intros Heq. apply Hw2. rewrite <- Heq. by apply list_elem_of_fmap_2. }
  assert (w ∈ l1 ++ w :: l2) as Hw by (apply elem_of_app; right; by left).
  assert (∀ id, id ∈ remaining ↔ (id, (Window.windowId w)) ∈ pairs) as Hrem.
  { intros id. unfold remaining. rewrite list_elem_of_filter, (Htabs w Hw id).
    rewrite elem_of_cons. split.
    - intros [Hne [[= ?]|?]]; done.
    - intros Hin. split; [exact (Hother _ Hin)|by right]. }
  assert (∀ w' id, Window.windowId w' ≠ (Window.windowId w) →
            (id, Window.windowId w') ∈ (tabId, (Window.windowId w)) :: pairs
            ↔ (id, Window.windowId w') ∈ pairs) as Hdrop.
  { intros w' id Hne. rewrite elem_of_cons. split; [|by right].
    intros [[= _ ?]|?]; done. }
  assert (∀ wid', wid' ∈ pairs.*2 → wid' ≠ (Window.windowId w) ∨ remaining ≠ []) as Hsnd.
  { intros wid' ([id wid''] & -> & Hin)%list_elem_of_fmap. simpl.
    destruct (decide (wid'' = (Window.windowId w))) as [->|]; [right|by left].
    apply Hrem in Hin. intros Hnil. rewrite Hnil in Hin. by apply elem_of_nil in Hin. }
  case_bool_decide as Hlen.
  - apply nil_length_inv in Hlen.
    split_and!.
    + done.
    + intros wid'. split.
      * intros Hin.
        assert (wid' ≠ (Window.windowId w) ∧ wid' ∈ Window.windowId <$> l1 ++ w :: l2) as [Hne Hin'].
        { apply list_elem_of_fmap in Hin as (w' & -> & Hw').
          destruct (Hrest _ Hw') as [? ?]. split; [done|].
          by apply list_elem_of_fmap_2. }
        apply Hids in Hin'. simpl in Hin'. apply elem_of_cons in Hin' as [?|?]; done.
      * intros Hin. destruct (Hsnd _ Hin) as [Hne|?]; [|done].
        assert (wid' ∈ Window.windowId <$> l1 ++ w :: l2) as Hin'.
        { apply Hids. simpl. by right. }
        rewrite fmap_app, elem_of_app in Hin'. simpl in Hin'.
        rewrite elem_of_cons in Hin'.
        rewrite fmap_app, elem_of_app. destruct Hin' as [?|[?|?]]; auto. done.
    + intros w' Hw' id. destruct (Hrest _ Hw') as [Hin Hne].
      by rewrite (Htabs w' Hin id), Hdrop.
    + rewrite Forall_app in Hndt. destruct Hndt as [H1 [_ H2]%Forall_cons].
      apply Forall_app. done.
  - assert (remaining ≠ []) as Hne by (intros Hnil; by rewrite Hnil in Hlen).
    assert (Window.windowId <$>
              l1 ++ Window.mk (Window.windowId w) remaining (Window.openedAt w) :: l2
            = Window.windowId <$> l1 ++ w :: l2) as Hsame.
    { by rewrite !fmap_app. }
    split_and!.
    + rewrite Hsame, fmap_app. done.
    + intros wid'. rewrite Hsame, Hids. simpl. rewrite elem_of_cons.
      split; [|by right]. intros [->|?]; [|done].
      destruct remaining as [|id rest] eqn:Hr; [done|].
      assert ((id, (Window.windowId w)) ∈ pairs) as Hin by (apply Hrem; by left).
      by apply (list_elem_of_fmap_2 snd) in Hin.
    + intros w' Hw' id.
      apply elem_of_app in Hw' as [Hw'|[->|Hw']%elem_of_cons].
      * destruct (Hrest w') as [Hin Hne']; [apply elem_of_app; by left|].
        by rewrite (Htabs w' Hin id), Hdrop.
      * simpl. apply Hrem.
      * destruct (Hrest w') as [Hin Hne']; [apply elem_of_app; by right|].
        by rewrite (Htabs w' Hin id), Hdrop.
    + rewrite Forall_app in Hndt. destruct Hndt as [H1 [Hw' H2]%Forall_cons].
      apply Forall_app. split; [done|]. apply Forall_cons. split; [|done].
      simpl. by apply NoDup_filter.
Qed.

Lemma consistent_scheduleSave m :
  TabManager.consistent m → TabManager.consistent (TabManager.scheduleSave m).
Proof.
  unfold TabManager.consistent.
  by rewrite openedTabs_scheduleSave, openedWindows_scheduleSave.
Qed.

(** A removal keeps the store consistent. *)
Lemma removeClosedTab_consistent tabId m :
  TabManager.consistent m →
  TabManager.consistent (TabManager.removeClosedTab tabId m).
Proof.
  intros [Hnd Hg]. unfold TabManager.removeClosedTab.
  destruct (list_find _ (TabManager.openedTabs m)) as [[i tab]|] eqn:Hf; [|done].
  apply list_find_split in Hf as (t1 & t2 & Hsplit & _ & Htab & _ & _ & Hdel).
  apply consistent_scheduleSave. simpl. rewrite Hdel.
  rewrite Hsplit in Hnd, Hg.
  assert (NoDup (Tab.tabId <$> t1 ++ t2)
          ∧ ∀ q, q ∈ TabManager.pairOfTab <$> t1 ++ t2 → q.1 ≠ tabId) as [Hnd' Hother].
  { rewrite fmap_app in Hnd. simpl in Hnd.
    pose proof Hnd as (Hnd1 & Hdisj & Hnd2')%NoDup_app.
    apply NoDup_cons in Hnd2' as [Hw2 Hnd2]. split.
    - rewrite fmap_app. apply NoDup_app. split_and!; [done| |done].
      intros x Hx Hx2. apply (Hdisj _ Hx). by right.
    - intros q (tab' & -> & [Hin|Hin]%elem_of_app)%list_elem_of_fmap; simpl.
      + intros Heq. apply (Hdisj (Tab.tabId tab')); [by apply list_elem_of_fmap_2|].
        rewrite Heq, <- Htab. by left.
      + intros Heq. apply Hw2. rewrite Htab, <- Heq. by apply list_elem_of_fmap_2. }
  assert (TabManager.grouped
            ((tabId, Tab.windowId tab) :: (TabManager.pairOfTab <$> t1 ++ t2))
            (TabManager.openedWindows m)) as Hg'.
  { eapply grouped_same_pairs; [|exact Hg].
    intros q. rewrite !fmap_app, !elem_of_app. simpl.
    rewrite !elem_of_cons. unfold TabManager.pairOfTab at 2. rewrite Htab.
    rewrite elem_of_app. tauto. }
  clear Hg.
  assert (Tab.windowId tab ∈ Window.windowId <$> TabManager.openedWindows m) as Hw.
  { destruct Hg' as (_ & Hids & _). apply Hids. simpl. by left. }
  destruct (list_find _ (TabManager.openedWindows m)) as [[j w]|] eqn:Hfw.
  2:{ apply list_find_None in Hfw.
      apply list_elem_of_fmap in Hw as (w & Hwid & Hw).
      eapply Forall_forall in Hfw; eauto. done. }
  apply list_find_split in Hfw as (l1 & l2 & Hws & Hlen & Hwid & Hl1 & Hins & Hdelw).
  rewrite Hins. rewrite Hws, <- Hwid in Hg'.
  pose proof (detach_grouped _ tabId l1 w l2 Hg' Hother) as Hd. simpl in Hd.
  rewrite <- Hwid. rewrite <- Hwid in Hl1.
  case_bool_decide as Hempty.
  - rewrite (list_find_app_cons _ l1 l2) by done.
    split; simpl; [done|]. by rewrite delete_middle.
  - by split.
Qed.

Lemma attach_keeps_others tabId windowId now windows (w : Window.t) :
  w ∈ windows → Window.windowId w ≠ windowId →
  w ∈ TabManager.attach tabId windowId now windows.
Proof.
  intros Hw Hne. unfold TabManager.attach.
  destruct (list_find _ windows) as [[i w0]|] eqn:Hf.
  - destruct (JS.includes _ _); [done|].
    apply list_find_split in Hf as (l1 & l2 & -> & _ & Hw0 & _ & Hins & _).
    rewrite Hins.
    apply elem_of_app in Hw as [Hw|[->|Hw]%elem_of_cons].
    + apply elem_of_app. by left.
    + done.
    + apply elem_of_app. right. by right.
  - apply elem_of_app. by left.
Qed.

(** The defect behind C5 in general: in a consistent store, an upsert that
    gives a tracked tab another window id leaves the tab in the tab list
    of its former window, so the membership invariant fails. *)
Lemma addOrUpdateTab_moved_breaks_membership tab windowId url now m :
  TabManager.consistent m →
  tab ∈ TabManager.openedTabs m →
  windowId ≠ Tab.windowId tab →
  ¬ TabManager.membership_invariant
      (TabManager.addOrUpdateTab (Tab.tabId tab) windowId url now m).
Proof.
  intros [Hnd (Hndw & Hwids & Htabs & Hndt)] Hin Hne [Hbad _].
  unfold TabManager.windows_list_tracked_tabs, TabManager.addOrUpdateTab in Hbad.
  rewrite openedTabs_scheduleSave, openedWindows_scheduleSave in Hbad.
  rewrite associateTabWithWindow_attach in Hbad. simpl in Hbad.
  destruct (list_find _ (TabManager.openedTabs m)) as [[i tab']|] eqn:Hf.
  2:{ exfalso. apply list_find_None in Hf. rewrite Forall_forall in Hf.
      by apply (Hf tab Hin). }
  pose proof Hf as (Hi & Htab & _)%list_find_Some.
  assert (tab' = tab) as ->.
  { eapply (NoDup_fmap_key Tab.tabId); eauto. by eapply list_elem_of_lookup_2. }
  apply list_find_split in Hf as (t1 & t2 & Hsplit & _ & _ & _ & Hins & _).
  simpl in Hbad. rewrite Hins in Hbad.
  (* the former window still lists the tab *)
  assert (Tab.windowId tab ∈ Window.windowId <$> TabManager.openedWindows m) as Hw.
  { apply Hwids. rewrite <- list_fmap_compose.
    by apply (list_elem_of_fmap_2 (snd ∘ TabManager.pairOfTab)). }
  apply list_elem_of_fmap in Hw as (w & Hwid & Hw).
  assert (Tab.tabId tab ∈ Window.tabs w) as Hlisted.
  { apply (Htabs w Hw). rewrite <- Hwid.
    by apply (list_elem_of_fmap_2 TabManager.pairOfTab). }
  assert (w ∈ TabManager.attach (Tab.tabId tab) windowId now
                (TabManager.openedWindows m)) as Hw'.
  { apply attach_keeps_others; [done|congruence]. }
  eapply Forall_forall in Hbad; [|exact Hw'].
  eapply Forall_forall in Hbad; [|exact Hlisted].
  apply Exists_exists in Hbad as (tab'' & Hin'' & Hid & Hwin).
  rewrite Hsplit, fmap_app in Hnd. simpl in Hnd.
  apply NoDup_app in Hnd as (_ & Hdisj & [Ht2 _]%NoDup_cons).
  apply elem_of_app in Hin'' as [Hin''|[->|Hin'']%elem_of_cons].
  - apply (Hdisj (Tab.tabId tab'')); [by apply list_elem_of_fmap_2|].
    rewrite Hid. by left.
  - simpl in Hwin. congruence.
  - apply Ht2. rewrite <- Hid. by apply list_elem_of_fmap_2.
Qed.

(** ** Instances of the conjunctive theorems *)

(** C1 on a run in which the wait of task t1 times out and is then
    reported on twice. *)
Lemma at_most_one_terminal_transition_witness :
  let es :=
    [Server.Request (Server.AddTask (JS.Str "t1") (JS.Str "close-tab")
                       JS.Undefined JS.Undefined (JS.Num 4));
     Server.Tick 30000;
     Server.TimerFires 0;
     Server.Request (Server.ReportResult (JS.Str "t1") (JS.Prim JS.Null))] in
  ∃ s, Server.run es (Server.start None 0) = Some s
       ∧ NoDup (Server.settled s).*1
       ∧ Server.settled s = [(0, Server.Rejected "Task timed out.")]
       ∧ Server.report_error (JS.Str "t1") (JS.Str "late") s
         = (s, Server.mkResponse 200 Server.Success).
Proof.
  cbv zeta.
  destruct (Server.run
    [Server.Request (Server.AddTask (JS.Str "t1") (JS.Str "close-tab")
                       JS.Undefined JS.Undefined (JS.Num 4));
     Server.Tick 30000;
     Server.TimerFires 0;
     Server.Request (Server.ReportResult (JS.Str "t1") (JS.Prim JS.Null))]
    (Server.start None 0)) as [s|] eqn:Hrun; [|discriminate Hrun].
  exists s. split; [reflexivity|].
  split; [exact (proj1 at_most_one_terminal_transition None 0%Z _ s Hrun)|].
  assert (Server.pendingTasks s !! JS.Str "t1" = None) as Hgone.
  { injection Hrun as <-. reflexivity. }
  split; [injection Hrun as <-; reflexivity|].
  exact (proj1 (proj2 (proj2 (proj2 at_most_one_terminal_transition)
                         s (JS.Str "t1") Hgone)) (JS.Str "late")).
Defined.

(** Coalescing on a burst: one upsert starts a write; an upsert and a removal
    arrive during it; its completion starts one write, of the latest
    arrays. *)
Lemma writes_are_coalesced_witness :
  let m := TabManager.addOrUpdateTab (JS.Num 1) (JS.Num 10) (JS.Str "a") 0
             (TabManager.new None) in
  let es := [TabManager.Upsert (JS.Num 2) (JS.Num 10) (JS.Str "b") 1;
             TabManager.Remove (JS.Num 1)] in
  ∃ m' m'',
    TabManager.run es m = Some m'
    ∧ TabManager.writeCallback 0 m' = Some m''
    ∧ TabManager.inFlight m'' = [TabManager.currentDocument m']
    ∧ TabManager.currentDocument m'
      = TabManager.mkDocument [Tab.mk (JS.Num 2) (JS.Num 10) (JS.Str "b") 1 1]
          [Window.mk (JS.Num 10) [JS.Num 2] 0]
    ∧ length (TabManager.written m'') = 2.
Proof.
  cbv zeta.
  destruct (proj1 (proj2 (proj2 writes_are_coalesced))
              (TabManager.addOrUpdateTab (JS.Num 1) (JS.Num 10) (JS.Str "a") 0
                 (TabManager.new None))
              (TabManager.mkDocument [Tab.mk (JS.Num 1) (JS.Num 10) (JS.Str "a") 0 0]
                 [Window.mk (JS.Num 10) [JS.Num 1] 0])
              [TabManager.Upsert (JS.Num 2) (JS.Num 10) (JS.Str "b") 1;
               TabManager.Remove (JS.Num 1)]
              eq_refl eq_refl eq_refl)
    as (m' & m'' & Hrun & _ & _ & Hcb & _ & _ & _ & Hif).
  { repeat constructor. }
  exists m', m''. split; [exact Hrun|]. split; [exact Hcb|].
  pose proof Hrun as Hm'. vm_compute in Hm'. injection Hm' as Hm'.
  rewrite decide_True in Hif by (rewrite <- Hm'; vm_compute; repeat constructor).
  destruct Hif as (Hw & Hf & _).
  split; [exact Hf|]. split; [by rewrite <- Hm'|]. rewrite Hw. reflexivity.
Defined.

(** C6 on the example of the specification. *)
Lemma replaceAllTabs_last_write_wins_witness :
  let first := [SyncedTab.mk (JS.Num 1) (JS.Num 1) (JS.Str "a")] in
  let second := [SyncedTab.mk (JS.Num 2) (JS.Num 2) (JS.Str "b")] in
  TabManager.openedTabs
    (TabManager.replaceAllTabs second 20
       (TabManager.replaceAllTabs first 10 (TabManager.new None)))
  = [Tab.mk (JS.Num 2) (JS.Num 2) (JS.Str "b") 20 20].
Proof.
  cbv zeta.
  rewrite (proj1 (proj1 (replaceAllTabs_last_write_wins
             [SyncedTab.mk (JS.Num 2) (JS.Num 2) (JS.Str "b")] 20
             (TabManager.new None)) _)).
  reflexivity.
Defined.

(** C8 on a fresh server: /switch-tab enqueues the switch-tab command. *)
Lemma add_task_accepts_exactly_validCommands_witness :
  (Server.switch_tab (JS.Num 7) (Server.start None 0)).2 = None
  ∧ Server.taskQueue (Server.switch_tab (JS.Num 7) (Server.start None 0)).1
    = [Task.mk (JS.Str "switch-tab-7-0") (JS.Str "switch-tab") (JS.Num 7)
         JS.Undefined JS.Undefined].
Proof.
  destruct (proj2 (proj2 (add_task_accepts_exactly_validCommands
              JS.Undefined (JS.Str "switch-tab") JS.Undefined JS.Undefined
              (JS.Num 7) (Server.start None 0))) 7%Z eq_refl) as [Hnone _].
  split; [exact Hnone|reflexivity].
Defined.

(** C4 on a report request: it leaves the queue alone. *)
Lemma task_queue_is_fifo_witness :
  ∃ new,
    Server.taskQueue
      (Server.handle (Server.ReportError (JS.Str "t") (JS.Str "e"))
         (Server.start None 0)).1
    = Server.taskQueue (Server.start None 0) ++ new
    ∧ length new ≤ 1.
Proof.
  apply (proj2 (proj2 (proj2 (proj2 (proj2 (proj2 task_queue_is_fifo)))))).
  discriminate.
Defined.

(** ** Remarks on what lies outside the theorems *)

(** A wait that is rejected by its timer is answered with status 500 and
    the timeout message. *)
Example timeout_is_answered_with_500 (task : Task.t) :
  Server.completionResponse task (Server.Rejected "Task timed out.")
  = Server.mkResponse 500 (Server.Failure "Task timed out.").
Proof. reflexivity. Qed.

(** [clearAll] starts its write without looking at [saveInProgress]: called
    during a write it puts a second one in flight. It is no operation of
    the store's contract and index.js never calls it, which is why
    [writes_are_coalesced] ranges over the other mutators. *)
Example clearAll_bypasses_scheduleSave :
  let m := TabManager.addOrUpdateTab (JS.Num 1) (JS.Num 10) (JS.Str "a") 0
             (TabManager.new None) in
  length (TabManager.inFlight m) = 1
  ∧ length (TabManager.inFlight (TabManager.clearAll m)) = 2.
Proof. by vm_compute. Qed.

(** Task ids are unique in the data model, and [unreported_wait_times_out]
    assumes it; the code does not ensure it. When two submissions share an
    id (here both name it themselves), the second entry replaces the
    first: the timer of the first wait rejects the promise of the second,
    10 ms before the deadline of the second, and the promise of the first
    is never settled. *)
Example waits_under_one_task_id :
  let submit := Server.Request (Server.AddTask (JS.Str "t") (JS.Str "close-tab")
                                  JS.Undefined JS.Undefined (JS.Num 4)) in
  (λ s, (Server.now s, Server.settled s, Server.pendingTasks s !! JS.Str "t")) <$>
    Server.run [submit; Server.Tick 10; submit; Server.Tick 29990;
                Server.TimerFires 0; Server.Tick 10; Server.TimerFires 1]
      (Server.start None 0)
  = Some (30010%Z, [(1, Server.Rejected "Task timed out.")], None).
Proof. by vm_compute. Qed.


(** * Further properties of the code *)

(** ** managers/TaskQueue.js: peekNextTask and hasTask *)

(** X1. [peekNextTask] shows the task the next [getNextTask] will hand
    out, and [null] exactly on an empty queue; adding a task does not
    change what it shows unless the queue was empty, in which case it
    shows the added task. *)
Theorem peekNextTask_previews_getNextTask {T : Type} (queue : list T) :
  TaskQueue.peekNextTask queue = (TaskQueue.getNextTask queue).1
  ∧ (TaskQueue.peekNextTask queue = None ↔ queue = [])
  ∧ (∀ task, TaskQueue.peekNextTask (TaskQueue.addTask task queue)
             = Some (default task (TaskQueue.peekNextTask queue)))
  ∧ (∀ task rest, TaskQueue.getNextTask queue = (Some task, rest) →
                  queue = task :: rest ∧ TaskQueue.peekNextTask queue = Some task).
Proof.
  destruct queue as [|x q]; simpl; split_and!; try done.
  all: by intros task rest [= -> ->].
Qed.

(** X2. [hasTask] answers whether some queued task satisfies the
    predicate: never on an empty queue, and after [addTask] exactly when it
    did before or the added task satisfies it. The duplicate check of
    /switch-tab, written with [queue.find], agrees with this test for the
    predicate "a switch-tab task for this tab": the request is answered
    409 exactly when [hasTask] holds. *)
Theorem hasTask_reflects_queue {T : Type} (p : T → bool) (queue : list T) :
  (TaskQueue.hasTask p queue = true ↔ ∃ task, task ∈ queue ∧ p task = true)
  ∧ TaskQueue.hasTask p (@TaskQueue.new T) = false
  ∧ (∀ task, TaskQueue.hasTask p (TaskQueue.addTask task queue)
             = TaskQueue.hasTask p queue || p task)
  ∧ (∀ (s : Server.t) (n : Z),
       TaskQueue.hasTask (λ task, bool_decide (Server.isSwitchTabFor (JS.Num n) task))
         (Server.taskQueue s) = true
       ↔ ∃ message,
           Server.switch_tab (JS.Num n) s
           = (s, Some (Server.mkResponse 409 (Server.Failure message)))).
Proof.
  split_and!.
  - unfold TaskQueue.hasTask. rewrite existsb_exists.
    split; intros (task & Hin & Hp); exists task; split; auto;
      by apply list_elem_of_In.
  - reflexivity.
  - intros task. unfold TaskQueue.hasTask, TaskQueue.addTask.
    rewrite existsb_app. simpl. by rewrite orb_false_r.
  - intros s n. unfold TaskQueue.hasTask, Server.switch_tab. simpl.
    rewrite existsb_exists. split.
    + intros (task & Hin%list_elem_of_In & Hp%bool_decide_eq_true).
      destruct (list_find_elem_of (Server.isSwitchTabFor (JS.Num n)) _ task Hin Hp)
        as [[i x] ->].
      by eexists.
    + destruct (list_find _ _) as [[i x]|] eqn:Hf.
      * intros _. apply list_find_Some in Hf as (Hi & Hp & _).
        exists x. split; [by eapply list_elem_of_In, list_elem_of_lookup_2|].
        by apply bool_decide_eq_true.
      * intros [message Hs]. discriminate Hs.
Qed.

(** ** managers/TabManager.js: upsert, removal, bulk operations *)

Lemma addOrUpdateTab_arrays tabId windowId url now m :
  TabManager.openedTabs (TabManager.addOrUpdateTab tabId windowId url now m)
  = match list_find (λ t, Tab.tabId t = tabId) (TabManager.openedTabs m) with
    | Some (i, tab) =>
        <[i := Tab.mk (Tab.tabId tab) windowId url (Tab.openedAt tab) now]>
          (TabManager.openedTabs m)
    | None => TabManager.openedTabs m ++ [Tab.mk tabId windowId url now now]
    end
  ∧ TabManager.openedWindows (TabManager.addOrUpdateTab tabId windowId url now m)
    = TabManager.attach tabId windowId now (TabManager.openedWindows m).
Proof.
  unfold TabManager.addOrUpdateTab.
  rewrite openedTabs_scheduleSave, openedWindows_scheduleSave,
    associateTabWithWindow_attach. simpl.
  by destruct (list_find _ _) as [[i tab]|].
Qed.

Lemma removeClosedTab_openedTabs tabId m :
  TabManager.openedTabs (TabManager.removeClosedTab tabId m)
  = match list_find (λ t, Tab.tabId t = tabId) (TabManager.openedTabs m) with
    | Some (i, _) => delete i (TabManager.openedTabs m)
    | None => TabManager.openedTabs m
    end.
Proof.
  unfold TabManager.removeClosedTab.
  destruct (list_find _ (TabManager.openedTabs m)) as [[i tab]|]; [|done].
  rewrite openedTabs_scheduleSave. simpl.
  destruct (list_find _ _) as [[j w]|]; simpl; [|done].
  case_bool_decide; simpl; [|done].
  by destruct (list_find _ _) as [[k w']|].
Qed.

(** X3. Removing a tab that is not tracked changes nothing at all: the
    arrays stay as they are and no save is scheduled. *)
Theorem removeClosedTab_untracked_is_noop (tabId : JS.value) (m : TabManager.t) :
  tabId ∉ Tab.tabId <$> TabManager.openedTabs m →
  TabManager.removeClosedTab tabId m = m.
Proof.
  intros Hnot. unfold TabManager.removeClosedTab.
  destruct (list_find _ (TabManager.openedTabs m)) as [[i tab]|] eqn:Hf; [|done].
  apply list_find_Some in Hf as (Hi & Htab & _). exfalso. apply Hnot.
  rewrite <- Htab. eapply list_elem_of_fmap_2, list_elem_of_lookup_2; eauto.
Qed.

Lemma removeClosedTab_untracked_is_noop_witness :
  let m := TabManager.addOrUpdateTab (JS.Num 1) (JS.Num 10) (JS.Str "a") 0
             (TabManager.new None) in
  TabManager.removeClosedTab (JS.Num 2) m = m.
Proof.
  apply removeClosedTab_untracked_is_noop.
  vm_compute. intros Hin. inversion Hin as [|? ? ? Hin']; subst. inversion Hin'.
Defined.

Lemma addOrUpdateTab_finds
    (tabId windowId url : JS.value) (now : Z) (m : TabManager.t) :
  let m' := TabManager.addOrUpdateTab tabId windowId url now m in
  let found := list_find (λ t, Tab.tabId t = tabId) (TabManager.openedTabs m) in
  let i := from_option fst (length (TabManager.openedTabs m)) found in
  list_find (λ t, Tab.tabId t = tabId) (TabManager.openedTabs m')
  = Some (i, Tab.mk tabId windowId url
               (from_option (λ x, Tab.openedAt x.2) now found) now)
  ∧ length (TabManager.openedTabs m')
    = (if found is Some _ then length (TabManager.openedTabs m)
       else S (length (TabManager.openedTabs m)))
  ∧ (∀ j, j ≠ i → TabManager.openedTabs m' !! j = TabManager.openedTabs m !! j).
Proof.
  simpl. destruct (addOrUpdateTab_arrays tabId windowId url now m) as [-> _].
  destruct (list_find _ (TabManager.openedTabs m)) as [[i tab]|] eqn:Hf; simpl.
  - pose proof Hf as (l1 & l2 & Hsplit & Hlen & Htab & Hl1 & Hins & _)%list_find_split.
    rewrite Hins, Htab. split_and!.
    + rewrite <- Hlen. by apply list_find_app_cons.
    + rewrite Hsplit, !length_app. done.
    + intros j Hj. rewrite <- Hins. by rewrite list_lookup_insert_ne.
  - apply list_find_None in Hf. split_and!.
    + by apply (list_find_app_cons _ _ []).
    + rewrite length_app. simpl. lia.
    + intros j Hj. destruct (decide (j < length (TabManager.openedTabs m))).
      * by rewrite lookup_app_l.
      * rewrite !lookup_ge_None_2; [done|lia|]. rewrite length_app. simpl. lia.
Qed.

(** X4. After an upsert the first record with the tab id is the record
    just written: the window id and url given, [lastUpdated] the time of
    the call, [openedAt] kept from the record that was there, or the time
    of the call for a new tab. A known tab is updated in place, a new one
    is appended, and no other position of the array changes. *)
Theorem addOrUpdateTab_then_lookup
    (tabId windowId url : JS.value) (now : Z) (m : TabManager.t) :
  let m' := TabManager.addOrUpdateTab tabId windowId url now m in
  let found := list_find (λ t, Tab.tabId t = tabId) (TabManager.openedTabs m) in
  let i := from_option fst (length (TabManager.openedTabs m)) found in
  list_find (λ t, Tab.tabId t = tabId) (TabManager.openedTabs m')
  = Some (i, Tab.mk tabId windowId url
               (from_option (λ x, Tab.openedAt x.2) now found) now)
  ∧ length (TabManager.openedTabs m')
    = (if found is Some _ then length (TabManager.openedTabs m)
       else S (length (TabManager.openedTabs m)))
  ∧ (∀ j, j ≠ i → TabManager.openedTabs m' !! j = TabManager.openedTabs m !! j).
Proof. apply addOrUpdateTab_finds. Qed.

Lemma attach_idempotent tabId windowId now1 now2 windows :
  TabManager.attach tabId windowId now2 (TabManager.attach tabId windowId now1 windows)
  = TabManager.attach tabId windowId now1 windows.
Proof.
  unfold TabManager.attach at 2 3.
  destruct (list_find _ windows) as [[i w]|] eqn:Hf.
  - unfold JS.includes. case_bool_decide as Hin.
    + unfold TabManager.attach. rewrite Hf. unfold JS.includes.
      by rewrite bool_decide_eq_true_2.
    + apply list_find_split in Hf as (l1 & l2 & -> & Hlen & Hw & Hl1 & Hins & _).
      rewrite Hins. unfold TabManager.attach.
      rewrite (list_find_app_cons _ l1 l2) by done. simpl.
      unfold JS.includes. rewrite bool_decide_eq_true_2; [done|].
      apply elem_of_app. right. by left.
  - apply list_find_None in Hf. unfold TabManager.attach.
    rewrite (list_find_app_cons _ windows []) by done. simpl.
    unfold JS.includes. rewrite bool_decide_eq_true_2; [done|]. by left.
Qed.

(** X5. An upsert repeated with the same arguments changes nothing more
    in the two arrays: the window array is the same whatever the time of
    the second call, and the tab array is the same when the time is the
    same (otherwise only [lastUpdated] of that tab differs). *)
Theorem addOrUpdateTab_repeated
    (tabId windowId url : JS.value) (now1 now2 : Z) (m : TabManager.t) :
  let once := TabManager.addOrUpdateTab tabId windowId url now1 m in
  let twice := TabManager.addOrUpdateTab tabId windowId url now2 once in
  TabManager.openedWindows twice = TabManager.openedWindows once
  ∧ length (TabManager.openedTabs twice) = length (TabManager.openedTabs once)
  ∧ (now2 = now1 → TabManager.openedTabs twice = TabManager.openedTabs once)
  ∧ (∀ j tab, TabManager.openedTabs once !! j = Some tab →
       ∃ tab', TabManager.openedTabs twice !! j = Some tab'
               ∧ Tab.tabId tab' = Tab.tabId tab ∧ Tab.windowId tab' = Tab.windowId tab
               ∧ Tab.url tab' = Tab.url tab ∧ Tab.openedAt tab' = Tab.openedAt tab).
Proof.
  simpl.
  pose proof (addOrUpdateTab_finds tabId windowId url now1 m) as (Hfind & _ & _).
  simpl in Hfind.
  set (once := TabManager.addOrUpdateTab tabId windowId url now1 m) in *.
  destruct (addOrUpdateTab_arrays tabId windowId url now2 once) as [Ht Hw].
  rewrite Ht, Hw, Hfind. simpl.
  apply list_find_Some in Hfind as (Hi & _ & _).
  split_and!.
  - unfold once. destruct (addOrUpdateTab_arrays tabId windowId url now1 m) as [_ ->].
    apply attach_idempotent.
  - by rewrite length_insert.
  - intros ->. by apply list_insert_id.
  - intros j tab Hj.
    destruct (decide (j = from_option fst (length (TabManager.openedTabs m))
                             (list_find (λ t, Tab.tabId t = tabId)
                                (TabManager.openedTabs m)))) as [->|Hne].
    + rewrite Hi in Hj. injection Hj as <-. eexists. split.
      * apply list_lookup_insert_eq. by eapply lookup_lt_Some.
      * done.
    + exists tab. by rewrite list_lookup_insert_ne.
Qed.

Lemma removeClosedTab_openedWindows tabId m :
  TabManager.openedWindows (TabManager.removeClosedTab tabId m)
  = match list_find (λ t, Tab.tabId t = tabId) (TabManager.openedTabs m) with
    | Some (_, removedTab) =>
        let sameWindow := λ w, Window.windowId w = Tab.windowId removedTab in
        match list_find sameWindow (TabManager.openedWindows m) with
        | Some (j, window) =>
            let remaining := filter (λ id, id ≠ tabId) (Window.tabs window) in
            let windows :=
              <[j := Window.mk (Window.windowId window) remaining
                               (Window.openedAt window)]> (TabManager.openedWindows m) in
            if bool_decide (length remaining = 0) then
              match list_find sameWindow windows with
              | Some (k, _) => delete k windows
              | None => windows
              end
            else windows
        | None => TabManager.openedWindows m
        end
    | None => TabManager.openedWindows m
    end.
Proof.
  unfold TabManager.removeClosedTab.
  destruct (list_find _ (TabManager.openedTabs m)) as [[i tab]|]; [|done].
  rewrite openedWindows_scheduleSave. simpl.
  destruct (list_find _ _) as [[j w]|]; simpl; [|done].
  case_bool_decide; simpl; [|done].
  by destruct (list_find _ _) as [[k w']|].
Qed.

Lemma filter_ne_absent (x : JS.value) (l : list JS.value) :
  x ∉ l → filter (λ id, id ≠ x) l = l.
Proof.
  induction l as [|a l IH]; [done|].
  rewrite not_elem_of_cons. intros [Hne Hnot].
  rewrite filter_cons_True by done. by rewrite IH.
Qed.

(** X6. In a consistent store, tracking a tab that was not tracked and
    then removing it again gives back the two arrays as they were: the
    window the tab joined loses it again, and a window created for it is
    deleted again. *)
Theorem addOrUpdateTab_then_removeClosedTab
    (tabId windowId url : JS.value) (now : Z) (m : TabManager.t) :
  TabManager.consistent m →
  tabId ∉ Tab.tabId <$> TabManager.openedTabs m →
  TabManager.openedTabs
    (TabManager.removeClosedTab tabId
       (TabManager.addOrUpdateTab tabId windowId url now m))
  = TabManager.openedTabs m
  ∧ TabManager.openedWindows
      (TabManager.removeClosedTab tabId
         (TabManager.addOrUpdateTab tabId windowId url now m))
    = TabManager.openedWindows m.
Proof.
  intros [Hnd (Hndw & Hwids & Htabs & Hndt)] Hnew.
  rewrite removeClosedTab_openedTabs, removeClosedTab_openedWindows.
  destruct (addOrUpdateTab_arrays tabId windowId url now m) as [-> ->].
  assert (list_find (λ t, Tab.tabId t = tabId) (TabManager.openedTabs m) = None) as Hf.
  { apply list_find_None, Forall_forall. intros tab Hin Htab. apply Hnew.
    rewrite <- Htab. by apply list_elem_of_fmap_2. }
  rewrite Hf. apply list_find_None in Hf.
  rewrite (list_find_app_cons _ (TabManager.openedTabs m) []) by done.
  split.
  { pose proof (delete_middle (TabManager.openedTabs m) []
                  (Tab.mk tabId windowId url now now)) as Hd.
    by rewrite app_nil_r in Hd. }
  simpl. unfold TabManager.attach.
  destruct (list_find _ (TabManager.openedWindows m)) as [[j w]|] eqn:Hfw.
  - pose proof Hfw as (Hj & Hw & _)%list_find_Some.
    assert (w ∈ TabManager.openedWindows m) as Hin by (by eapply list_elem_of_lookup_2).
    assert (tabId ∉ Window.tabs w) as Hnotin.
    { intros Hlisted%(Htabs w Hin). apply Hnew.
      apply (list_elem_of_fmap_2 fst) in Hlisted.
      by rewrite <- list_fmap_compose in Hlisted. }
    assert (Window.tabs w ≠ []) as Hnonempty.
    { intros Hempty.
      assert (Window.windowId w ∈ (TabManager.pairOfTab <$> TabManager.openedTabs m).*2)
        as Hp by (by apply Hwids, list_elem_of_fmap_2).
      apply list_elem_of_fmap in Hp as ([id wid] & Hwid & Hp). simpl in Hwid.
      subst wid. apply (Htabs w Hin) in Hp. rewrite Hempty in Hp.
      by apply elem_of_nil in Hp. }
    unfold JS.includes. rewrite bool_decide_eq_false_2 by done.
    apply list_find_split in Hfw as (l1 & l2 & Hsplit & Hlen & _ & Hl1 & Hins & _).
    rewrite Hins, (list_find_app_cons _ l1 l2) by done. simpl.
    rewrite filter_app, (filter_ne_absent tabId (Window.tabs w) Hnotin).
    rewrite filter_cons_False, filter_nil, app_nil_r by (intros H; by apply H).
    rewrite bool_decide_eq_false_2.
    2:{ intros Hlen0%nil_length_inv. done. }
    rewrite Hsplit, insert_app_r_alt, Nat.sub_diag by lia. simpl. by destruct w.
  - apply list_find_None in Hfw.
    rewrite (list_find_app_cons _ (TabManager.openedWindows m) []) by done. simpl.
    rewrite filter_cons_False, filter_nil by (intros H; by apply H). simpl.
    rewrite insert_app_r_alt, Nat.sub_diag by lia. simpl.
    rewrite (list_find_app_cons _ (TabManager.openedWindows m) []) by done.
    pose proof (delete_middle (TabManager.openedWindows m) []
                  (Window.mk windowId [] now)) as Hd.
    by rewrite app_nil_r in Hd.
Qed.

Lemma addOrUpdateTab_then_removeClosedTab_witness :
  let m := TabManager.replaceAllTabs
             [SyncedTab.mk (JS.Num 1) (JS.Num 10) (JS.Str "a")] 0
             (TabManager.new None) in
  TabManager.openedWindows
    (TabManager.removeClosedTab (JS.Num 2)
       (TabManager.addOrUpdateTab (JS.Num 2) (JS.Num 10) (JS.Str "b") 5 m))
  = [Window.mk (JS.Num 10) [JS.Num 1] 0].
Proof.
  cbv zeta.
  refine (eq_trans (proj2 (addOrUpdateTab_then_removeClosedTab
            (JS.Num 2) (JS.Num 10) (JS.Str "b") 5
            (TabManager.replaceAllTabs
               [SyncedTab.mk (JS.Num 1) (JS.Num 10) (JS.Str "a")] 0
               (TabManager.new None)) _ _)) _).
  - apply replaceAllTabs_consistent. simpl. apply NoDup_singleton.
  - vm_compute. intros Hin. inversion Hin as [|? ? ? Hin']; subst. inversion Hin'.
  - reflexivity.
Defined.

(** X7. In a consistent store a removal leaves no trace of the tab: the
    tab records that remain are exactly the others, no window lists the
    tab any more, and the membership invariant holds afterwards. *)
Theorem removeClosedTab_untracks (tabId : JS.value) (m : TabManager.t) :
  TabManager.consistent m →
  (∀ tab, tab ∈ TabManager.openedTabs (TabManager.removeClosedTab tabId m)
          ↔ tab ∈ TabManager.openedTabs m ∧ Tab.tabId tab ≠ tabId)
  ∧ (∀ w, w ∈ TabManager.openedWindows (TabManager.removeClosedTab tabId m) →
          tabId ∉ Window.tabs w)
  ∧ TabManager.membership_invariant (TabManager.removeClosedTab tabId m).
Proof.
  intros Hc.
  pose proof (removeClosedTab_consistent tabId m Hc) as Hc'.
  assert (∀ tab, tab ∈ TabManager.openedTabs (TabManager.removeClosedTab tabId m)
          ↔ tab ∈ TabManager.openedTabs m ∧ Tab.tabId tab ≠ tabId) as Htabs.
  { intros tab. rewrite removeClosedTab_openedTabs. destruct Hc as [Hnd _].
    destruct (list_find _ (TabManager.openedTabs m)) as [[i tab0]|] eqn:Hf.
    - apply list_find_split in Hf as (t1 & t2 & Hsplit & _ & Htab0 & _ & _ & ->).
      rewrite Hsplit in Hnd |- *. rewrite fmap_app in Hnd. simpl in Hnd.
      apply NoDup_app in Hnd as (_ & Hdisj & [Ht2 _]%NoDup_cons).
      rewrite !elem_of_app, elem_of_cons. split.
      + intros [Hin|Hin]; (split; [auto|]); intros Heq.
        * apply (Hdisj (Tab.tabId tab)); [by apply list_elem_of_fmap_2|].
          rewrite Heq, <- Htab0. by left.
        * apply Ht2. rewrite Htab0, <- Heq. by apply list_elem_of_fmap_2.
      + intros [[?|[->|?]] Hne]; auto. done.
    - apply list_find_None in Hf. split; [|by intros [? _]].
      intros Hin. split; [done|]. eapply Forall_forall in Hf; eauto. }
  split_and!; [done| |by apply consistent_membership_invariant].
  intros w Hw Hlisted.
  destruct Hc' as [_ (_ & _ & Hgt & _)].
  apply (Hgt w Hw) in Hlisted.
  apply list_elem_of_fmap in Hlisted as (tab & [= Hid _] & Hin).
  apply Htabs in Hin as [_ Hne]. by apply Hne.
Qed.

Lemma removeClosedTab_untracks_witness :
  let m := TabManager.replaceAllTabs
             [SyncedTab.mk (JS.Num 1) (JS.Num 10) (JS.Str "a");
              SyncedTab.mk (JS.Num 2) (JS.Num 10) (JS.Str "b")] 0
             (TabManager.new None) in
  TabManager.membership_invariant (TabManager.removeClosedTab (JS.Num 1) m).
Proof.
  cbv zeta.
  apply (removeClosedTab_untracks (JS.Num 1)).
  apply replaceAllTabs_consistent. vm_compute.
  apply NoDup_cons. split; [|apply NoDup_singleton].
  intros Hin. inversion Hin as [|? ? ? Hin']; subst. inversion Hin'.
Defined.

Lemma grouped_membership_invariant m :
  TabManager.grouped (TabManager.pairOfTab <$> TabManager.openedTabs m)
    (TabManager.openedWindows m) →
  TabManager.membership_invariant m.
Proof.
  intros (Hnd & Hids & Htabs & _). split_and!.
  - apply Forall_forall. intros w Hw. apply Forall_forall. intros id Hid.
    apply (Htabs w Hw) in Hid.
    apply list_elem_of_fmap in Hid as (tab & [= -> Hwid] & Hin).
    apply Exists_exists. by exists tab.
  - apply Forall_forall. intros tab Hin.
    assert (Tab.windowId tab ∈ Window.windowId <$> TabManager.openedWindows m) as Hw.
    { apply Hids. rewrite <- list_fmap_compose.
      by apply (list_elem_of_fmap_2 (snd ∘ TabManager.pairOfTab)). }
    apply list_elem_of_fmap in Hw as (w & Hwid & Hw).
    apply Exists_exists. exists w. split_and!; [done..|].
    apply (Htabs w Hw). rewrite <- Hwid.
    by apply (list_elem_of_fmap_2 TabManager.pairOfTab).
  - apply Forall_forall. intros w Hw Hempty.
    assert (Window.windowId w ∈ (TabManager.pairOfTab <$> TabManager.openedTabs m).*2)
      as Hin by (by apply Hids, list_elem_of_fmap_2).
    apply list_elem_of_fmap in Hin as ([id wid] & Hwid & Hin). simpl in Hwid. subst wid.
    apply (Htabs w Hw) in Hin. rewrite Hempty in Hin. by apply elem_of_nil in Hin.
Qed.

(** X8. A full replacement always leaves a store that satisfies the
    membership invariant, whatever the store was before and whatever the
    list is (repeated tab ids included): a resync repairs the stale window
    membership that a moved tab leaves behind. *)
Theorem replaceAllTabs_restores_membership
    (tabs : list SyncedTab.t) (now : Z) (m : TabManager.t) :
  TabManager.membership_invariant (TabManager.replaceAllTabs tabs now m)
  ∧ NoDup (Window.windowId <$>
             TabManager.openedWindows (TabManager.replaceAllTabs tabs now m))
  ∧ Forall (λ w, NoDup (Window.tabs w))
      (TabManager.openedWindows (TabManager.replaceAllTabs tabs now m)).
Proof.
  pose proof (replaceAllTabs_grouped tabs now m) as Hg.
  split_and!.
  - apply grouped_membership_invariant.
    destruct (replaceAllTabs_content tabs now m) as [-> _].
    by rewrite <- list_fmap_compose.
  - by destruct Hg as (? & _).
  - by destruct Hg as (_ & _ & _ & ?).
Qed.

Lemma bulkAddOrUpdateTabs_fresh now (tabs : list SyncedTab.t) : ∀ m,
  NoDup (SyncedTab.tabId <$> tabs) →
  (∀ id, id ∈ SyncedTab.tabId <$> tabs → id ∉ Tab.tabId <$> TabManager.openedTabs m) →
  TabManager.openedTabs (TabManager.bulkAddOrUpdateTabs tabs now m)
  = TabManager.openedTabs m ++ (TabManager.trackedTabOf now <$> tabs)
  ∧ TabManager.openedWindows (TabManager.bulkAddOrUpdateTabs tabs now m)
    = foldl (λ ws tab,
               TabManager.attach (SyncedTab.tabId tab) (SyncedTab.windowId tab) now ws)
            (TabManager.openedWindows m) tabs
  ∧ TabManager.requested (TabManager.bulkAddOrUpdateTabs tabs now m)
    = TabManager.requested m + length tabs.
Proof.
  unfold TabManager.bulkAddOrUpdateTabs.
  induction tabs as [|tab tabs IH]; intros m Hnd Hfresh; simpl.
  - by rewrite app_nil_r, Nat.add_0_r.
  - apply NoDup_cons in Hnd as [Hhead Hnd].
    destruct (addOrUpdateTab_arrays (SyncedTab.tabId tab) (SyncedTab.windowId tab)
                (SyncedTab.url tab) now m) as [Ht Hw].
    assert (list_find (λ t, Tab.tabId t = SyncedTab.tabId tab)
              (TabManager.openedTabs m) = None) as Hf.
    { apply list_find_None, Forall_forall. intros t Hin Heq.
      apply (Hfresh (SyncedTab.tabId tab)); [by left|].
      rewrite <- Heq. by apply list_elem_of_fmap_2. }
    rewrite Hf in Ht.
    destruct (IH (TabManager.addOrUpdateTab (SyncedTab.tabId tab)
                    (SyncedTab.windowId tab) (SyncedTab.url tab) now m) Hnd)
      as (-> & -> & ->).
    + intros id Hid. rewrite Ht, fmap_app, not_elem_of_app. split.
      * apply Hfresh. by right.
      * simpl. rewrite list_elem_of_singleton. intros ->. done.
    + rewrite Ht, Hw, requested_addOrUpdateTab, <- app_assoc. split_and!; [done..|lia].
Qed.

(** X9. On a store whose arrays are empty, [bulkAddOrUpdateTabs] with a
    list without repeated tab ids builds the same two arrays as
    [replaceAllTabs] does from any store; it asks for a save once per
    element, where [replaceAllTabs] asks once. *)
Theorem bulkAddOrUpdateTabs_as_replaceAllTabs
    (tabs : list SyncedTab.t) (now : Z) (m m0 : TabManager.t) :
  NoDup (SyncedTab.tabId <$> tabs) →
  TabManager.openedTabs m = [] →
  TabManager.openedWindows m = [] →
  TabManager.openedTabs (TabManager.bulkAddOrUpdateTabs tabs now m)
  = TabManager.openedTabs (TabManager.replaceAllTabs tabs now m0)
  ∧ TabManager.openedWindows (TabManager.bulkAddOrUpdateTabs tabs now m)
    = TabManager.openedWindows (TabManager.replaceAllTabs tabs now m0)
  ∧ TabManager.requested (TabManager.bulkAddOrUpdateTabs tabs now m)
    = TabManager.requested m + length tabs
  ∧ TabManager.requested (TabManager.replaceAllTabs tabs now m0)
    = S (TabManager.requested m0).
Proof.
  intros Hnd Ht Hw.
  destruct (bulkAddOrUpdateTabs_fresh now tabs m Hnd) as (-> & -> & ->).
  { intros id _. rewrite Ht. simpl. apply not_elem_of_nil. }
  destruct (replaceAllTabs_content tabs now m0) as [-> ->].
  rewrite Ht, Hw, requested_replaceAllTabs. done.
Qed.

Lemma bulkAddOrUpdateTabs_as_replaceAllTabs_witness :
  let tabs := [SyncedTab.mk (JS.Num 1) (JS.Num 10) (JS.Str "a");
               SyncedTab.mk (JS.Num 2) (JS.Num 10) (JS.Str "b")] in
  TabManager.openedWindows
    (TabManager.bulkAddOrUpdateTabs tabs 0 (TabManager.new None))
  = TabManager.openedWindows
      (TabManager.replaceAllTabs tabs 0 (TabManager.new None)).
Proof.
  cbv zeta.
  refine (proj1 (proj2 (bulkAddOrUpdateTabs_as_replaceAllTabs _ 0
            (TabManager.new None) (TabManager.new None) _ eq_refl eq_refl))).
  vm_compute. apply NoDup_cons. split; [|apply NoDup_singleton].
  intros Hin. inversion Hin as [|? ? ? Hin']; subst. inversion Hin'.
Defined.

(** ** managers/TabManager.js: persistence *)

(** X10. [clearAll] empties both arrays and starts a write of the empty
    document without consulting or setting [saveInProgress]. Called while
    a write is in flight it puts a second one in flight, and the first
    completion then clears [saveInProgress] although a write is still
    running; called on an idle store it leaves [saveInProgress] clear, so
    the next upsert starts a write beside the one of [clearAll]. *)
Theorem clearAll_skips_the_save_flags (m : TabManager.t) :
  TabManager.openedTabs (TabManager.clearAll m) = []
  ∧ TabManager.openedWindows (TabManager.clearAll m) = []
  ∧ TabManager.written (TabManager.clearAll m)
    = TabManager.written m ++ [TabManager.mkDocument [] []]
  ∧ TabManager.inFlight (TabManager.clearAll m)
    = TabManager.inFlight m ++ [TabManager.mkDocument [] []]
  ∧ TabManager.saveInProgress (TabManager.clearAll m) = TabManager.saveInProgress m
  ∧ (∀ w, TabManager.saveInProgress m = true → TabManager.inFlight m = [w] →
       TabManager.saveQueued m = false →
       ∃ m', TabManager.writeCallback 0 (TabManager.clearAll m) = Some m'
             ∧ TabManager.saveInProgress m' = false
             ∧ TabManager.inFlight m' = [TabManager.mkDocument [] []])
  ∧ (∀ tabId windowId url now,
       TabManager.saveInProgress m = false → TabManager.inFlight m = [] →
       length (TabManager.inFlight
                 (TabManager.addOrUpdateTab tabId windowId url now
                    (TabManager.clearAll m))) = 2).
Proof.
  split_and!; try reflexivity.
  - intros w Hp Hf Hq. unfold TabManager.writeCallback. simpl.
    rewrite Hf. simpl. rewrite Hq. by eexists.
  - intros tabId windowId url now Hp Hf.
    destruct (mutator_schedules (TabManager.Upsert tabId windowId url now)
                (TabManager.clearAll m) eq_refl) as (m1 & Hpers & [E|E]);
      simpl in E; injection E as E.
    + apply (f_equal TabManager.requested) in E.
      rewrite requested_addOrUpdateTab in E.
      unfold TabManager.persistence in Hpers. simpl in Hpers.
      injection Hpers as _ _ _ _ Hr1. rewrite Hr1 in E. simpl in E. lia.
    + rewrite E. unfold TabManager.persistence in Hpers. simpl in Hpers.
      injection Hpers as Hp1 Hq1 Hf1 Hw1 Hr1.
      rewrite scheduleSave_idle by congruence. simpl.
      rewrite Hf1, Hf. reflexivity.
Qed.

Lemma scheduleSave_mirrored file m :
  TabManager.mirrored file (TabManager.scheduleSave m).
Proof.
  unfold TabManager.mirrored.
  destruct (TabManager.saveInProgress m) eqn:Hp.
  - rewrite scheduleSave_in_progress by done. by left.
  - rewrite scheduleSave_idle by done. right. right. simpl. by rewrite last_snoc.
Qed.

Lemma accounted_step e m m' :
  TabManager.accounted m → TabManager.step e m = Some m' → TabManager.accounted m'.
Proof.
  intros Hacc Hstep. unfold TabManager.accounted in *.
  destruct (TabManager.is_mutator e) eqn:He.
  - destruct (mutator_schedules e m He) as (m1 & Hpers & [E|E]);
      rewrite E in Hstep; injection Hstep as <-;
      unfold TabManager.persistence in Hpers;
      injection Hpers as Hp1 Hq1 Hf1 Hw1 Hr1.
    + by rewrite Hq1, Hw1, Hr1.
    + destruct (TabManager.saveInProgress m1) eqn:Hp.
      * rewrite scheduleSave_in_progress by done. simpl.
        rewrite Hw1, Hr1. destruct (TabManager.saveQueued m); lia.
      * rewrite scheduleSave_idle by done. simpl.
        rewrite length_app, Hw1, Hq1, Hr1. simpl. lia.
  - destruct e as [| | |k]; try done. simpl in Hstep.
    unfold TabManager.writeCallback in Hstep.
    destruct (TabManager.inFlight m !! k) as [d|]; [|done].
    injection Hstep as <-. simpl.
    destruct (TabManager.saveQueued m) eqn:Hq; simpl.
    + unfold TabManager.scheduleSave_body. simpl. rewrite length_app. simpl. lia.
    + by rewrite Hq.
Qed.

(** One event: if the arrays were accounted for before, or the event asks
    for a save, they are accounted for afterwards. *)
Lemma mirrored_step file dirty e m m' :
  (dirty = false → TabManager.mirrored file m) →
  TabManager.step e m = Some m' →
  TabManager.unsaved dirty [e] = false → TabManager.mirrored file m'.
Proof.
  intros Hmir Hstep.
  destruct e as [tabId windowId url now|tabId|tabs now|k]; simpl in Hstep |- *.
  - intros _. injection Hstep as <-. unfold TabManager.addOrUpdateTab.
    apply scheduleSave_mirrored.
  - intros Hd. injection Hstep as <-. unfold TabManager.removeClosedTab.
    destruct (list_find _ (TabManager.openedTabs m)) as [[i tab]|]; [|by apply Hmir].
    apply scheduleSave_mirrored.
  - intros Hd. injection Hstep as <-.
    destruct (first_null tabs) as [[ts ->]|(before & rest & ->)].
    + rewrite replaceAllTabs_unchecked_returns. simpl.
      unfold TabManager.replaceAllTabs. apply scheduleSave_mirrored.
    + exfalso. apply bool_decide_eq_false in Hd. apply Hd.
      apply elem_of_app. right. by left.
  - intros Hd. specialize (Hmir Hd).
    unfold TabManager.writeCallback in Hstep.
    destruct (TabManager.inFlight m !! k) as [d|]; [|done].
    injection Hstep as <-. simpl.
    unfold TabManager.mirrored in *.
    destruct (TabManager.saveQueued m) eqn:Hq; simpl.
    + unfold TabManager.scheduleSave_body. simpl. right. right. by rewrite last_snoc.
    + rewrite Hq. destruct Hmir as [?|Hmir]; [done|]. by right.
Qed.

Lemma mirrored_run file es : ∀ dirty m m',
  (dirty = false → TabManager.mirrored file m) →
  TabManager.run es m = Some m' →
  TabManager.unsaved dirty es = false → TabManager.mirrored file m'.
Proof.
  induction es as [|e es IH]; intros dirty m m' Hmir.
  - simpl. intros [= <-] Hd. by apply Hmir.
  - simpl. destruct (TabManager.step e m) as [m1|] eqn:E; [|done].
    apply IH. intros Hd. by apply (mirrored_step file dirty e m m1).
Qed.

Lemma accounted_run es : ∀ m m',
  TabManager.accounted m → TabManager.run es m = Some m' → TabManager.accounted m'.
Proof.
  induction es as [|e es IH]; simpl; intros m m' H.
  - by intros [= <-].
  - destruct (TabManager.step e m) as [m1|] eqn:E; [|done].
    apply IH. by eapply accounted_step.
Qed.

(** X11. The file is a mirror that catches up, except after a full
    replacement that threw. In every state the store reaches from its
    construction by upserts, removals, full replacements of any array and
    write completions: if no full replacement has thrown since the last
    upsert or the last full replacement that returned, then, whenever no
    save is queued, the write started last carries the current arrays (or
    nothing has been written and the arrays are still those loaded from
    the file). In every case the store never starts more writes than it
    was asked for saves. *)
Theorem last_write_mirrors_store
    (file : option TabManager.document) (es : list TabManager.event) (m : TabManager.t) :
  TabManager.run es (TabManager.new file) = Some m →
  (TabManager.unsaved false es = false →
   TabManager.saveQueued m = false →
   (TabManager.written m = []
    ∧ TabManager.currentDocument m = TabManager.currentDocument (TabManager.new file))
   ∨ last (TabManager.written m) = Some (TabManager.currentDocument m))
  ∧ length (TabManager.written m) ≤ TabManager.requested m.
Proof.
  intros Hrun. split.
  - intros Hclean Hq.
    assert (TabManager.mirrored file (TabManager.new file)) as Hinit.
    { right. left. by destruct file. }
    destruct (mirrored_run file es false _ _ (λ _, Hinit) Hrun Hclean) as [?|?];
      [congruence|done].
  - assert (TabManager.accounted (TabManager.new file)) as Hinit.
    { unfold TabManager.accounted. destruct file; simpl; lia. }
    pose proof (accounted_run es _ _ Hinit Hrun) as Hacc.
    unfold TabManager.accounted in Hacc. lia.
Qed.

Lemma last_write_mirrors_store_witness :
  let es := [TabManager.Upsert (JS.Num 1) (JS.Num 10) (JS.Str "a") 0;
             TabManager.WriteDone 0;
             TabManager.ReplaceAll
               [Some (SyncedTab.mk (JS.Num 2) (JS.Num 10) (JS.Str "b")); None] 1;
             TabManager.Upsert (JS.Num 3) (JS.Num 10) (JS.Str "c") 2] in
  ∃ m, TabManager.run es (TabManager.new None) = Some m
       ∧ TabManager.openedTabs m
         = [Tab.mk (JS.Num 2) (JS.Num 10) (JS.Str "b") 1 1;
            Tab.mk (JS.Num 3) (JS.Num 10) (JS.Str "c") 2 2]
       ∧ last (TabManager.written m) = Some (TabManager.currentDocument m)
       ∧ length (TabManager.written m) ≤ TabManager.requested m.
Proof.
  intros es.
  set (m := default (TabManager.new None) (TabManager.run es (TabManager.new None))).
  assert (TabManager.run es (TabManager.new None) = Some m) as Hrun
    by (vm_compute; reflexivity).
  exists m. split; [exact Hrun|]. split; [vm_compute; reflexivity|].
  destruct (last_write_mirrors_store None es m Hrun) as [Hmir Hacc].
  split; [|exact Hacc].
  destruct (Hmir eq_refl eq_refl) as [[Hw _]|Hlast]; [|exact Hlast].
  vm_compute in Hw. discriminate Hw.
Defined.

(** ** index.js: the submission handlers *)

(** What a submission does when it is accepted: one task at the tail of
    the queue, one entry under the id of that task, one timer. *)
Lemma submission_accepted r s :
  (Server.handle r s).2 = None →
  ∃ task,
    Server.taskQueue (Server.handle r s).1 = Server.taskQueue s ++ [task]
    ∧ Server.pendingTasks (Server.handle r s).1
      = <[Task.taskId task := Server.mkPending (Server.nextPromise s) (Server.nextTimer s)]>
          (Server.pendingTasks s)
    ∧ Server.timers (Server.handle r s).1
      = <[Server.nextTimer s :=
            Server.mkTimer (Server.now s + Server.defaultTimeoutMs) (Task.taskId task)]>
          (Server.timers s)
    ∧ Server.nextPromise (Server.handle r s).1 = S (Server.nextPromise s)
    ∧ Server.nextTimer (Server.handle r s).1 = S (Server.nextTimer s)
    ∧ Server.settled (Server.handle r s).1 = Server.settled s
    ∧ Server.now (Server.handle r s).1 = Server.now s
    ∧ Server.tabManager (Server.handle r s).1 = Server.tabManager s
    ∧ JS.truthy (Task.taskId task) = true.
Proof.
  destruct r; simpl.
  - unfold Server.add_task. destruct (negb _); [done|]. intros _. simpl.
    eexists. split_and!; try reflexivity.
    unfold Server.addTask_task, JS.or. simpl. by destruct (JS.truthy taskId) eqn:E.
  - unfold Server.get_task. by destruct (TaskQueue.getNextTask _) as [[task|] q].
  - done.
  - done.
  - done.
  - destruct tabs as [tabs|]; simpl; [|done].
    by destruct (TabManager.replaceAllTabs_unchecked _ _ _) as [m' returned].
  - unfold Server.switch_tab. destruct (negb _); [done|].
    destruct (list_find _ _); [done|]. intros _. simpl.
    eexists. split_and!; reflexivity.
  - unfold Server.execute_js. destruct (negb _); [done|].
    destruct (negb _); [done|]. intros _. simpl.
    eexists. split_and!; reflexivity.
Qed.

(** What a request does to the queue and to the table when it is answered
    at once. *)
Lemma request_answered r s resp :
  (Server.handle r s).2 = Some resp →
  Server.nextPromise (Server.handle r s).1 = Server.nextPromise s
  ∧ Server.nextTimer (Server.handle r s).1 = Server.nextTimer s
  ∧ (Server.taskQueue (Server.handle r s).1 = Server.taskQueue s
     ∨ r = Server.GetTask
       ∧ Server.taskQueue (Server.handle r s).1 = tail (Server.taskQueue s))
  ∧ (∀ k, Server.pendingTasks (Server.handle r s).1 !! k = Server.pendingTasks s !! k
          ∨ Server.pendingTasks (Server.handle r s).1 !! k = None)
  ∧ (Server.settled (Server.handle r s).1 = Server.settled s
     ∨ ∃ k en o, Server.pendingTasks s !! k = Some en
                 ∧ Server.settled (Server.handle r s).1
                   = (Server.promise en, o) :: Server.settled s)
  ∧ (Server.is_submission r = true →
     (Server.handle r s).1 = s
     ∧ ∃ message, resp = Server.mkResponse 400 (Server.Failure message)
                  ∨ resp = Server.mkResponse 409 (Server.Failure message)).
Proof.
  destruct r; simpl.
  - unfold Server.add_task. destruct (negb _); [|done]. intros [= <-]. simpl.
    split_and!; auto. intros _. split; [done|]. eexists. by left.
  - unfold Server.get_task. destruct (Server.taskQueue s) as [|task q] eqn:Hq; simpl;
      intros [= <-]; simpl; rewrite ?Hq; split_and!; auto; done.
  - intros [= <-]. unfold Server.report_result. cbn [fst].
    pose proof (reconcile_bookkeeping data s) as [= Hp Ht Hnt Hnp Hs].
    pose proof (reconcile_taskQueue data s) as Hq.
    destruct (Server.pendingTasks (Server.reconcile data s) !! taskId) as [e|] eqn:He;
      simpl; rewrite ?Hp, ?Hnt, ?Hnp, ?Hq, ?Hs; split_and!; auto; try done.
    + intros k. destruct (decide (k = taskId)) as [->|Hne].
      * right. apply lookup_delete_eq.
      * left. by rewrite lookup_delete_ne.
    + right. exists taskId, e, (Server.Resolved data). by rewrite <- Hp.
  - intros [= <-]. split_and!; auto; done.
  - intros [= <-]. unfold Server.report_error. cbn [fst].
    destruct (Server.pendingTasks s !! taskId) as [e|] eqn:He; simpl;
      split_and!; auto; try done.
    + intros k. destruct (decide (k = taskId)) as [->|Hne].
      * right. apply lookup_delete_eq.
      * left. by rewrite lookup_delete_ne.
    + right. by exists taskId, e, (Server.Rejected (Server.errorMessage errorMsg)).
  - destruct tabs as [tabs|]; simpl;
      [destruct (TabManager.replaceAllTabs_unchecked _ _ _) as [m' returned]|];
      simpl; intros [= <-]; split_and!; auto; done.
  - unfold Server.switch_tab. destruct (negb _).
    { intros [= <-]. simpl. split_and!; auto. intros _. split; [done|].
      eexists. by left. }
    destruct (list_find _ _); [|done]. intros [= <-]. simpl.
    split_and!; auto. intros _. split; [done|]. eexists. by right.
  - unfold Server.execute_js. destruct (negb _).
    { intros [= <-]. simpl. split_and!; auto. intros _. split; [done|].
      eexists. by left. }
    destruct (negb _); [|done]. intros [= <-]. simpl.
    split_and!; auto. intros _. split; [done|]. eexists. by left.
Qed.

(** X12. /execute-js checks the types of its two fields and nothing
    else: it accepts the request exactly when [tabId] is a number and
    [jsFunction] is a string (the number 0 and the empty string included);
    an accepted request appends the execute-js task and registers its
    wait; a refused one is answered with status 400 and changes nothing. *)
Theorem execute_js_checks_types_only (tabId jsFunction : JS.value) (s : Server.t) :
  let r := Server.execute_js tabId jsFunction s in
  let task :=
    Task.mk (JS.Str ("execute-js-" +:+ JS.to_string tabId +:+ "-"
                     +:+ pretty (Server.now s)))
            (JS.Str "execute-js") tabId JS.Undefined jsFunction in
  (r.2 = None ↔ JS.is_number tabId = true ∧ JS.is_string jsFunction = true)
  ∧ (r.2 = None →
     Server.taskQueue r.1 = Server.taskQueue s ++ [task]
     ∧ Server.pendingTasks r.1 !! Task.taskId task
       = Some (Server.mkPending (Server.nextPromise s) (Server.nextTimer s)))
  ∧ (JS.is_number tabId = false →
     r = (s, Some (Server.mkResponse 400
                     (Server.Failure "Invalid or missing 'tabId'. It should be a number."))))
  ∧ (JS.is_number tabId = true → JS.is_string jsFunction = false →
     r = (s, Some (Server.mkResponse 400
                     (Server.Failure
                        "Invalid or missing 'jsFunction'. It should be a string.")))).
Proof.
  simpl. unfold Server.execute_js.
  destruct (JS.is_number tabId), (JS.is_string jsFunction); simpl;
    split_and!; try done; try (split; [done|by intros []]); try by split.
  all: intros _; split; [done|apply lookup_insert_eq].
Qed.

(** X13. /switch-tab accepts a request exactly when [tabId] is a number
    and no switch-tab task for it is in the queue. The check looks at the
    queue only: once the extension has pulled the task, a further request
    for the same tab is accepted although the first wait is still
    pending. *)
Theorem switch_tab_checks_the_queue_only (tabId : JS.value) (s : Server.t) :
  ((Server.switch_tab tabId s).2 = None
   ↔ JS.is_number tabId = true
     ∧ list_find (Server.isSwitchTabFor tabId) (Server.taskQueue s) = None)
  ∧ (JS.is_number tabId = false →
     Server.switch_tab tabId s
     = (s, Some (Server.mkResponse 400
                   (Server.Failure "Invalid or missing 'tabId'. It should be a number."))))
  ∧ (∀ n dt, tabId = JS.Num n → Server.taskQueue s = [] → (0 ≤ dt)%Z →
       let first := (Server.switch_tab tabId s).1 in
       let pulled := (Server.get_task first).1 in
       let later := Server.with_now (Server.now pulled + dt) pulled in
       (Server.get_task first).2
       = Server.mkResponse 200
           (Server.NextTask
              (Task.mk (JS.Str ("switch-tab-" +:+ pretty n +:+ "-"
                                +:+ pretty (Server.now s)))
                       (JS.Str "switch-tab") tabId JS.Undefined JS.Undefined))
       ∧ is_Some (Server.pendingTasks later
                    !! JS.Str ("switch-tab-" +:+ pretty n +:+ "-"
                               +:+ pretty (Server.now s)))
       ∧ (Server.switch_tab tabId later).2 = None).
Proof.
  split_and!.
  - unfold Server.switch_tab. destruct (JS.is_number tabId); simpl.
    + destruct (list_find _ _); simpl; split; try done; by intros [].
    + split; [done|by intros []].
  - intros Hn. unfold Server.switch_tab. by rewrite Hn.
  - intros n dt -> Hq Hdt. simpl.
    unfold Server.switch_tab. simpl. rewrite Hq. simpl.
    split_and!; [done| |done].
    rewrite lookup_insert_eq. by eexists.
Qed.

(** X14. A timeout does not take the task out of the queue. When a
    submission through /add-task is not pulled within the 30000 ms, its
    wait is rejected with the timeout error, and the task is still queued:
    the next /get-task on an otherwise empty queue hands it out. *)
Theorem timed_out_task_stays_queued
    (taskId command url jsFunction tabId : JS.value) (s : Server.t) (dt : Z) :
  JS.includes Server.validCommands command = true →
  (30000 ≤ dt)%Z →
  let task := Server.addTask_task taskId command url jsFunction tabId s in
  ∃ s',
    Server.run
      [Server.Request (Server.AddTask taskId command url jsFunction tabId);
       Server.Tick dt; Server.TimerFires (Server.nextTimer s)] s = Some s'
    ∧ Server.settled s'
      = (Server.nextPromise s, Server.Rejected "Task timed out.") :: Server.settled s
    ∧ Server.pendingTasks s' !! Task.taskId task = None
    ∧ Server.taskQueue s' = Server.taskQueue s ++ [task]
    ∧ (Server.taskQueue s = [] →
       (Server.get_task s').2 = Server.mkResponse 200 (Server.NextTask task)).
Proof.
  intros Hc Hdt. simpl.
  unfold Server.add_task. rewrite Hc. simpl.
  rewrite bool_decide_eq_true_2 by lia.
  unfold Server.timerFires. simpl. rewrite lookup_insert_eq. simpl.
  rewrite bool_decide_eq_true_2 by (unfold Server.defaultTimeoutMs; lia).
  unfold Server.timeoutCallback. simpl. rewrite lookup_insert_eq. simpl.
  eexists. split; [reflexivity|]. simpl. split_and!; try done.
  - apply lookup_delete_eq.
  - intros Hq. unfold Server.get_task. simpl. by rewrite Hq.
Qed.

Lemma timed_out_task_stays_queued_witness :
  ∃ s',
    Server.run
      [Server.Request (Server.AddTask (JS.Str "t1") (JS.Str "open-tab")
                         (JS.Str "https://x") JS.Undefined JS.Undefined);
       Server.Tick 45000; Server.TimerFires 0] (Server.start None 0) = Some s'
    ∧ (Server.get_task s').2
      = Server.mkResponse 200
          (Server.NextTask (Task.mk (JS.Str "t1") (JS.Str "open-tab") JS.Null
                              (JS.Str "https://x") JS.Null)).
Proof.
  destruct (timed_out_task_stays_queued (JS.Str "t1") (JS.Str "open-tab")
              (JS.Str "https://x") JS.Undefined JS.Undefined (Server.start None 0)
              45000 eq_refl) as (s' & Hrun & _ & _ & _ & Hget).
  { lia. }
  exists s'. split; [exact Hrun|]. exact (Hget eq_refl).
Defined.

(** ** index.js: what the table of waits can and cannot do *)

(** One turn of the event loop hands out promises in increasing order,
    keeps or drops the entries it finds, adds at most an entry for the
    promise it hands out, and settles at most the promise of an entry. *)
Lemma step_frame e s s' :
  Server.step e s = Some s' →
  Server.nextPromise s ≤ Server.nextPromise s'
  ∧ (∀ k en, Server.pendingTasks s' !! k = Some en →
       Server.pendingTasks s !! k = Some en
       ∨ Server.promise en = Server.nextPromise s)
  ∧ (Server.settled s' = Server.settled s
     ∨ ∃ k en o, Server.pendingTasks s !! k = Some en
                 ∧ Server.settled s' = (Server.promise en, o) :: Server.settled s).
Proof.
  destruct e as [r|h|k|d]; simpl.
  - intros [= <-]. destruct (Server.handle r s).2 as [resp|] eqn:Hr.
    + destruct (request_answered r s resp Hr) as (Hnp & _ & _ & Hp & Hs & _).
      rewrite Hnp. split_and!; [lia| |done].
      intros k en Hk. destruct (Hp k) as [Heq|Heq]; rewrite Heq in Hk; [by left|done].
    + destruct (submission_accepted r s Hr)
        as (task & _ & Hp & _ & Hnp & _ & Hs & _).
      rewrite Hnp, Hp, Hs. split_and!; [lia| |by left].
      intros k en [[_ <-]|[_ Hk]]%lookup_insert_Some; [by right|by left].
  - unfold Server.timerFires.
    destruct (Server.timers s !! h) as [tm|]; [|done].
    case_bool_decide; [|done]. intros [= <-].
    unfold Server.timeoutCallback. simpl.
    destruct (Server.pendingTasks s !! Server.forTask tm) as [en|] eqn:Hen; simpl.
    + split_and!; [lia| |].
      * intros k en' [_ Hk]%lookup_delete_Some. by left.
      * right. by exists (Server.forTask tm), en, (Server.Rejected "Task timed out.").
    + split_and!; [lia| |by left]. intros k en' Hk. by left.
  - unfold Server.writeDone.
    destruct (TabManager.writeCallback k (Server.tabManager s)); [|done].
    intros [= <-]. simpl. split_and!; [lia| |by left]. by left.
  - case_bool_decide; [|done]. intros [= <-]. simpl.
    split_and!; [lia| |by left]. by left.
Qed.

Lemma orphaned_step p e s s' :
  Server.orphaned p s → Server.step e s = Some s' → Server.orphaned p s'.
Proof.
  intros (Hlt & Hno & Hun) Hstep.
  destruct (step_frame e s s' Hstep) as (Hnp & Hp & Hs).
  split_and!.
  - lia.
  - intros k en Hk Heq. destruct (Hp k en Hk) as [Hold|Hnew].
    + by apply (Hno k en).
    + lia.
  - destruct Hs as [-> |(k & en & o & Hk & ->)]; [done|].
    rewrite fmap_cons. simpl. intros [Heq|Hin]%elem_of_cons; [|done].
    by apply (Hno k en).
Qed.

Lemma orphaned_run p es : ∀ s s',
  Server.orphaned p s → Server.run es s = Some s' → Server.orphaned p s'.
Proof.
  induction es as [|e es IH]; intros s s' Ho; simpl.
  - by intros [= <-].
  - destruct (Server.step e s) as [s1|] eqn:Hstep; [|done].
    apply IH. by apply (orphaned_step p e s).
Qed.

(** A request that registers a wait under [taskId] writes the entry of
    the promise it hands out under that key. *)
Lemma registers_handle taskId r s :
  Server.registers taskId (Server.Request r) s →
  Server.pendingTasks (Server.handle r s).1
  = <[taskId := Server.mkPending (Server.nextPromise s) (Server.nextTimer s)]>
      (Server.pendingTasks s)
  ∧ Server.nextPromise (Server.handle r s).1 = S (Server.nextPromise s)
  ∧ Server.settled (Server.handle r s).1 = Server.settled s.
Proof.
  destruct r; simpl; try done.
  - intros [Hc <-]. unfold Server.add_task. by rewrite Hc.
  - intros [Hacc <-]. revert Hacc. unfold Server.switch_tab.
    destruct (negb _); [done|]. by destruct (list_find _ _).
  - intros [Hacc <-]. revert Hacc. unfold Server.execute_js.
    destruct (negb _); [done|]. by destruct (negb _).
Qed.

(** X15. A submission whose task id still has an entry in the table
    overwrites the entry, and the caller of the earlier wait is never
    answered: whatever the server does afterwards (reports, timers,
    further submissions), the earlier promise is neither resolved nor
    rejected, and no entry of the table leads to it any more. *)
Theorem overwritten_wait_is_never_settled
    (file : option TabManager.document) (t0 : Z) (es0 es : list Server.event)
    (taskId : JS.value) (r : Server.request) (e : Server.pending) (s s' : Server.t) :
  Server.run es0 (Server.start file t0) = Some s →
  Server.pendingTasks s !! taskId = Some e →
  Server.registers taskId (Server.Request r) s →
  Server.run (Server.Request r :: es) s = Some s' →
  (Server.promise e ∉ (Server.settled s').*1)
  ∧ ∀ k en, Server.pendingTasks s' !! k = Some en → Server.promise en ≠ Server.promise e.
Proof.
  intros Hreach He Hreg Hrun. simpl in Hrun.
  pose proof (well_formed_run es0 _ _ (well_formed_start file t0) Hreach) as Hwf.
  destruct (registers_handle taskId r s Hreg) as (Hp & Hnp & Hs).
  assert (Server.orphaned (Server.promise e) (Server.handle r s).1) as Ho.
  { destruct (Server.wf_entry_bounds _ Hwf taskId e He) as [Hb _].
    unfold Server.orphaned. rewrite Hp, Hnp, Hs. split_and!.
    - lia.
    - intros k en [[_ <-]|[Hne Hk]]%lookup_insert_Some; simpl; [lia|].
      intros Heq. apply Hne. symmetry.
      by apply (Server.wf_entry_promises _ Hwf k taskId en e).
    - by apply (Server.wf_entry_unsettled _ Hwf taskId e). }
  destruct (orphaned_run _ es _ _ Ho Hrun) as (_ & Hno & Hun). by split.
Qed.

Lemma overwritten_wait_is_never_settled_witness :
  ∃ s',
    Server.run
      [Server.Request (Server.AddTask (JS.Str "a") (JS.Str "close-tab") JS.Undefined
                         JS.Undefined (JS.Num 7));
       Server.Request (Server.AddTask (JS.Str "a") (JS.Str "open-tab")
                         (JS.Str "https://x") JS.Undefined JS.Undefined);
       Server.Request (Server.ReportResult (JS.Str "a") (JS.Prim JS.Null));
       Server.Tick 30000; Server.TimerFires 0]
      (Server.start None 0) = Some s'
    ∧ (0 ∉ (Server.settled s').*1)
    ∧ Server.settled s' = [(1, Server.Resolved (JS.Prim JS.Null))].
Proof.
  set (first := Server.AddTask (JS.Str "a") (JS.Str "close-tab") JS.Undefined
                  JS.Undefined (JS.Num 7)).
  set (second := Server.AddTask (JS.Str "a") (JS.Str "open-tab")
                   (JS.Str "https://x") JS.Undefined JS.Undefined).
  set (es := [Server.Request (Server.ReportResult (JS.Str "a") (JS.Prim JS.Null));
              Server.Tick 30000; Server.TimerFires 0]).
  set (s := (Server.handle first (Server.start None 0)).1).
  set (s' := default s (Server.run (Server.Request second :: es) s)).
  assert (Server.run [Server.Request first] (Server.start None 0) = Some s) as H0
    by reflexivity.
  assert (Server.pendingTasks s !! JS.Str "a" = Some (Server.mkPending 0 0)) as H1
    by (vm_compute; reflexivity).
  assert (Server.registers (JS.Str "a") (Server.Request second) s) as H2
    by (split; vm_compute; reflexivity).
  assert (Server.run (Server.Request second :: es) s = Some s') as H3
    by (vm_compute; reflexivity).
  exists s'. split; [vm_compute; reflexivity|].
  split; [|vm_compute; reflexivity].
  exact (proj1 (overwritten_wait_is_never_settled None 0 _ es (JS.Str "a") second
                  (Server.mkPending 0 0) s s' H0 H1 H2 H3)).
Defined.

(** X16. The id /add-task generates for a submission that brings none is
    a function of the clock alone: two generated ids are equal exactly
    when the clock reads the same millisecond. Two such submissions in one
    millisecond therefore queue two tasks under one id and leave one entry
    in the table, that of the second. *)
Theorem generated_task_id_follows_the_clock
    (taskId1 command1 url1 jsFunction1 tabId1 : JS.value)
    (taskId2 command2 url2 jsFunction2 tabId2 : JS.value) (s1 s2 : Server.t) :
  JS.truthy taskId1 = false →
  JS.truthy taskId2 = false →
  let task1 := Server.addTask_task taskId1 command1 url1 jsFunction1 tabId1 s1 in
  let task2 := Server.addTask_task taskId2 command2 url2 jsFunction2 tabId2 s2 in
  (Task.taskId task1 = Task.taskId task2 ↔ Server.now s1 = Server.now s2)
  ∧ (JS.includes Server.validCommands command1 = true →
     JS.includes Server.validCommands command2 = true →
     s2 = (Server.add_task taskId1 command1 url1 jsFunction1 tabId1 s1).1 →
     let s3 := (Server.add_task taskId2 command2 url2 jsFunction2 tabId2 s2).1 in
     Server.taskQueue s3 = Server.taskQueue s1 ++ [task1; task2]
     ∧ Server.pendingTasks s3
       = <[Task.taskId task1 :=
             Server.mkPending (S (Server.nextPromise s1)) (S (Server.nextTimer s1))]>
           (Server.pendingTasks s1)).
Proof.
  intros H1 H2. simpl. unfold Server.addTask_task, JS.or. rewrite H1, H2. simpl.
  split.
  - split.
    + intros Heq. assert ("task-" +:+ pretty (Server.now s1)
                          = "task-" +:+ pretty (Server.now s2)) as Hid by congruence.
      by apply (inj (String.app _)), (inj pretty) in Hid.
    + by intros ->.
  - intros Hc1 Hc2 ->. unfold Server.add_task. rewrite Hc1, Hc2. simpl.
    unfold Server.addTask_task, JS.or. rewrite H1, H2. simpl.
    unfold TaskQueue.addTask. rewrite <- app_assoc. split; [done|].
    apply insert_insert_eq.
Qed.

Lemma generated_task_id_follows_the_clock_witness :
  let s1 := Server.start None 1700 in
  let s2 := (Server.add_task JS.Undefined (JS.Str "open-tab") (JS.Str "https://a")
               JS.Undefined JS.Undefined s1).1 in
  let s3 := (Server.add_task JS.Null (JS.Str "close-tab") JS.Undefined JS.Undefined
               (JS.Num 4) s2).1 in
  length (Server.taskQueue s3) = 2
  ∧ Server.pendingTasks s3 !! JS.Str "task-1700" = Some (Server.mkPending 1 1)
  ∧ size (Server.pendingTasks s3) = 1.
Proof.
  intros s1 s2 s3.
  destruct (generated_task_id_follows_the_clock
              JS.Undefined (JS.Str "open-tab") (JS.Str "https://a") JS.Undefined
              JS.Undefined
              JS.Null (JS.Str "close-tab") JS.Undefined JS.Undefined (JS.Num 4)
              s1 s2 eq_refl eq_refl) as [_ H].
  destruct (H eq_refl eq_refl eq_refl) as [Hq Hp].
  fold s3 in Hq, Hp. rewrite Hq, Hp.
  split_and!; vm_compute; reflexivity.
Defined.

(** ** index.js: every wait has its timer *)

Lemma entries_armed_settle taskId e o s :
  Server.entries_armed s →
  Server.pendingTasks s !! taskId = Some e →
  Server.entries_armed
    (Server.with_pendingTasks (delete taskId (Server.pendingTasks s))
       (Server.settle (Server.promise e) o (Server.clearTimeout (Server.timeout e) s))).
Proof.
  intros Ha He k en Hk. simpl in *.
  apply lookup_delete_Some in Hk as [Hne Hk].
  destruct (Ha k en Hk) as (tm & Htm & Hfor & Hdue).
  destruct (Ha taskId e He) as (tm' & Htm' & Hfor' & _).
  exists tm. split_and!; try done.
  rewrite lookup_delete_ne; [done|].
  intros Heq. rewrite Heq in Htm'. congruence.
Qed.

Lemma entries_armed_wait taskId s :
  Server.well_formed s → Server.entries_armed s →
  Server.entries_armed (Server.waitForTaskCompletion taskId Server.defaultTimeoutMs s).2.
Proof.
  intros Hwf Ha k en Hk. simpl in *.
  apply lookup_insert_Some in Hk as [[<- <-]|[Hne Hk]]; simpl.
  - eexists. rewrite lookup_insert_eq. split_and!; [done|done|simpl; lia].
  - destruct (Ha k en Hk) as (tm & Htm & Hfor & Hdue).
    destruct (Server.wf_entry_bounds _ Hwf k en Hk) as [_ Hb].
    exists tm. rewrite lookup_insert_ne by lia. done.
Qed.

Lemma entries_armed_ext s s' :
  Server.pendingTasks s' = Server.pendingTasks s →
  Server.timers s' = Server.timers s →
  Server.now s' = Server.now s →
  Server.entries_armed s → Server.entries_armed s'.
Proof. unfold Server.entries_armed. by intros -> -> ->. Qed.

Lemma entries_armed_handle r s :
  Server.well_formed s → Server.entries_armed s →
  Server.entries_armed (Server.handle r s).1.
Proof.
  intros Hwf Ha. destruct r; simpl.
  - unfold Server.add_task. destruct (negb _); [done|]. cbn [fst].
    apply entries_armed_wait; [|by eapply entries_armed_ext].
    by apply (well_formed_bookkeeping s).
  - unfold Server.get_task.
    destruct (TaskQueue.getNextTask _) as [[task|] q]; by eapply entries_armed_ext.
  - unfold Server.report_result. cbn [fst].
    pose proof (reconcile_bookkeeping data s) as [= Hp Ht Hnt Hnp Hs].
    assert (Server.entries_armed (Server.reconcile data s)) as Ha'.
    { apply (entries_armed_ext s); try done.
      unfold Server.reconcile.
      by destruct (Server.carriesTab data), (Server.carriesClosedTab data). }
    destruct (Server.pendingTasks (Server.reconcile data s) !! taskId) as [e|] eqn:He;
      [|done].
    by apply entries_armed_settle.
  - done.
  - unfold Server.report_error. cbn [fst].
    destruct (Server.pendingTasks s !! taskId) as [e|] eqn:He; [|done].
    by apply entries_armed_settle.
  - destruct tabs as [tabs|]; simpl; [|done].
    destruct (TabManager.replaceAllTabs_unchecked _ _ _) as [m' returned].
    by eapply entries_armed_ext.
  - unfold Server.switch_tab. destruct (negb _); [done|].
    destruct (list_find _ _); [done|]. cbn [fst].
    apply entries_armed_wait; [|by eapply entries_armed_ext].
    by apply (well_formed_bookkeeping s).
  - unfold Server.execute_js. destruct (negb _); [done|].
    destruct (negb _); [done|]. cbn [fst].
    apply entries_armed_wait; [|by eapply entries_armed_ext].
    by apply (well_formed_bookkeeping s).
Qed.

Lemma entries_armed_step e s s' :
  Server.well_formed s → Server.entries_armed s →
  Server.step e s = Some s' → Server.entries_armed s'.
Proof.
  intros Hwf Ha. destruct e as [r|h|k|d]; simpl.
  - intros [= <-]. by apply entries_armed_handle.
  - unfold Server.timerFires.
    destruct (Server.timers s !! h) as [tm|] eqn:Htm; [|done].
    case_bool_decide; [|done]. intros [= <-].
    unfold Server.timeoutCallback. simpl.
    assert (∀ k en, Server.pendingTasks s !! k = Some en → k ≠ Server.forTask tm →
              ∃ tm', delete h (Server.timers s) !! Server.timeout en = Some tm'
                     ∧ Server.forTask tm' = k
                     ∧ (Server.due tm' ≤ Server.now s + Server.defaultTimeoutMs)%Z)
      as Hrest.
    { intros k en Hk Hne. destruct (Ha k en Hk) as (tm' & Htm' & Hfor & Hdue).
      exists tm'. split_and!; try done.
      rewrite lookup_delete_ne; [done|]. intros Heq. rewrite Heq in Htm. congruence. }
    destruct (Server.pendingTasks s !! Server.forTask tm) as [en|] eqn:Hen; simpl.
    + intros k en' Hk. simpl in *.
      apply lookup_delete_Some in Hk as [Hne Hk]. by apply Hrest.
    + intros k en' Hk. simpl in *. apply Hrest; [done|]. intros ->. congruence.
  - unfold Server.writeDone.
    destruct (TabManager.writeCallback k (Server.tabManager s)); [|done].
    intros [= <-]. by eapply entries_armed_ext.
  - case_bool_decide; [|done]. intros [= <-]. intros k en Hk. simpl in *.
    destruct (Ha k en Hk) as (tm & Htm & Hfor & Hdue).
    exists tm. split_and!; try done. lia.
Qed.

Lemma entries_armed_run es : ∀ s s',
  Server.well_formed s → Server.entries_armed s →
  Server.run es s = Some s' → Server.entries_armed s'.
Proof.
  induction es as [|e es IH]; intros s s' Hwf Ha; simpl.
  - by intros [= <-].
  - destruct (Server.step e s) as [s1|] eqn:Hstep; [|done].
    apply IH; [by apply (well_formed_step e s)|by apply (entries_armed_step e s)].
Qed.

(** X17. No entry of the table of waits is left without its timer. In
    every state the server reaches, each entry holds the handle of an
    armed timer that names the entry's own key and is due at most 30000 ms
    from now; once that time has passed the timer can fire, and its firing
    rejects the entry's promise with the timeout error and deletes the
    entry. *)
Theorem every_wait_has_its_timer
    (file : option TabManager.document) (t0 : Z) (es : list Server.event)
    (s : Server.t) (k : JS.value) (e : Server.pending) :
  Server.run es (Server.start file t0) = Some s →
  Server.pendingTasks s !! k = Some e →
  ∃ tm,
    Server.timers s !! Server.timeout e = Some tm
    ∧ Server.forTask tm = k
    ∧ (Server.due tm ≤ Server.now s + 30000)%Z
    ∧ ∀ dt, (0 ≤ dt)%Z → (Server.due tm ≤ Server.now s + dt)%Z →
        ∃ s', Server.run [Server.Tick dt; Server.TimerFires (Server.timeout e)] s
              = Some s'
              ∧ Server.pendingTasks s' !! k = None
              ∧ Server.settled s'
                = (Server.promise e, Server.Rejected "Task timed out.")
                    :: Server.settled s.
Proof.
  intros Hreach Hk.
  assert (Server.entries_armed s) as Ha.
  { apply (entries_armed_run es (Server.start file t0)); [|done|done].
    apply well_formed_start. }
  destruct (Ha k e Hk) as (tm & Htm & Hfor & Hdue).
  exists tm. split_and!; try done.
  intros dt Hdt Hpast. simpl.
  rewrite bool_decide_eq_true_2 by done.
  unfold Server.timerFires. simpl. rewrite Htm.
  rewrite bool_decide_eq_true_2 by done.
  unfold Server.timeoutCallback. simpl. rewrite Hfor, Hk.
  eexists. split; [done|]. simpl. split; [apply lookup_delete_eq|done].
Qed.

Lemma every_wait_has_its_timer_witness :
  let s := (Server.switch_tab (JS.Num 5) (Server.start None 100)).1 in
  let k := JS.Str "switch-tab-5-100" in
  ∃ tm,
    Server.timers s !! 0 = Some tm
    ∧ Server.forTask tm = k
    ∧ (Server.due tm ≤ 100 + 30000)%Z.
Proof.
  intros s k.
  destruct (every_wait_has_its_timer None 100
              [Server.Request (Server.SwitchTab (JS.Num 5))] s k
              (Server.mkPending 0 0) eq_refl eq_refl)
    as (tm & Htm & Hfor & Hdue & _).
  by exists tm.
Defined.

(** X18. A handler leaves its caller waiting exactly when it has queued
    a task: a request that is not answered at once has appended one task
    with a truthy id and stored one entry under that id, and nothing else
    grows the queue or hands out a promise. A submission that is answered
    at once, with status 400 or 409, has changed nothing. *)
Theorem caller_waits_exactly_when_task_is_queued (r : Server.request) (s : Server.t) :
  let s' := (Server.handle r s).1 in
  ((Server.handle r s).2 = None
   ↔ length (Server.taskQueue s') = S (length (Server.taskQueue s)))
  ∧ ((Server.handle r s).2 = None ↔ Server.nextPromise s' = S (Server.nextPromise s))
  ∧ ((Server.handle r s).2 = None →
     ∃ task, Server.taskQueue s' = Server.taskQueue s ++ [task]
             ∧ JS.truthy (Task.taskId task) = true
             ∧ Server.pendingTasks s' !! Task.taskId task
               = Some (Server.mkPending (Server.nextPromise s) (Server.nextTimer s)))
  ∧ (∀ resp, Server.is_submission r = true → (Server.handle r s).2 = Some resp →
       s' = s ∧ (Server.status resp = 400 ∨ Server.status resp = 409)%Z).
Proof.
  simpl. destruct (Server.handle r s).2 as [resp|] eqn:Hr.
  - destruct (request_answered r s resp Hr) as (Hnp & _ & Hq & _ & _ & Hsub).
    split_and!.
    + split; [done|]. intros Hlen. exfalso.
      destruct Hq as [Hq|[_ Hq]]; rewrite Hq in Hlen; [lia|].
      destruct (Server.taskQueue s); simpl in Hlen; lia.
    + split; [done|]. rewrite Hnp. lia.
    + done.
    + intros resp' Hs [= <-]. destruct (Hsub Hs) as [Heq [message [-> | ->]]]; auto.
  - destruct (submission_accepted r s Hr)
      as (task & Hq & Hp & _ & Hnp & _ & _ & _ & _ & Htruthy).
    split_and!.
    + split; [|done]. intros _. rewrite Hq, length_app. simpl. lia.
    + by split.
    + intros _. exists task. split_and!; try done. rewrite Hp. apply lookup_insert_eq.
    + done.
Qed.





(** ** background.js: the debounced report *)

Section DebounceFacts.
Context {A : Type}.
Implicit Types (d : Debounce.t A) (es : list (Debounce.event A)).

Lemma tidy_init t0 : Debounce.tidy (Debounce.init (A:=A) t0).
Proof. split; [|done]. intros h x Hh. simpl in Hh. by rewrite lookup_empty in Hh. Qed.

Lemma tidy_cleared d :
  Debounce.tidy d →
  match Debounce.timerId d with
  | Some h => delete h (Debounce.timers d)
  | None => Debounce.timers d
  end = ∅.
Proof.
  intros [Hone _]. apply map_empty. intros h.
  destruct (Debounce.timerId d) as [h0|] eqn:Hid.
  - apply lookup_delete_None. destruct (decide (h0 = h)) as [->|Hne]; [by left|right].
    destruct (Debounce.timers d !! h) as [x|] eqn:Hh; [|done].
    specialize (Hone h x Hh). congruence.
  - destruct (Debounce.timers d !! h) as [x|] eqn:Hh; [|done].
    by specialize (Hone h x Hh).
Qed.

Lemma call_timers delay args d :
  Debounce.tidy d →
  Debounce.timers (Debounce.call delay args d)
  = {[ Debounce.nextHandle d := ((Debounce.now d + delay)%Z, args) ]}.
Proof.
  intros Ht. unfold Debounce.call. simpl. by rewrite (tidy_cleared d Ht).
Qed.

Lemma tidy_step delay e d d' :
  Debounce.tidy d → Debounce.step delay e d = Some d' → Debounce.tidy d'.
Proof.
  intros Ht. destruct e as [args|h|dt]; simpl.
  - intros [= <-]. split.
    + intros h x. rewrite (call_timers delay args d Ht).
      intros [<- _]%lookup_singleton_Some. done.
    + simpl. intros h [= <-]. lia.
  - unfold Debounce.fires.
    destruct (Debounce.timers d !! h) as [[due args]|] eqn:Hh; [|done].
    case_bool_decide; [|done]. intros [= <-]. split; [|done]. simpl.
    intros h' x [Hne Hh']%lookup_delete_Some.
    destruct Ht as [Hone _]. pose proof (Hone h _ Hh). pose proof (Hone h' _ Hh').
    congruence.
  - case_bool_decide; [|done]. by intros [= <-].
Qed.

Lemma tidy_run delay es : ∀ d d',
  Debounce.tidy d → Debounce.run delay es d = Some d' → Debounce.tidy d'.
Proof.
  induction es as [|e es IH]; intros d d' Ht; simpl.
  - by intros [= <-].
  - destruct (Debounce.step delay e d) as [d1|] eqn:Hstep; [|done].
    apply IH. by apply (tidy_step delay e d).
Qed.

Lemma run_delivers delay es : ∀ d d',
  Debounce.tidy d → Debounce.run delay es d = Some d' →
  ∃ l, Debounce.applied d' ++ Debounce.waiting d' = Debounce.applied d ++ l
       ∧ l `sublist_of` Debounce.waiting d ++ Debounce.calls es.
Proof.
  induction es as [|e es IH]; intros d d' Ht; simpl.
  - intros [= <-]. exists (Debounce.waiting d). split; [done|]. by rewrite app_nil_r.
  - destruct (Debounce.step delay e d) as [d1|] eqn:Hstep; [|done]. intros Hrun.
    pose proof (tidy_step delay e d d1 Ht Hstep) as Ht1.
    destruct (IH d1 d' Ht1 Hrun) as (l & Heq & Hsub).
    destruct e as [args|h|dt]; simpl in Hstep.
    + injection Hstep as <-. exists l. split; [done|].
      assert (Debounce.waiting (Debounce.call delay args d) = [args]) as Hw.
      { unfold Debounce.waiting. simpl.
        pose proof (call_timers delay args d Ht) as Hc. unfold Debounce.call in Hc.
        simpl in Hc. rewrite Hc. by rewrite lookup_singleton_eq. }
      rewrite Hw in Hsub. unfold Debounce.calls. simpl.
      by apply sublist_inserts_l.
    + unfold Debounce.fires in Hstep.
      destruct (Debounce.timers d !! h) as [[due args]|] eqn:Hh; [|done].
      case_bool_decide; [|done]. injection Hstep as <-.
      assert (Debounce.waiting d = [args]) as Hw.
      { unfold Debounce.waiting. simpl. destruct Ht as [Hone _].
        rewrite (Hone h _ Hh). by rewrite Hh. }
      exists (args :: l). simpl in Heq. rewrite <- app_assoc in Heq.
      split; [done|]. rewrite Hw. unfold Debounce.calls. simpl.
      apply sublist_skip. done.
    + case_bool_decide; [|done]. injection Hstep as <-. exists l. split; [done|].
      unfold Debounce.calls. simpl. done.
Qed.

(** X20. The debounced function passes on only what it was called with:
    over every run of calls, timer firings and passing time, from the
    creation of the closure, at most one timer is armed (the one
    [timerId] holds), and the applications of the wrapped function, in
    order, are a sub-sequence of the calls: no call is delivered twice or
    out of order, and calls may be dropped. *)
Theorem debounce_delivers_a_subsequence_of_the_calls
    (delay t0 : Z) es d :
  Debounce.run delay es (Debounce.init t0) = Some d →
  Debounce.applied d `sublist_of` Debounce.calls es
  ∧ length (Debounce.applied d) + size (Debounce.timers d) ≤ length (Debounce.calls es)
  ∧ size (Debounce.timers d) ≤ 1
  ∧ (∀ h x, Debounce.timers d !! h = Some x → Debounce.timerId d = Some h).
Proof.
  intros Hrun.
  pose proof (tidy_run delay es _ _ (tidy_init t0) Hrun) as Ht.
  destruct (run_delivers delay es _ _ (tidy_init t0) Hrun) as (l & Heq & Hsub).
  simpl in Heq, Hsub. subst l.
  assert (size (Debounce.timers d) = length (Debounce.waiting d)) as Hsize.
  { unfold Debounce.waiting. simpl. destruct Ht as [Hone _].
    destruct (Debounce.timerId d) as [h|] eqn:Hid.
    - destruct (Debounce.timers d !! h) as [x|] eqn:Hh; simpl.
      + assert (Debounce.timers d = {[ h := x ]}) as ->; [|by rewrite map_size_singleton].
        apply map_eq. intros k. destruct (decide (k = h)) as [->|Hne].
        * by rewrite lookup_singleton_eq.
        * rewrite lookup_singleton_ne by done.
          destruct (Debounce.timers d !! k) as [y|] eqn:Hk; [|done].
          specialize (Hone k y Hk). congruence.
      + assert (Debounce.timers d = ∅) as ->; [|done].
        apply map_empty. intros k.
        destruct (Debounce.timers d !! k) as [y|] eqn:Hk; [|done].
        specialize (Hone k y Hk). congruence.
    - assert (Debounce.timers d = ∅) as ->; [|done].
      apply map_empty. intros k.
      destruct (Debounce.timers d !! k) as [y|] eqn:Hk; [|done].
      by specialize (Hone k y Hk). }
  split_and!.
  - etrans; [|exact Hsub]. by apply sublist_inserts_r.
  - rewrite Hsize, <- length_app. by apply sublist_length.
  - rewrite Hsize. unfold Debounce.waiting. simpl.
    destruct (Debounce.timerId d) as [h|]; [|simpl; lia].
    destruct (Debounce.timers d !! h); simpl; lia.
  - by destruct Ht.
Qed.

Lemma debounce_run_app delay es1 : ∀ es2 d,
  Debounce.run delay (es1 ++ es2) d
  = Debounce.run delay es1 d ≫= Debounce.run delay es2.
Proof.
  induction es1 as [|e es1 IH]; intros es2 d; simpl; [done|].
  destruct (Debounce.step delay e d); [apply IH|done].
Qed.

(** While the only timer is not due, no timer can fire. *)
Lemma lone_timer_cannot_fire d h due args k :
  Debounce.timers d = {[ h := (due, args) ]} → (Debounce.now d < due)%Z →
  Debounce.fires k d = None.
Proof.
  intros Ht Hdue. unfold Debounce.fires. rewrite Ht.
  destruct (decide (k = h)) as [->|Hne].
  - rewrite lookup_singleton_eq. by rewrite bool_decide_eq_false_2 by lia.
  - by rewrite lookup_singleton_ne.
Qed.

(** Calls that follow one another within less than the delay: each one
    clears the timer of the one before, which cannot fire in between. *)
Lemma burst_run delay rest : (0 < delay)%Z → ∀ d h args,
  Debounce.timerId d = Some h →
  Debounce.timers d = {[ h := ((Debounce.now d + delay)%Z, args) ]} →
  Forall (λ x, 0 ≤ x.1 < delay)%Z rest →
  (∀ es1 es2 k,
     flat_map (λ x, [Debounce.Tick x.1; Debounce.Call x.2]) rest = es1 ++ es2 →
     Debounce.run delay (es1 ++ Debounce.Fires k :: es2) d = None)
  ∧ ∃ d' h',
      Debounce.run delay
        (flat_map (λ x, [Debounce.Tick x.1; Debounce.Call x.2]) rest) d = Some d'
      ∧ Debounce.applied d' = Debounce.applied d
      ∧ Debounce.timerId d' = Some h'
      ∧ Debounce.timers d'
        = {[ h' := ((Debounce.now d' + delay)%Z, default args (last rest.*2)) ]}.
Proof.
  intros Hpos. induction rest as [|[dt b] rest IH]; intros d h args Hid Ht Hgaps.
  - split.
    + intros es1 es2 k Hes. symmetry in Hes. apply app_eq_nil in Hes as [-> ->].
      simpl. by rewrite (lone_timer_cannot_fire d h _ args k Ht) by lia.
    + by exists d, h.
  - apply Forall_cons in Hgaps as [Hdt Hgaps]. simpl in Hdt.
    set (d1 := Debounce.mk (Debounce.timerId d) (Debounce.timers d)
                 (Debounce.nextHandle d) (Debounce.applied d) (Debounce.now d + dt)%Z).
    assert (Debounce.step delay (Debounce.Tick dt) d = Some d1) as Htick.
    { simpl. by rewrite bool_decide_eq_true_2 by lia. }
    assert (Debounce.timers (Debounce.call delay b d1)
            = {[ Debounce.nextHandle d :=
                   ((Debounce.now (Debounce.call delay b d1) + delay)%Z, b) ]}) as Hcall.
    { unfold Debounce.call. simpl. rewrite Hid, Ht, delete_singleton_eq. done. }
    destruct (IH (Debounce.call delay b d1) (Debounce.nextHandle d) b eq_refl Hcall Hgaps)
      as (Hquiet & d' & h' & Hrun & Happ & Hid' & Ht').
    split.
    + intros es1 es2 k Hes. cbn [flat_map app fst snd] in Hes.
      destruct es1 as [|e1 [|e2 es1]]; simpl in Hes.
      * simpl. by rewrite (lone_timer_cannot_fire d h _ args k Ht) by lia.
      * injection Hes as <- <-. cbn [app Debounce.run]. rewrite Htick.
        cbn [Debounce.run Debounce.step].
        rewrite (lone_timer_cannot_fire d1 h (Debounce.now d + delay)%Z args k);
          [done|done|simpl; lia].
      * injection Hes as <- <- Hes. cbn [app Debounce.run]. rewrite Htick.
        cbn [Debounce.run Debounce.step]. by apply Hquiet.
    + exists d', h'. cbn [flat_map app fst snd Debounce.run]. rewrite Htick.
      cbn [Debounce.run Debounce.step]. rewrite Hrun. split_and!; try done.
      rewrite Ht'. cbn [fmap list_fmap snd]. rewrite last_cons.
      by destruct (last rest.*2).
Qed.

(** X21. A burst of calls delivers the last one only. When the debounced
    function is called again and again, each time less than the delay
    after the call before, no timer can fire during the burst, nothing is
    applied, and what is left is the single timer of the last call; when
    it fires, a full delay after that call, the wrapped function is
    applied once, with the arguments of the last call: the arguments of
    all other calls of the burst are dropped. *)
Theorem debounce_burst_delivers_last_call_only
    (delay : Z) d (first : A) (rest : list (Z * A)) :
  (0 < delay)%Z →
  Debounce.tidy d →
  Forall (λ x, 0 ≤ x.1 < delay)%Z rest →
  let es :=
    Debounce.Call first
      :: flat_map (λ x, [Debounce.Tick x.1; Debounce.Call x.2]) rest in
  let final := default first (last rest.*2) in
  (∀ es1 es2 k, es = es1 ++ es2 → es1 ≠ [] →
     Debounce.run delay (es1 ++ Debounce.Fires k :: es2) d = None)
  ∧ ∃ d' h,
      Debounce.run delay es d = Some d'
      ∧ Debounce.applied d' = Debounce.applied d
      ∧ Debounce.timers d' = {[ h := ((Debounce.now d' + delay)%Z, final) ]}
      ∧ ∀ dt, (delay ≤ dt)%Z →
          ∃ d'', Debounce.run delay [Debounce.Tick dt; Debounce.Fires h] d' = Some d''
                 ∧ Debounce.applied d'' = Debounce.applied d ++ [final]
                 ∧ Debounce.timers d'' = ∅.
Proof.
  intros Hpos Htidy Hgaps. simpl.
  pose proof (call_timers delay first d Htidy) as Hcall.
  destruct (burst_run delay rest Hpos (Debounce.call delay first d)
              (Debounce.nextHandle d) first eq_refl Hcall Hgaps)
    as (Hquiet & d' & h & Hrun & Happ & Hid & Ht).
  split.
  - intros es1 es2 k Hes Hne. destruct es1 as [|e1 es1]; [done|].
    simpl in Hes. injection Hes as <- Hes. simpl. by apply Hquiet.
  - exists d', h. split_and!; try done.
    intros dt Hdt. simpl. rewrite bool_decide_eq_true_2 by lia.
    unfold Debounce.fires. simpl. rewrite Ht, lookup_singleton_eq.
    rewrite bool_decide_eq_true_2 by lia.
    eexists. split; [done|]. simpl. rewrite Happ. split; [done|].
    apply delete_singleton_eq.
Qed.

End DebounceFacts.

Lemma debounce_delivers_a_subsequence_of_the_calls_witness :
  let es := [Debounce.Call 1; Debounce.Tick 100; Debounce.Call 2;
             Debounce.Tick 500; Debounce.Fires 1; Debounce.Call 3] in
  ∃ d, Debounce.run 500 es (Debounce.init 0) = Some d
       ∧ Debounce.applied d = [2]
       ∧ [2] `sublist_of` [1; 2; 3].
Proof.
  intros es.
  set (d := default (Debounce.init 0) (Debounce.run 500 es (Debounce.init 0))).
  assert (Debounce.run 500 es (Debounce.init 0) = Some d) as Hrun
    by (vm_compute; reflexivity).
  exists d. split; [done|]. split; [vm_compute; reflexivity|].
  exact (proj1 (debounce_delivers_a_subsequence_of_the_calls 500 0 es d Hrun)).
Defined.

Lemma debounce_burst_delivers_last_call_only_witness :
  ∃ d' h,
    Debounce.run 500
      [Debounce.Call "open"; Debounce.Tick 20; Debounce.Call "update";
       Debounce.Tick 300; Debounce.Call "close"] (Debounce.init 0) = Some d'
    ∧ Debounce.applied d' = []
    ∧ Debounce.timers d' = {[ h := (Debounce.now d' + 500, "close") ]}%Z.
Proof.
  destruct (debounce_burst_delivers_last_call_only 500 (Debounce.init 0) "open"
              [(20, "update"); (300, "close")]%Z) as (_ & d' & h & Hrun & Happ & Ht & _).
  - lia.
  - apply tidy_init.
  - repeat constructor; simpl; lia.
  - by exists d', h.
Defined.

(** ** background.js: from the task to the report *)

(** A property read gives the same on both sides of the wire: a property
    that [JSON.stringify] leaves out was [undefined]. *)
Lemma get_overTheWire d f : JS.get (Extension.overTheWire d) f = JS.get d f.
Proof.
  destruct d as [v|fields]; simpl; [done|].
  destruct (fields !! f) as [v|] eqn:Hf; simpl.
  - destruct (decide (v = JS.Undefined)) as [->|Hne].
    + by rewrite (proj2 (map_lookup_filter_None _ fields f))
        by (right; intros x Hx; simpl; congruence).
    + by rewrite (map_lookup_filter_Some_2 _ fields f v).
  - by rewrite (proj2 (map_lookup_filter_None _ fields f)) by (by left).
Qed.

Lemma carriesTab_overTheWire d :
  Server.carriesTab (Extension.overTheWire d) = Server.carriesTab d.
Proof.
  unfold Server.carriesTab. rewrite !get_overTheWire. by destruct d.
Qed.

Lemma carriesClosedTab_overTheWire d :
  Server.carriesClosedTab (Extension.overTheWire d) = Server.carriesClosedTab d.
Proof.
  unfold Server.carriesClosedTab. rewrite !get_overTheWire. by destruct d.
Qed.

Lemma reconcile_overTheWire d s :
  Server.reconcile (Extension.overTheWire d) s = Server.reconcile d s.
Proof.
  unfold Server.reconcile.
  by rewrite carriesTab_overTheWire, carriesClosedTab_overTheWire, !get_overTheWire.
Qed.

(** What the server does with a report of failure. *)
Lemma report_error_settles taskId errorMsg s e :
  Server.pendingTasks s !! taskId = Some e →
  Server.settled (Server.report_error taskId errorMsg s).1
  = (Server.promise e, Server.Rejected (Server.errorMessage errorMsg))
      :: Server.settled s
  ∧ Server.pendingTasks (Server.report_error taskId errorMsg s).1 !! taskId = None
  ∧ Server.tabManager (Server.report_error taskId errorMsg s).1 = Server.tabManager s.
Proof.
  intros He. unfold Server.report_error. rewrite He. simpl.
  split_and!; [done|apply lookup_delete_eq|done].
Qed.



(** X23. The reason of a failed open-tab or close-tab never reaches the
    caller. [openTab] and [closeTab] reject with a string, so the
    [error.message] that [executeTask] reports is [undefined], the report
    is posted without an [error] property, and the server rejects the
    caller's wait with an empty message. A failed execute-js or switch-tab
    throws an [Error], and its message is what the server rejects with. *)
Theorem callback_failures_lose_their_message
    (task : Task.t) (b : Extension.browser) (taskId errorMsg : JS.value) :
  Extension.executeTask task b = Extension.ReportError taskId errorMsg →
  taskId = Task.taskId task
  ∧ (Task.command task = JS.Str "open-tab" ∨ Task.command task = JS.Str "close-tab" →
     errorMsg = JS.Undefined
     ∧ ∀ s e, Server.pendingTasks s !! taskId = Some e →
         Server.settled
           (Server.handle (Extension.toRequest (Extension.executeTask task b)) s).1
         = (Server.promise e, Server.Rejected "") :: Server.settled s)
  ∧ (Task.command task ≠ JS.Str "open-tab" → Task.command task ≠ JS.Str "close-tab" →
     ∃ m, errorMsg = JS.Str m ∧ m ≠ ""
          ∧ ∀ s e, Server.pendingTasks s !! taskId = Some e →
              Server.settled
                (Server.handle (Extension.toRequest (Extension.executeTask task b)) s).1
              = (Server.promise e, Server.Rejected m) :: Server.settled s).
Proof.
  intros Hreport. rewrite Hreport. cbn [Extension.toRequest].
  assert (∀ s e, Server.pendingTasks s !! taskId = Some e →
            Server.settled (Server.handle (Server.ReportError taskId errorMsg) s).1
            = (Server.promise e, Server.Rejected (Server.errorMessage errorMsg))
                :: Server.settled s) as Hsettle.
  { intros s e He.
    pose proof (report_error_settles taskId errorMsg s e He) as [Hs _].
    cbn [Server.handle].
    by destruct (Server.report_error taskId errorMsg s) as [s' r]. }
  assert (taskId = Task.taskId task
          ∧ ((Task.command task = JS.Str "open-tab"
              ∨ Task.command task = JS.Str "close-tab")
             ∧ errorMsg = JS.Undefined
             ∨ (Task.command task ≠ JS.Str "open-tab"
                ∧ Task.command task ≠ JS.Str "close-tab"
                ∧ ∃ m, errorMsg = JS.Str m ∧ m ≠ ""))) as [Hid Hclass].
  { revert Hreport. unfold Extension.executeTask.
    destruct (decide (Task.command task = JS.Str "open-tab")) as [Hc|Hopen].
    { unfold Extension.openTab.
      destruct (Extension.tabs_create b _) as [err|tab];
        [|destruct (Extension.windows_get b _) as [err|]]; intros [= <- <-]; auto. }
    destruct (decide (Task.command task = JS.Str "close-tab")) as [Hc|Hclose].
    { unfold Extension.closeTab. destruct (negb _);
        [|destruct (Extension.tabs_remove b _) as [err|]]; intros [= <- <-]; auto. }
    assert (∀ m, m ≠ "" →
              Extension.ReportError (Task.taskId task) (JS.Str m)
              = Extension.ReportError taskId errorMsg →
              taskId = Task.taskId task
              ∧ ((Task.command task = JS.Str "open-tab"
                  ∨ Task.command task = JS.Str "close-tab")
                 ∧ errorMsg = JS.Undefined
                 ∨ (Task.command task ≠ JS.Str "open-tab"
                    ∧ Task.command task ≠ JS.Str "close-tab"
                    ∧ ∃ m, errorMsg = JS.Str m ∧ m ≠ ""))) as Hcase.
    { intros m Hm [= <- <-]. split; [done|]. right. split_and!; try done. by exists m. }
    destruct (decide (Task.command task = JS.Str "execute-js")) as [Hc|Hexec].
    { unfold Extension.executeJSInTab. destruct (negb _); [by apply Hcase|].
      destruct (negb _); [by apply Hcase|].
      destruct (Extension.executeScript b _ _) as [err|r]; [by apply Hcase|done]. }
    destruct (decide (Task.command task = JS.Str "switch-tab")) as [Hc|Hswitch].
    { unfold Extension.switchTab. destruct (negb _); [by apply Hcase|].
      destruct (Extension.tabs_get b _) as [err|[|]]; try by apply Hcase.
      destruct (Extension.tabs_update b _) as [err|]; [by apply Hcase|done]. }
    by apply Hcase. }
  split_and!; [done| |].
  - intros Hcmd. destruct Hclass as [[_ ->]|(Hopen & Hclose & _)].
    + split; [done|]. intros s e He. by rewrite (Hsettle s e He).
    + by destruct Hcmd.
  - intros Hopen Hclose. destruct Hclass as [[Hcmd _]|(_ & _ & m & -> & Hm)].
    + by destruct Hcmd.
    + exists m. by split_and!.
Qed.

Lemma callback_failures_lose_their_message_witness :
  let task := Task.mk (JS.Str "t") (JS.Str "close-tab") (JS.Num 9) JS.Null JS.Null in
  let b := Extension.mkBrowser (λ _, inl "refused") (λ _, None)
             (λ _, Some "No tab with id: 9.")
             (λ _ _, inr (JS.Num 1)) (λ _, inr true) (λ _, None) in
  let s := (Server.add_task (JS.Str "t") (JS.Str "close-tab") JS.Undefined JS.Undefined
              (JS.Num 9) (Server.start None 0)).1 in
  Extension.executeTask task b = Extension.ReportError (JS.Str "t") JS.Undefined
  ∧ Server.settled
      (Server.handle (Extension.toRequest (Extension.executeTask task b)) s).1
    = [(0, Server.Rejected "")].
Proof.
  intros task b s.
  destruct (callback_failures_lose_their_message task b (JS.Str "t") JS.Undefined
              eq_refl) as (_ & Hlost & _).
  destruct (Hlost (or_intror eq_refl)) as [_ Hsettled].
  split; [reflexivity|].
  apply (Hsettled s (Server.mkPending 0 0)). vm_compute. reflexivity.
Defined.

(** X24. The two ends disagree on which fields are present. /execute-js
    and /switch-tab test the type of their fields, the extension tests
    their truthiness: a request with tab id 0, or with an empty script, is
    accepted and queued by the server, and the extension then reports it
    as failed without asking the browser anything, so that the caller
    gets the extension's "No tabId provided" or "No jsFunction provided"
    error. *)
Theorem typed_but_falsy_fields_fail_in_the_extension
    (s : Server.t) (b : Extension.browser) :
  Server.taskQueue s = [] →
  (∀ script,
     let submitted := Server.execute_js (JS.Num 0) (JS.Str script) s in
     let polled := Server.get_task submitted.1 in
     submitted.2 = None
     ∧ ∃ taskId,
         Extension.fetchTask polled.2 b
         = Some (Extension.ReportError taskId
                   (JS.Str "No tabId provided to execute-js command"))
         ∧ Server.settled
             (Server.report_error taskId
                (JS.Str "No tabId provided to execute-js command") polled.1).1
           = (Server.nextPromise s,
              Server.Rejected "No tabId provided to execute-js command")
               :: Server.settled s)
  ∧ (∀ n, n ≠ 0%Z →
     let submitted := Server.execute_js (JS.Num n) (JS.Str "") s in
     let polled := Server.get_task submitted.1 in
     submitted.2 = None
     ∧ ∃ taskId,
         Extension.fetchTask polled.2 b
         = Some (Extension.ReportError taskId
                   (JS.Str "No jsFunction provided for execution"))
         ∧ Server.settled
             (Server.report_error taskId
                (JS.Str "No jsFunction provided for execution") polled.1).1
           = (Server.nextPromise s,
              Server.Rejected "No jsFunction provided for execution")
               :: Server.settled s)
  ∧ (let submitted := Server.switch_tab (JS.Num 0) s in
     let polled := Server.get_task submitted.1 in
     submitted.2 = None
     ∧ ∃ taskId,
         Extension.fetchTask polled.2 b
         = Some (Extension.ReportError taskId
                   (JS.Str "No tabId provided to switch-tab command"))
         ∧ Server.settled
             (Server.report_error taskId
                (JS.Str "No tabId provided to switch-tab command") polled.1).1
           = (Server.nextPromise s,
              Server.Rejected "No tabId provided to switch-tab command")
               :: Server.settled s).
Proof.
  intros Hq. split_and!.
  - intros script. simpl. unfold Server.execute_js, Server.get_task. simpl.
    rewrite Hq. simpl. split; [done|]. eexists. split; [reflexivity|].
    unfold Server.report_error. simpl. by rewrite lookup_insert_eq.
  - intros n Hn. simpl. unfold Server.execute_js, Server.get_task. simpl.
    rewrite Hq. simpl. split; [done|]. eexists. split.
    + unfold Extension.fetchTask, Extension.executeTask, Extension.executeJSInTab.
      simpl. destruct n; [done| |]; reflexivity.
    + unfold Server.report_error. simpl. by rewrite lookup_insert_eq.
  - simpl. unfold Server.switch_tab, Server.get_task. simpl.
    rewrite Hq. simpl. split; [done|]. eexists. split; [reflexivity|].
    unfold Server.report_error. simpl. by rewrite lookup_insert_eq.
Qed.

Lemma typed_but_falsy_fields_fail_in_the_extension_witness :
  let b := Extension.mkBrowser (λ _, inl "refused") (λ _, None) (λ _, None)
             (λ _ _, inr (JS.Num 1)) (λ _, inr true) (λ _, None) in
  let submitted := Server.switch_tab (JS.Num 0) (Server.start None 7) in
  submitted.2 = None
  ∧ ∃ taskId,
      Extension.fetchTask (Server.get_task submitted.1).2 b
      = Some (Extension.ReportError taskId
                (JS.Str "No tabId provided to switch-tab command")).
Proof.
  intros b submitted.
  destruct (typed_but_falsy_fields_fail_in_the_extension (Server.start None 7) b
              eq_refl) as (_ & _ & Hacc & taskId & Hfetch & _).
  split; [exact Hacc|]. by exists taskId.
Defined.

(** What the server does with a report of success. *)
Lemma report_result_over_the_wire taskId data s e :
  Server.pendingTasks s !! taskId = Some e →
  let s' := (Server.handle
               (Extension.toRequest (Extension.ReportResult taskId data)) s).1 in
  Server.tabManager s' = Server.tabManager (Server.reconcile data s)
  ∧ Server.settled s'
    = (Server.promise e, Server.Resolved (Extension.overTheWire data))
        :: Server.settled s
  ∧ Server.pendingTasks s' !! taskId = None.
Proof.
  intros He. cbn [Extension.toRequest Server.handle].
  destruct (report_result_present taskId (Extension.overTheWire data) s e He)
    as (Hs & Hp & _).
  assert (Server.tabManager (Server.report_result taskId (Extension.overTheWire data) s).1
          = Server.tabManager (Server.reconcile data s)) as Htm.
  { unfold Server.report_result. cbn [fst]. rewrite reconcile_overTheWire.
    by destruct (Server.pendingTasks (Server.reconcile data s) !! taskId). }
  destruct (Server.report_result taskId (Extension.overTheWire data) s) as [s' r].
  simpl in *. split_and!; [done|done|]. rewrite Hp. apply lookup_delete_eq.
Qed.

(** X25. An open-tab task that succeeds ends with the new tab in the
    server's table. When the browser creates the tab and answers with a
    truthy id, window id and url, [executeTask] reports these three, the
    report passes the wire unchanged, and the server, on receiving it,
    makes the upsert for exactly that tab and resolves the caller's wait
    with the three values: /opened-tabs then lists the tab with the
    window and url the browser gave. *)
Theorem open_tab_success_is_tracked
    (task : Task.t) (b : Extension.browser) (tab : ChromeTab.t)
    (s : Server.t) (e : Server.pending) :
  Task.command task = JS.Str "open-tab" →
  Extension.tabs_create b (Task.url task) = inr tab →
  Extension.windows_get b (ChromeTab.windowId tab) = None →
  JS.truthy (ChromeTab.id tab) = true →
  JS.truthy (ChromeTab.windowId tab) = true →
  JS.truthy (ChromeTab.url tab) = true →
  Server.pendingTasks s !! Task.taskId task = Some e →
  let data :=
    JS.Object (<["tabId" := ChromeTab.id tab]>
                 (<["windowId" := ChromeTab.windowId tab]>
                    (<["url" := ChromeTab.url tab]> ∅))) in
  let s' := (Server.handle (Extension.toRequest (Extension.executeTask task b)) s).1 in
  Extension.executeTask task b = Extension.ReportResult (Task.taskId task) data
  ∧ Extension.overTheWire data = data
  ∧ Server.tabManager s'
    = TabManager.addOrUpdateTab (ChromeTab.id tab) (ChromeTab.windowId tab)
        (ChromeTab.url tab) (Server.now s) (Server.tabManager s)
  ∧ Server.settled s' = (Server.promise e, Server.Resolved data) :: Server.settled s
  ∧ ∃ i record,
      list_find (λ t, Tab.tabId t = ChromeTab.id tab)
        (TabManager.getAllOpenedTabs (Server.tabManager s')) = Some (i, record)
      ∧ Tab.windowId record = ChromeTab.windowId tab
      ∧ Tab.url record = ChromeTab.url tab.
Proof.
  intros Hc Hcreate Hget Hid Hwid Hurl He data s'.
  assert (Extension.executeTask task b
          = Extension.ReportResult (Task.taskId task) data) as Hexec.
  { unfold Extension.executeTask. rewrite decide_True by done.
    unfold Extension.openTab. by rewrite Hcreate, Hget. }
  assert (Extension.overTheWire data = data) as Hwire.
  { unfold data. simpl. f_equal. apply map_filter_id. intros f v Hf. simpl.
    intros ->.
    apply lookup_insert_Some in Hf as [[_ Hf]|[_ Hf]]; [by rewrite Hf in Hid|].
    apply lookup_insert_Some in Hf as [[_ Hf]|[_ Hf]]; [by rewrite Hf in Hwid|].
    apply lookup_insert_Some in Hf as [[_ Hf]|[_ Hf]]; [by rewrite Hf in Hurl|].
    by rewrite lookup_empty in Hf. }
  assert (Server.tabManager (Server.reconcile data s)
          = TabManager.addOrUpdateTab (ChromeTab.id tab) (ChromeTab.windowId tab)
              (ChromeTab.url tab) (Server.now s) (Server.tabManager s)) as Hrec.
  { unfold Server.reconcile, Server.carriesTab, Server.carriesClosedTab.
    assert (JS.get data "tabId" = ChromeTab.id tab) as -> by done.
    assert (JS.get data "windowId" = ChromeTab.windowId tab) as -> by done.
    assert (JS.get data "url" = ChromeTab.url tab) as -> by done.
    assert (JS.get data "closedTabId" = JS.Undefined) as -> by done.
    rewrite Hid, Hwid, Hurl. unfold data.
    cbn [JS.json_truthy JS.truthy andb]. reflexivity. }
  destruct (report_result_over_the_wire (Task.taskId task) data s e He)
    as (Htm & Hs & _).
  subst s'. rewrite Hexec, Htm, Hs, Hwire, Hrec.
  split_and!; [reflexivity|reflexivity|reflexivity|reflexivity|].
  destruct (addOrUpdateTab_finds (ChromeTab.id tab) (ChromeTab.windowId tab)
              (ChromeTab.url tab) (Server.now s) (Server.tabManager s)) as [Hf _].
  unfold TabManager.getAllOpenedTabs. simpl in Hf. rewrite Hf.
  eexists _, _. split; [reflexivity|]. split; reflexivity.
Qed.

Lemma open_tab_success_is_tracked_witness :
  let task := Task.mk (JS.Str "t") (JS.Str "open-tab") JS.Null (JS.Str "https://a")
                JS.Null in
  let b := Extension.mkBrowser
             (λ url, inr (ChromeTab.mk (JS.Num 5) (JS.Num 1) url)) (λ _, None)
             (λ _, None) (λ _ _, inr (JS.Num 1)) (λ _, inr true) (λ _, None) in
  let s := (Server.add_task (JS.Str "t") (JS.Str "open-tab") (JS.Str "https://a")
              JS.Undefined JS.Undefined (Server.start None 0)).1 in
  let s' := (Server.handle (Extension.toRequest (Extension.executeTask task b)) s).1 in
  Server.settled s'
  = [(0, Server.Resolved
           (JS.Object (<["tabId" := JS.Num 5]>
                         (<["windowId" := JS.Num 1]>
                            (<["url" := JS.Str "https://a"]> ∅)))))]
  ∧ ∃ i record,
      list_find (λ t, Tab.tabId t = JS.Num 5)
        (TabManager.getAllOpenedTabs (Server.tabManager s')) = Some (i, record)
      ∧ Tab.windowId record = JS.Num 1
      ∧ Tab.url record = JS.Str "https://a".
Proof.
  intros task b s s'.
  assert (Server.pendingTasks s !! Task.taskId task = Some (Server.mkPending 0 0))
    as He by (vm_compute; reflexivity).
  destruct (open_tab_success_is_tracked task b
              (ChromeTab.mk (JS.Num 5) (JS.Num 1) (JS.Str "https://a")) s
              (Server.mkPending 0 0) eq_refl eq_refl eq_refl eq_refl eq_refl eq_refl He)
    as (_ & _ & _ & Hs & Hlisted).
  split; [exact Hs|exact Hlisted].
Defined.

(** Removing a tab from a table without repeated ids leaves no record of
    it. *)
Lemma removeClosedTab_absent tabId m :
  NoDup (Tab.tabId <$> TabManager.openedTabs m) →
  tabId ∉ Tab.tabId <$> TabManager.openedTabs (TabManager.removeClosedTab tabId m).
Proof.
  intros Hnd. rewrite removeClosedTab_openedTabs.
  destruct (list_find _ (TabManager.openedTabs m)) as [[i tab0]|] eqn:Hf.
  - apply list_find_split in Hf as (l1 & l2 & Hsplit & _ & Htab0 & Hl1 & _ & ->).
    rewrite Hsplit, fmap_app in Hnd. simpl in Hnd.
    apply NoDup_app in Hnd as (_ & _ & [Hl2 _]%NoDup_cons).
    rewrite fmap_app, elem_of_app. intros [Hin|Hin].
    + apply list_elem_of_fmap in Hin as (tab & Heq & Hin).
      eapply Forall_forall in Hl1; [|exact Hin]. by apply Hl1.
    + apply Hl2. by rewrite Htab0.
  - apply list_find_None in Hf. intros (tab & Heq & Hin)%list_elem_of_fmap.
    eapply Forall_forall in Hf; [|exact Hin]. by apply Hf.
Qed.

(** X26. A close-tab task that succeeds ends with the tab gone from the
    server's table. When the browser removes the tab, [executeTask]
    reports its id as [closedTabId]; the server, on receiving the report,
    makes exactly the removal of that tab and resolves the caller's wait;
    in a table without repeated ids no record of the tab is left for
    /opened-tabs to list. *)
Theorem close_tab_success_is_untracked
    (task : Task.t) (b : Extension.browser) (s : Server.t) (e : Server.pending) :
  Task.command task = JS.Str "close-tab" →
  JS.truthy (Task.tabId task) = true →
  Extension.tabs_remove b (Task.tabId task) = None →
  Server.pendingTasks s !! Task.taskId task = Some e →
  let data := JS.Object (<["closedTabId" := Task.tabId task]> ∅) in
  let s' := (Server.handle (Extension.toRequest (Extension.executeTask task b)) s).1 in
  Extension.executeTask task b = Extension.ReportResult (Task.taskId task) data
  ∧ Extension.overTheWire data = data
  ∧ Server.tabManager s'
    = TabManager.removeClosedTab (Task.tabId task) (Server.tabManager s)
  ∧ Server.settled s' = (Server.promise e, Server.Resolved data) :: Server.settled s
  ∧ (NoDup (Tab.tabId <$> TabManager.openedTabs (Server.tabManager s)) →
     Task.tabId task
     ∉ Tab.tabId <$> TabManager.getAllOpenedTabs (Server.tabManager s')).
Proof.
  intros Hc Htab Hremove He data s'.
  assert (Extension.executeTask task b
          = Extension.ReportResult (Task.taskId task) data) as Hexec.
  { unfold Extension.executeTask.
    rewrite decide_False by (rewrite Hc; discriminate).
    rewrite decide_True by done.
    unfold Extension.closeTab. by rewrite Htab, Hremove. }
  assert (Extension.overTheWire data = data) as Hwire.
  { unfold data. simpl. f_equal. apply map_filter_id. intros f v Hf. simpl.
    intros ->.
    apply lookup_insert_Some in Hf as [[_ Hf]|[_ Hf]]; [by rewrite Hf in Htab|].
    by rewrite lookup_empty in Hf. }
  assert (Server.tabManager (Server.reconcile data s)
          = TabManager.removeClosedTab (Task.tabId task) (Server.tabManager s)) as Hrec.
  { unfold Server.reconcile, Server.carriesTab, Server.carriesClosedTab.
    assert (JS.get data "tabId" = JS.Undefined) as -> by done.
    assert (JS.get data "closedTabId" = Task.tabId task) as -> by done.
    rewrite Htab. unfold data. cbn [JS.json_truthy JS.truthy andb]. reflexivity. }
  destruct (report_result_over_the_wire (Task.taskId task) data s e He)
    as (Htm & Hs & _).
  subst s'. rewrite Hexec, Htm, Hs, Hwire, Hrec.
  split_and!; [reflexivity|reflexivity|reflexivity|reflexivity|].
  intros Hnd. unfold TabManager.getAllOpenedTabs. by apply removeClosedTab_absent.
Qed.

Lemma close_tab_success_is_untracked_witness :
  let task := Task.mk (JS.Str "c") (JS.Str "close-tab") (JS.Num 5) JS.Null JS.Null in
  let b := Extension.mkBrowser (λ _, inl "refused") (λ _, None) (λ _, None)
             (λ _ _, inr (JS.Num 1)) (λ _, inr true) (λ _, None) in
  let s := (Server.add_task (JS.Str "c") (JS.Str "close-tab") JS.Undefined JS.Undefined
              (JS.Num 5)
              (Server.start
                 (Some (TabManager.mkDocument
                          [Tab.mk (JS.Num 5) (JS.Num 1) (JS.Str "https://a") 0 0]
                          [Window.mk (JS.Num 1) [JS.Num 5] 0])) 10)).1 in
  let s' := (Server.handle (Extension.toRequest (Extension.executeTask task b)) s).1 in
  TabManager.getAllOpenedTabs (Server.tabManager s) ≠ []
  ∧ Server.tabManager s' = TabManager.removeClosedTab (JS.Num 5) (Server.tabManager s)
  ∧ TabManager.getAllOpenedTabs (Server.tabManager s') = [].
Proof.
  intros task b s s'.
  assert (Server.pendingTasks s !! Task.taskId task = Some (Server.mkPending 0 0))
    as He by (vm_compute; reflexivity).
  destruct (close_tab_success_is_untracked task b s (Server.mkPending 0 0)
              eq_refl eq_refl eq_refl He) as (_ & _ & Htm & _ & _).
  split; [discriminate|]. split; [exact Htm|].
  fold s' in Htm. rewrite Htm. vm_compute. reflexivity.
Defined.

(** X27. Only a successful open-tab or close-tab changes the server's
    table of tabs. Whatever the browser answers, the report that
    [executeTask] sends for any other command (execute-js, switch-tab, an
    unknown command), and every report of failure, leaves the tab manager
    of the server as it was. *)
Theorem only_open_and_close_change_the_tabs (task : Task.t) (b : Extension.browser) :
  (Task.command task ≠ JS.Str "open-tab" → Task.command task ≠ JS.Str "close-tab" →
   ∀ s, Server.tabManager
          (Server.handle (Extension.toRequest (Extension.executeTask task b)) s).1
        = Server.tabManager s)
  ∧ (∀ taskId errorMsg,
       Extension.executeTask task b = Extension.ReportError taskId errorMsg →
       ∀ s, Server.tabManager
              (Server.handle (Extension.toRequest (Extension.executeTask task b)) s).1
            = Server.tabManager s).
Proof.
  assert (∀ taskId errorMsg s,
            Server.tabManager
              (Server.handle
                 (Extension.toRequest (Extension.ReportError taskId errorMsg)) s).1
            = Server.tabManager s) as Herr.
  { intros taskId errorMsg s. cbn [Extension.toRequest Server.handle].
    unfold Server.report_error.
    by destruct (Server.pendingTasks s !! taskId). }
  assert (∀ taskId f v s, f ≠ "tabId" → f ≠ "closedTabId" →
            Server.tabManager
              (Server.handle
                 (Extension.toRequest
                    (Extension.ReportResult taskId (JS.Object (<[f := v]> ∅)))) s).1
            = Server.tabManager s) as Hok.
  { intros taskId f v s Hf1 Hf2. cbn [Extension.toRequest Server.handle].
    unfold Server.report_result. cbn [fst]. rewrite reconcile_overTheWire.
    assert (Server.reconcile (JS.Object (<[f := v]> ∅)) s = s) as ->.
    { unfold Server.reconcile, Server.carriesTab, Server.carriesClosedTab.
      cbn [JS.get JS.json_truthy]. rewrite !lookup_insert_ne by done.
      by rewrite !lookup_empty. }
    by destruct (Server.pendingTasks s !! taskId). }
  split.
  - intros Hopen Hclose s. unfold Extension.executeTask.
    rewrite !decide_False by done.
    destruct (decide (Task.command task = JS.Str "execute-js")) as [Hc|Hexec].
    { unfold Extension.executeJSInTab. destruct (negb _); [apply Herr|].
      destruct (negb _); [apply Herr|].
      destruct (Extension.executeScript b _ _) as [err|r]; [apply Herr|by apply Hok]. }
    destruct (decide (Task.command task = JS.Str "switch-tab")) as [Hc|Hswitch].
    { unfold Extension.switchTab. destruct (negb _); [apply Herr|].
      destruct (Extension.tabs_get b _) as [err|[|]]; try apply Herr.
      destruct (Extension.tabs_update b _) as [err|]; [apply Herr|by apply Hok]. }
    apply Herr.
  - intros taskId errorMsg -> s. apply Herr.
Qed.

Lemma only_open_and_close_change_the_tabs_witness :
  let task := Task.mk (JS.Str "switch-tab-5-0") (JS.Str "switch-tab") (JS.Num 5)
                JS.Undefined JS.Undefined in
  let b := Extension.mkBrowser (λ _, inl "refused") (λ _, None) (λ _, None)
             (λ _ _, inr (JS.Num 1)) (λ _, inr true) (λ _, None) in
  let s := (Server.switch_tab (JS.Num 5) (Server.start None 0)).1 in
  Extension.executeTask task b
  = Extension.ReportResult (JS.Str "switch-tab-5-0")
      (JS.Object (<["switchedToTabId" := JS.Num 5]> ∅))
  ∧ Server.tabManager
      (Server.handle (Extension.toRequest (Extension.executeTask task b)) s).1
    = Server.tabManager s.
Proof.
  intros task b s. split; [reflexivity|].
  apply (proj1 (only_open_and_close_change_the_tabs task b)); discriminate.
Defined.

(** X28. A sync makes the server's table the browser's list. The body
    [syncOpenedTabs] posts always holds an array, so /sync-tabs never
    answers it with status 400; afterwards /opened-tabs lists one record
    per tab of the browser, in the browser's order, with its id, window
    and url, whatever the table held before, and the table satisfies the
    membership invariant. *)
Theorem syncOpenedTabs_mirrors_the_browser (tabs : list ChromeTab.t) (s : Server.t) :
  let answered := Server.handle (Extension.syncOpenedTabs tabs) s in
  (∃ synced, answered.2 = Some (Server.mkResponse 200 (Server.Synced synced))
             ∧ length synced = length tabs)
  ∧ TabManager.getAllOpenedTabs (Server.tabManager answered.1)
    = (λ tab, Tab.mk (ChromeTab.id tab) (ChromeTab.windowId tab) (ChromeTab.url tab)
                (Server.now s) (Server.now s)) <$> tabs
  ∧ (Server.opened_tabs answered.1).2
    = Server.mkResponse 200
        (Server.Tabs ((λ tab, Tab.mk (ChromeTab.id tab) (ChromeTab.windowId tab)
                                (ChromeTab.url tab) (Server.now s) (Server.now s))
                        <$> tabs))
  ∧ TabManager.membership_invariant (Server.tabManager answered.1).
Proof.
  set (synced := (λ tab, SyncedTab.mk (ChromeTab.id tab) (ChromeTab.windowId tab)
                           (ChromeTab.url tab)) <$> tabs).
  assert (Server.handle (Extension.syncOpenedTabs tabs) s
          = (Server.with_tabManager
               (TabManager.replaceAllTabs synced (Server.now s) (Server.tabManager s)) s,
             Some (Server.mkResponse 200 (Server.Synced (Some <$> synced))))) as ->.
  { unfold Extension.syncOpenedTabs, Server.handle, Server.sync_tabs.
    assert ((λ tab, Some (SyncedTab.mk (ChromeTab.id tab) (ChromeTab.windowId tab)
                            (ChromeTab.url tab))) <$> tabs = Some <$> synced) as ->.
    { unfold synced. by rewrite <- list_fmap_compose. }
    by rewrite replaceAllTabs_unchecked_returns. }
  cbn [fst snd].
  destruct (replaceAllTabs_content synced (Server.now s) (Server.tabManager s))
    as [Htabs _].
  assert (TabManager.trackedTabOf (Server.now s) <$> synced
          = (λ tab, Tab.mk (ChromeTab.id tab) (ChromeTab.windowId tab)
                      (ChromeTab.url tab) (Server.now s) (Server.now s)) <$> tabs)
    as Hmap.
  { unfold synced. rewrite <- list_fmap_compose. done. }
  split_and!.
  - exists (Some <$> synced). split; [done|]. unfold synced. by rewrite !length_fmap.
  - unfold TabManager.getAllOpenedTabs. simpl. by rewrite Htabs.
  - unfold Server.opened_tabs, TabManager.getAllOpenedTabs. simpl.
    by rewrite Htabs, Hmap.
  - apply grouped_membership_invariant.
    pose proof (replaceAllTabs_grouped synced (Server.now s) (Server.tabManager s))
      as Hg.
    simpl. rewrite Htabs, <- list_fmap_compose. exact Hg.
Qed.

(** X29. A report overtaken by a tab event is never posted. All success
    reports, those of tasks and those of the tab listeners, go through the
    one [debouncedReportResult]. When a listener calls it less than 500 ms
    after [executeTask] did, the timer of the task's report is cleared
    before it can fire: nothing is posted in between, and the only request
    that follows is the listener's. The server therefore keeps the entry
    of the task, whose caller is answered by the timeout alone. *)
Theorem report_overtaken_by_a_tab_event_is_never_posted
    (d : Debounce.t (JS.value * JS.json))
    (taskId autoTaskId : JS.value) (result data : JS.json) (dt : Z) :
  Debounce.tidy d →
  (0 ≤ dt < Extension.reportDelay)%Z →
  (∀ k, Debounce.run Extension.reportDelay
          [Debounce.Call (taskId, result); Debounce.Tick dt; Debounce.Fires k;
           Debounce.Call (autoTaskId, data)] d = None)
  ∧ ∃ d' h,
      Debounce.run Extension.reportDelay
        [Debounce.Call (taskId, result); Debounce.Tick dt;
         Debounce.Call (autoTaskId, data)] d = Some d'
      ∧ Extension.posted d' = Extension.posted d
      ∧ dom (Debounce.timers d') = {[ h ]}
      ∧ ∀ dt', (Extension.reportDelay ≤ dt')%Z →
          ∃ d'',
            Debounce.run Extension.reportDelay
              [Debounce.Tick dt'; Debounce.Fires h] d' = Some d''
            ∧ Extension.posted d''
              = Extension.posted d
                  ++ [Server.ReportResult autoTaskId (Extension.overTheWire data)]
            ∧ Debounce.timers d'' = ∅
            ∧ ∀ s e, autoTaskId ≠ taskId →
                Server.pendingTasks s !! taskId = Some e →
                Server.pendingTasks
                  (Server.handle
                     (Server.ReportResult autoTaskId (Extension.overTheWire data)) s).1
                  !! taskId = Some e.
Proof.
  intros Htidy Hdt.
  pose proof (call_timers Extension.reportDelay (taskId, result) d Htidy) as Hcall.
  destruct (burst_run Extension.reportDelay [(dt, (autoTaskId, data))] eq_refl
              (Debounce.call Extension.reportDelay (taskId, result) d)
              (Debounce.nextHandle d) (taskId, result) eq_refl Hcall)
    as (Hquiet & d' & h & Hrun & Happ & Hid & Ht).
  { by apply Forall_singleton. }
  split.
  - intros k.
    apply (Hquiet [Debounce.Tick dt] [Debounce.Call (autoTaskId, data)] k eq_refl).
  - exists d', h. split_and!.
    + exact Hrun.
    + unfold Extension.posted. by rewrite Happ.
    + rewrite Ht. apply dom_singleton_L.
    + intros dt' Hdt'. cbn [Debounce.run Debounce.step].
      rewrite bool_decide_eq_true_2 by (unfold Extension.reportDelay in *; lia).
      unfold Debounce.fires. cbn [Debounce.timers Debounce.now].
      rewrite Ht, lookup_singleton_eq.
      rewrite bool_decide_eq_true_2 by lia.
      eexists. split; [reflexivity|]. cbn [Debounce.timers].
      split_and!.
      * unfold Extension.posted. cbn [Debounce.applied].
        rewrite fmap_app, Happ. reflexivity.
      * apply delete_singleton_eq.
      * intros s e Hne He. cbn [Server.handle].
        unfold Server.report_result. cbn [fst].
        pose proof (reconcile_bookkeeping (Extension.overTheWire data) s)
          as [= Hp _ _ _ _].
        destruct (Server.pendingTasks
                    (Server.reconcile (Extension.overTheWire data) s) !! autoTaskId)
          as [e'|] eqn:He'; cbn [fst Server.pendingTasks Server.with_pendingTasks].
        -- rewrite lookup_delete_ne by done. cbn. by rewrite Hp.
        -- by rewrite Hp.
Qed.

Lemma report_overtaken_by_a_tab_event_is_never_posted_witness :
  ∃ d' h,
    Debounce.run Extension.reportDelay
      [Debounce.Call (JS.Str "t", JS.Object {[ "closedTabId" := JS.Num 5 ]});
       Debounce.Tick 40;
       Debounce.Call (JS.Str "auto-close-5-40",
                      JS.Object {[ "closedTabId" := JS.Num 5 ]})]
      (Debounce.init 0) = Some d'
    ∧ Extension.posted d' = []
    ∧ dom (Debounce.timers d') = {[ h ]}.
Proof.
  destruct (report_overtaken_by_a_tab_event_is_never_posted (Debounce.init 0)
              (JS.Str "t") (JS.Str "auto-close-5-40")
              (JS.Object {[ "closedTabId" := JS.Num 5 ]})
              (JS.Object {[ "closedTabId" := JS.Num 5 ]}) 40)
    as (_ & d' & h & Hrun & Hposted & Hdom & _).
  - apply tidy_init.
  - unfold Extension.reportDelay. lia.
  - by exists d', h.
Defined.


(** * Runs on which the code departs from its specification *)

(** ** An unreported wait that is never rejected *)

(** C2, the failing run. Two submissions to /add-task that bring no task
    id are handled in the same millisecond, and no report follows. Both
    get the id generated from the clock, and the entry of the second wait
    replaces that of the first. At the deadline the timer of the first
    wait fires and rejects the promise of the second; the timer of the
    second then finds no entry. The first wait has received no report and
    is not rejected: two promises were handed out and one was settled, no
    timer and no entry is left, and in every continuation the first
    promise stays unsettled. *)
Theorem same_millisecond_wait_never_times_out :
  let first := Server.AddTask JS.Undefined (JS.Str "open-tab") (JS.Str "https://a")
                 JS.Undefined JS.Undefined in
  let second := Server.AddTask JS.Undefined (JS.Str "open-tab") (JS.Str "https://b")
                  JS.Undefined JS.Undefined in
  let es := [Server.Request first; Server.Request second; Server.Tick 30000;
             Server.TimerFires 0; Server.TimerFires 1] in
  (Server.handle first (Server.start None 0)).2 = None
  ∧ (Server.handle second (Server.handle first (Server.start None 0)).1).2 = None
  ∧ ∃ s,
      Server.run es (Server.start None 0) = Some s
      ∧ Server.nextPromise s = 2
      ∧ Server.settled s = [(1, Server.Rejected "Task timed out.")]
      ∧ Server.pendingTasks s = ∅
      ∧ Server.timers s = ∅
      ∧ ∀ es' s', Server.run es' s = Some s' → 0 ∉ (Server.settled s').*1.
Proof.
  intros first second es.
  split; [reflexivity|]. split; [reflexivity|].
  set (s := default (Server.start None 0) (Server.run es (Server.start None 0))).
  assert (Server.run es (Server.start None 0) = Some s) as Hrun
    by (vm_compute; reflexivity).
  assert (Server.pendingTasks s = ∅) as Hp by (vm_compute; reflexivity).
  assert (Server.settled s = [(1, Server.Rejected "Task timed out.")]) as Hs
    by (vm_compute; reflexivity).
  assert (Server.nextPromise s = 2) as Hn by (vm_compute; reflexivity).
  exists s. split_and!; [done|done|done|done|vm_compute; reflexivity|].
  intros es' s' Hrun'.
  assert (Server.orphaned 0 s) as Ho.
  { unfold Server.orphaned. rewrite Hp, Hs, Hn. split_and!.
    - lia.
    - intros k e He. by rewrite lookup_empty in He.
    - simpl. intros Hin. apply elem_of_cons in Hin as [Hin|Hin]; [done|].
      by apply elem_of_nil in Hin. }
  by destruct (orphaned_run 0 es' s s' Ho Hrun') as (_ & _ & ?).
Qed.

(** ** A change of the store that is never written *)

(** C9, the failing run. The report of a new tab starts a write. While it
    is in flight, /sync-tabs receives an array whose only element is
    [null]: [replaceAllTabs] clears both arrays and throws before it
    reaches [scheduleSave], and the handler answers with status 500. The
    store has changed during the flight, yet when the write completes no
    other write is started: nothing is in flight and nothing is queued,
    and the one document ever written still holds the tab that the store
    no longer has. *)
Theorem throwing_resync_gets_no_follow_up_write :
  let report :=
    Server.ReportResult (JS.Str "auto-open-1-0")
      (JS.Object (<["tabId" := JS.Num 1]>
                    (<["windowId" := JS.Num 10]>
                       (<["url" := JS.Str "https://a"]> ∅)))) in
  let resync := Server.SyncTabs (Some [None]) in
  let snapshot :=
    TabManager.mkDocument [Tab.mk (JS.Num 1) (JS.Num 10) (JS.Str "https://a") 0 0]
      [Window.mk (JS.Num 10) [JS.Num 1] 0] in
  let s1 := (Server.handle report (Server.start None 0)).1 in
  let s2 := (Server.handle resync s1).1 in
  TabManager.saveInProgress (Server.tabManager s1) = true
  ∧ TabManager.inFlight (Server.tabManager s1) = [snapshot]
  ∧ TabManager.currentDocument (Server.tabManager s1) = snapshot
  ∧ (Server.handle resync s1).2
    = Some (Server.mkResponse 500 (Server.Failure TabManager.nullElementMessage))
  ∧ TabManager.currentDocument (Server.tabManager s2) = TabManager.mkDocument [] []
  ∧ TabManager.saveQueued (Server.tabManager s2) = false
  ∧ TabManager.inFlight (Server.tabManager s2) = [snapshot]
  ∧ ∃ s3,
      Server.run [Server.Request report; Server.Request resync; Server.WriteDone 0]
        (Server.start None 0) = Some s3
      ∧ TabManager.currentDocument (Server.tabManager s3) = TabManager.mkDocument [] []
      ∧ TabManager.written (Server.tabManager s3) = [snapshot]
      ∧ TabManager.inFlight (Server.tabManager s3) = []
      ∧ TabManager.saveInProgress (Server.tabManager s3) = false
      ∧ TabManager.saveQueued (Server.tabManager s3) = false.
Proof.
  intros report resync snapshot s1 s2.
  split_and!; try (vm_compute; reflexivity).
  set (s3 := default s2 (Server.run [Server.WriteDone 0] s2)).
  exists s3. split_and!; vm_compute; reflexivity.
Qed.
